(** * SuiviVentes: import pipeline and storage facade

    A shallow embedding of the spreadsheet-import utilities (amount parser,
    header normaliser, row validator, duplicate detector), of the stock
    reconciler and of the storage facade of [src/utils/storage.ts], followed
    by the properties proved about them.

    Conventions of the embedding.
    - A JavaScript string is the list of its UTF-16 code units ([jsstring]).
    - A JavaScript number is [NaN] or a finite value, and a finite value is
      the exact rational it denotes: rounding to binary64, the two zeros and
      overflow to the infinities are abstracted away.
    - [async] functions are run to completion one after the other, so a
      function is a state transformer that either returns or throws.
    - Output to the console is left out. *)

From Stdlib Require Import ZArith NArith QArith Qabs List String Ascii Bool Lia.
From Stdlib Require Import DecimalString Permutation.
Import ListNotations.

Open Scope Z_scope.

(* ================================================================== *)
(** * Part I. Definitions                                              *)
(* ================================================================== *)

(** ** JavaScript strings *)

Module JsString.

Definition jsstring := list N.

(** Decoding of a UTF-8 literal into code units (characters of the Basic
    Multilingual Plane, which is all the source's literals contain). *)
Fixpoint utf8_decode (l : list N) : jsstring :=
  match l with
  | [] => []
  | b1 :: t =>
      if (b1 <? 128)%N then b1 :: utf8_decode t
      else match t with
           | [] => [b1]
           | b2 :: t2 =>
               if (b1 <? 224)%N
               then ((b1 - 192) * 64 + (b2 - 128))%N :: utf8_decode t2
               else match t2 with
                    | [] => [b1; b2]
                    | b3 :: t3 =>
                        ((b1 - 224) * 4096 + (b2 - 128) * 64 + (b3 - 128))%N
                          :: utf8_decode t3
                    end
           end
  end.

Definition js (s : string) : jsstring :=
  utf8_decode (map N_of_ascii (list_ascii_of_string s)).

Definition cu_eqb (a b : N) : bool := N.eqb a b.

Fixpoint str_eqb (a b : jsstring) : bool :=
  match a, b with
  | [], [] => true
  | x :: a', y :: b' => cu_eqb x y && str_eqb a' b'
  | _, _ => false
  end.

(** [s.startsWith(p)] *)
Fixpoint startsWith (s p : jsstring) {struct p} : bool :=
  match p, s with
  | [], _ => true
  | c :: p', d :: s' => cu_eqb c d && startsWith s' p'
  | _ :: _, [] => false
  end.

(** [s.includes(p)] *)
Fixpoint includes (s p : jsstring) : bool :=
  startsWith s p ||
  match s with
  | [] => false
  | _ :: s' => includes s' p
  end.

(** The class matched by [\s] in a regular expression, which is also the set
    removed by [trim]: WhiteSpace and LineTerminator of ECMAScript. *)
Definition is_space (c : N) : bool :=
  existsb (cu_eqb c)
    [9; 10; 11; 12; 13; 32; 160; 5760; 8232; 8233; 8239; 8287; 12288; 65279]%N
  || ((8192 <=? c) && (c <=? 8202))%N.

Fixpoint trimStart (s : jsstring) : jsstring :=
  match s with
  | [] => []
  | c :: t => if is_space c then trimStart t else s
  end.

Fixpoint trimEnd (s : jsstring) : jsstring :=
  match s with
  | [] => []
  | c :: t =>
      match trimEnd t with
      | [] => if is_space c then [] else [c]
      | t' => c :: t'
      end
  end.

Definition trim (s : jsstring) : jsstring := trimEnd (trimStart s).

(** [s.replace(/[set]/g, to)] for a class of single code units. *)
Definition replace_class (p : N -> bool) (to : jsstring) (s : jsstring)
  : jsstring :=
  flat_map (fun c => if p c then to else [c]) s.

(** [s.replace(c, to)] with a string pattern: the first occurrence only. *)
Fixpoint replace_first (c : N) (to : jsstring) (s : jsstring) : jsstring :=
  match s with
  | [] => []
  | d :: t => if cu_eqb d c then to ++ t else d :: replace_first c to t
  end.

(** [s.split(sep)] for a separator of one code unit. *)
Fixpoint split (sep : N) (s : jsstring) : list jsstring :=
  match s with
  | [] => [[]]
  | c :: t =>
      match split sep t with
      | [] => [[c]]
      | seg :: segs => if cu_eqb c sep then [] :: seg :: segs
                       else (c :: seg) :: segs
      end
  end.

(** [s.toLowerCase()] on Basic Latin and the Latin-1 Supplement; other code
    units are left as they are. *)
Definition lower_cu (c : N) : N :=
  if ((65 <=? c) && (c <=? 90))%N then (c + 32)%N
  else if ((192 <=? c) && (c <=? 222) && negb (c =? 215))%N then (c + 32)%N
  else c.

Definition toLowerCase (s : jsstring) : jsstring := map lower_cu s.

Definition is_digit (c : N) : bool := ((48 <=? c) && (c <=? 57))%N.

Definition digit_val (c : N) : Z := Z.of_N c - 48.

(** Value of a run of decimal digits, most significant first. *)
Definition digits_val (ds : list N) : Z :=
  fold_left (fun acc c => 10 * acc + digit_val c) ds 0.

(** Longest prefix of [s] whose code units satisfy [p], and the rest. *)
Fixpoint span (p : N -> bool) (s : jsstring) : jsstring * jsstring :=
  match s with
  | [] => ([], [])
  | c :: t =>
      if p c then let '(a, b) := span p t in (c :: a, b) else ([], s)
  end.

End JsString.
Export JsString.

(** ** JavaScript numbers *)

Module JsNumber.

Inductive number : Type :=
| NaN
| Fin (q : Q).

Definition num_of_Z (z : Z) : number := Fin (inject_Z z).

Definition lift2 (f : Q -> Q -> Q) (a b : number) : number :=
  match a, b with
  | Fin x, Fin y => Fin (f x y)
  | _, _ => NaN
  end.

Definition num_add := lift2 Qplus.
Definition num_sub := lift2 Qminus.
Definition num_mul := lift2 Qmult.

(** Division; a zero divisor is outside the finite model and gives [NaN]. *)
Definition num_div (a b : number) : number :=
  match a, b with
  | Fin x, Fin y => if Qeq_bool y 0 then NaN else Fin (x / y)
  | _, _ => NaN
  end.


(** [a < b]: false as soon as one side is NaN. *)
Definition num_ltb (a b : number) : bool :=
  match a, b with
  | Fin x, Fin y => negb (Qle_bool y x)
  | _, _ => false
  end.

(** [a === b] on numbers: NaN differs from everything, itself included. *)
Definition num_eqb (a b : number) : bool :=
  match a, b with
  | Fin x, Fin y => Qeq_bool x y
  | _, _ => false
  end.

Definition isNaN (a : number) : bool :=
  match a with
  | NaN => true
  | Fin _ => false
  end.

(** Equality of the values denoted (NaN only equals NaN). *)
Definition num_equiv (a b : number) : Prop :=
  match a, b with
  | NaN, NaN => True
  | Fin x, Fin y => (x == y)%Q
  | _, _ => False
  end.

(** An optional sign: whether it is a minus, and what follows. *)
Definition scan_sign (s : jsstring) : bool * jsstring :=
  match s with
  | c :: r => if cu_eqb c 45 then (true, r)
              else if cu_eqb c 43 then (false, r) else (false, s)
  | [] => (false, s)
  end.

(** [ExponentPart]: its value and what follows it; 0 and the string itself
    when there is no well-formed exponent. *)
Definition scan_exponent (s : jsstring) : Z * jsstring :=
  match s with
  | e :: t =>
      if cu_eqb e 101 || cu_eqb e 69 then
        let '(neg, t') := scan_sign t in
        let '(ds, r) := span is_digit t' in
        match ds with
        | [] => (0, s)
        | _ => (if neg then - digits_val ds else digits_val ds, r)
        end
      else (0, s)
  | [] => (0, s)
  end.

(** [StrUnsignedDecimalLiteral] at the head of [s]: digits, optional
    fraction, optional exponent; the value and what follows.  The literal
    [Infinity] is outside the number model. *)
Definition scan_decimal (s : jsstring) : option (Q * jsstring) :=
  let '(ip, r1) := span is_digit s in
  let '(fp, r2) :=
    match r1 with
    | c :: t => if cu_eqb c 46 then span is_digit t else ([], r1)
    | [] => ([], r1)
    end in
  match ip ++ fp with
  | [] => None
  | ds =>
      let '(e, r3) := scan_exponent r2 in
      Some (inject_Z (digits_val ds)
              * Qpower 10 (e - Z.of_nat (List.length fp)), r3)%Q
  end.

(** [parseFloat(s)]: leading white space is skipped and the longest prefix
    that is a decimal literal is converted; NaN when there is none. *)
Definition parseFloat (s : jsstring) : number :=
  let '(neg, u) := scan_sign (trimStart s) in
  match scan_decimal u with
  | None => NaN
  | Some (q, _) => Fin (if neg then - q else q)%Q
  end.

(** Digits of a radix up to 16. *)
Definition radix_digit (radix : Z) (c : N) : option Z :=
  let v :=
    if is_digit c then Some (digit_val c)
    else if ((97 <=? c) && (c <=? 102))%N then Some (Z.of_N c - 87)
    else if ((65 <=? c) && (c <=? 70))%N then Some (Z.of_N c - 55)
    else None in
  match v with
  | Some d => if d <? radix then Some d else None
  | None => None
  end.

Definition is_radix_digit (radix : Z) (c : N) : bool :=
  match radix_digit radix c with
  | Some _ => true
  | None => false
  end.

Definition radix_val (radix : Z) (ds : list N) : Z :=
  fold_left
    (fun acc c => radix * acc + match radix_digit radix c with
                                | Some d => d
                                | None => 0
                                end) ds 0.

(** [NonDecimalIntegerLiteral]: 0x, 0o or 0b and digits of that radix, up
    to the end of the string. *)
Definition nondecimal_literal (s : jsstring) : option Z :=
  match s with
  | z :: p :: ds =>
      if cu_eqb z 48 then
        let radix :=
          if cu_eqb p 120 || cu_eqb p 88 then Some 16
          else if cu_eqb p 111 || cu_eqb p 79 then Some 8
          else if cu_eqb p 98 || cu_eqb p 66 then Some 2
          else None in
        match radix, ds with
        | Some r, _ :: _ =>
            if forallb (is_radix_digit r) ds then Some (radix_val r ds)
            else None
        | _, _ => None
        end
      else None
  | _ => None
  end.

(** [Number(s)] for a string: white space is trimmed at both ends, the
    empty string is 0, and the whole of what is left must be a numeric
    literal. *)
Definition StringToNumber (s : jsstring) : number :=
  match trim s with
  | [] => Fin 0
  | t =>
      match nondecimal_literal t with
      | Some z => num_of_Z z
      | None =>
          let '(neg, u) := scan_sign t in
          match scan_decimal u with
          | Some (q, []) => Fin (if neg then - q else q)%Q
          | _ => NaN
          end
      end
  end.

(** [parseInt(s)] without a radix: leading white space, a sign, an optional
    0x prefix, then the longest run of digits; NaN when that run is empty. *)
Definition parseInt (s : jsstring) : number :=
  let '(neg, u) := scan_sign (trimStart s) in
  let '(radix, v) :=
    match u with
    | z :: p :: r =>
        if cu_eqb z 48 && (cu_eqb p 120 || cu_eqb p 88) then (16, r)
        else (10, u)
    | _ => (10, u)
    end in
  let '(ds, _) := span (is_radix_digit radix) v in
  match ds with
  | [] => NaN
  | _ => num_of_Z (if neg then - radix_val radix ds else radix_val radix ds)
  end.

End JsNumber.
Export JsNumber.

(** ** Values found in the cells of a parsed sheet *)

Inductive jsval : Type :=
| VUndefined
| VNull
| VBool (b : bool)
| VNum (n : number)
| VStr (s : jsstring)
| VDate (t : option Z).   (* a Date object: its time value, None when invalid *)

(** ** What the host environment decides

    The parts of the JavaScript runtime whose result the language leaves to
    the implementation, or that read the outside world. *)
Class JsRuntime : Type := {
  (** [new Date(s).getTime()] for a string: None stands for NaN. *)
  Date_parse : jsstring -> option Z;
  (** UTC time value of a local time value (time zone of the host). *)
  utc_of_local : Z -> Z;
  (** [d.toString()] of a Date object. *)
  Date_toString : option Z -> jsstring;
  (** [n.toString()] of a number. *)
  Number_toString : number -> jsstring;
  (** [crypto.randomUUID()], by draw. *)
  uuid_of : nat -> jsstring;
  (** [new Date().toISOString()], by draw. *)
  clock_of : nat -> jsstring
}.

(** ** Data model ([src/types/index.ts]) *)

(** An optional string field: absent ([undefined]), [null] (as the remote
    rows have it) or a string. *)
Inductive optstring : Type :=
| Missing
| Null
| Str (s : jsstring).


Record Sale : Type := mkSale {
  sale_id : jsstring;
  sale_date : jsstring;
  clientName : jsstring;
  productName : jsstring;
  quantity : number;
  unitPrice : number;
  totalAmount : number;
  paymentMethod : jsstring;
  notes : optstring;
  seller : optstring;
  register : optstring;
  category : optstring
}.

Record StockItem : Type := mkStockItem {
  item_id : jsstring;
  name : jsstring;
  item_category : jsstring;
  subcategory : jsstring;
  currentStock : number;
  alertThreshold : number;
  initialStock : number;
  item_unitPrice : number
}.

Inductive movementType : Type := In_ | Out.

Record StockMovement : Type := mkStockMovement {
  mv_id : jsstring;
  mv_date : jsstring;
  productId : jsstring;
  mv_type : movementType;
  mv_quantity : number;
  reason : jsstring;
  mv_register : optstring;
  mv_seller : optstring
}.

(** ** Thrown values, and computations that return or throw *)

(** A thrown value, seen through its [message] property. *)
Inductive thrown : Type :=
| Thrown (message : option jsstring).

Definition Error (msg : jsstring) : thrown := Thrown (Some msg).

Inductive outcome (A : Type) : Type :=
| Return (a : A)
| Throw (e : thrown).
Arguments Return {A} a.
Arguments Throw {A} e.

(** ** The remote backend as the source uses it

    [lib/supabase] wraps the Supabase client; what the server answers is not
    part of the repository, so the client is an interface over a remote state
    [R].  A request that fails either throws or reports an error object. *)

Record User : Type := mkUser { user_id : jsstring }.

Record authResponse : Type := mkAuthResponse {
  auth_user : option User;
  auth_error : option thrown
}.

Class Supabase (R : Type) : Type := {
  auth_getUser : R -> outcome authResponse;
  sales_select : R -> outcome (list Sale + thrown);
  sales_insert : User -> list Sale -> R -> R * outcome (option thrown);
  sales_update : Sale -> R -> R * outcome (option thrown);
  sales_delete : jsstring -> R -> R * outcome (option thrown);
  stock_select : R -> outcome (list StockItem + thrown);
  stock_insert : User -> list StockItem -> R -> R * outcome (option thrown);
  stock_update : StockItem -> R -> R * outcome (option thrown);
  stock_delete : jsstring -> R -> R * outcome (option thrown);
  movements_select : R -> outcome (list StockMovement + thrown);
  movements_insert :
    User -> list StockMovement -> R -> R * outcome (option thrown)
}.

(** ** Local storage

    One record field per key.  A data key is absent, holds a text that
    [JSON.parse] rejects, or holds the JSON text of a list of records (a text
    that parses to anything else is not represented).  [ls_full] tells
    whether [setItem] throws for lack of space. *)

Inductive cell (A : Type) : Type :=
| Absent
| Unparseable (text : jsstring)
| Json (v : A).
Arguments Absent {A}.
Arguments Unparseable {A} text.
Arguments Json {A} v.

Record LocalStorage : Type := mkLocalStorage {
  STORAGE_KEY : cell (list Sale);
  STOCK_KEY : cell (list StockItem);
  STOCK_MOVEMENTS_KEY : cell (list StockMovement);
  READ_ONLY_KEY : option jsstring;
  MIGRATION_KEY : option jsstring;
  ls_full : bool
}.

Definition QuotaExceededError : thrown :=
  Error (js "The quota has been exceeded.").

(** The error of [JSON.parse] on a text it rejects. *)
Definition SyntaxError : thrown := Error (js "Unexpected token").

(** ** The state the operations run in *)

Record World (R : Type) : Type := mkWorld {
  local : LocalStorage;
  remote : R;
  draws : nat          (* how many identifiers and clock readings were taken *)
}.
Arguments mkWorld {R} local remote draws.
Arguments local {R} w.
Arguments remote {R} w.
Arguments draws {R} w.

(** A computation: runs in a world, returns or throws, leaves a world. *)
Definition M (R A : Type) : Type := World R -> outcome A * World R.

Definition ret {R A} (a : A) : M R A := fun w => (Return a, w).

Definition throw {R A} (e : thrown) : M R A := fun w => (Throw e, w).

Definition bind {R A B} (m : M R A) (k : A -> M R B) : M R B :=
  fun w =>
    match m w with
    | (Return a, w') => k a w'
    | (Throw e, w') => (Throw e, w')
    end.

(** [try { m } catch (e) { h e }] *)
Definition try_catch {R A} (m : M R A) (h : thrown -> M R A) : M R A :=
  fun w =>
    match m w with
    | (Return a, w') => (Return a, w')
    | (Throw e, w') => h e w'
    end.

Declare Scope js_scope.
Delimit Scope js_scope with js.
Notation "x <- m ;; k" := (bind m (fun x => k))
  (at level 61, m at next level, right associativity) : js_scope.
Notation "m ;; k" := (bind m (fun _ => k))
  (at level 61, right associativity) : js_scope.
Notation "'try' m 'catch' h" := (try_catch m h)
  (at level 60, m at level 61, h at level 9) : js_scope.
Open Scope js_scope.

(** [for (const x of l) { await f x }] *)
Fixpoint for_each {R A} (l : list A) (f : A -> M R unit) : M R unit :=
  match l with
  | [] => ret tt
  | x :: t => f x ;; for_each t f
  end.

(** Access to the world. *)
Definition get_local {R} : M R LocalStorage := fun w => (Return (local w), w).

Definition put_local {R} (l : LocalStorage) : M R unit :=
  fun w => (Return tt, mkWorld l (remote w) (draws w)).

(** A request that only reads the remote state. *)
Definition remote_read {R A} (f : R -> outcome A) : M R A :=
  fun w => (f (remote w), w).

(** A request that may change the remote state. *)
Definition remote_write {R A} (f : R -> R * outcome A) : M R A :=
  fun w => let '(r, o) := f (remote w) in (o, mkWorld (local w) r (draws w)).

(** [localStorage.setItem]: throws when the store is full. *)
Definition setItem {R} (update : LocalStorage -> LocalStorage) : M R unit :=
  l <- get_local ;;
  if ls_full l then throw QuotaExceededError else put_local (update l).

Definition set_STORAGE_KEY (v : cell (list Sale)) (l : LocalStorage) :=
  mkLocalStorage v (STOCK_KEY l) (STOCK_MOVEMENTS_KEY l) (READ_ONLY_KEY l)
    (MIGRATION_KEY l) (ls_full l).

Definition set_STOCK_KEY (v : cell (list StockItem)) (l : LocalStorage) :=
  mkLocalStorage (STORAGE_KEY l) v (STOCK_MOVEMENTS_KEY l) (READ_ONLY_KEY l)
    (MIGRATION_KEY l) (ls_full l).

Definition set_STOCK_MOVEMENTS_KEY (v : cell (list StockMovement))
  (l : LocalStorage) :=
  mkLocalStorage (STORAGE_KEY l) (STOCK_KEY l) v (READ_ONLY_KEY l)
    (MIGRATION_KEY l) (ls_full l).

Definition set_READ_ONLY_KEY (v : option jsstring) (l : LocalStorage) :=
  mkLocalStorage (STORAGE_KEY l) (STOCK_KEY l) (STOCK_MOVEMENTS_KEY l) v
    (MIGRATION_KEY l) (ls_full l).

Definition set_MIGRATION_KEY (v : option jsstring) (l : LocalStorage) :=
  mkLocalStorage (STORAGE_KEY l) (STOCK_KEY l) (STOCK_MOVEMENTS_KEY l)
    (READ_ONLY_KEY l) v (ls_full l).

(** [crypto.randomUUID()] and [new Date().toISOString()] *)
Definition randomUUID {rt : JsRuntime} {R} : M R jsstring :=
  fun w => (Return (uuid_of (draws w)),
            mkWorld (local w) (remote w) (S (draws w))).

Definition now_iso {rt : JsRuntime} {R} : M R jsstring :=
  fun w => (Return (clock_of (draws w)),
            mkWorld (local w) (remote w) (S (draws w))).

(** ** [lib/supabase]: error messages and session helpers *)

Module SupabaseLib.
Section SupabaseLib.
Context {R : Type} {sb : Supabase R}.

Definition handleSupabaseError (error : thrown) : jsstring :=
  match error with
  | Thrown (Some (c :: m)) =>
      let message := c :: m in
      if includes message (js "JWT")
      then js "Session expired. Please log in again."
      else if includes message (js "Row Level Security")
      then js "Access denied. You can only access your own data."
      else if includes message (js "duplicate key")
      then js "This item already exists."
      else if includes message (js "foreign key")
      then js "Cannot delete this item as it is referenced by other data."
      else message
  | _ => js "An unexpected error occurred. Please try again."
  end.

Definition getCurrentUser : M R (option User) :=
  resp <- remote_read auth_getUser ;;
  match auth_error resp with
  | Some _ => ret None
  | None => ret (auth_user resp)
  end.

Definition isAuthenticated : M R bool :=
  user <- getCurrentUser ;;
  ret (match user with Some _ => true | None => false end).

End SupabaseLib.
End SupabaseLib.
Export SupabaseLib.

(** ** [src/utils/supabaseStorage.ts] *)

Module SupabaseStorage.
Section SupabaseStorage.
Context {R : Type} {sb : Supabase R}.

(** [if (error) throw error] *)
Definition throw_if_error (error : option thrown) : M R unit :=
  match error with
  | Some e => throw e
  | None => ret tt
  end.

(** [const { data, error } = ...; if (error) throw error; return data] *)
Definition data_or_throw {A} (res : A + thrown) : M R A :=
  match res with
  | inl data => ret data
  | inr error => throw error
  end.

(** The [catch] block shared by all the functions of the file. *)
Definition rethrow {A} (error : thrown) : M R A :=
  throw (Error (handleSupabaseError error)).

(** [const { data: { user } } = await supabase.auth.getUser();
     if (!user) throw new Error('User not authenticated')] *)
Definition require_user : M R User :=
  resp <- remote_read auth_getUser ;;
  match auth_user resp with
  | Some user => ret user
  | None => throw (Error (js "User not authenticated"))
  end.

Definition getSalesFromSupabase : M R (list Sale) :=
  try (res <- remote_read sales_select ;; data_or_throw res)
  catch rethrow.

Definition addSaleToSupabase (sale : Sale) : M R unit :=
  try (user <- require_user ;;
       error <- remote_write (sales_insert user [sale]) ;;
       throw_if_error error)
  catch rethrow.

Definition updateSaleInSupabase (sale : Sale) : M R unit :=
  try (error <- remote_write (sales_update sale) ;; throw_if_error error)
  catch rethrow.

Definition deleteSaleFromSupabase (id : jsstring) : M R unit :=
  try (error <- remote_write (sales_delete id) ;; throw_if_error error)
  catch rethrow.

Definition getStockFromSupabase : M R (list StockItem) :=
  try (res <- remote_read stock_select ;; data_or_throw res)
  catch rethrow.

Definition addStockItemToSupabase (item : StockItem) : M R unit :=
  try (user <- require_user ;;
       error <- remote_write (stock_insert user [item]) ;;
       throw_if_error error)
  catch rethrow.

Definition updateStockItemInSupabase (item : StockItem) : M R unit :=
  try (error <- remote_write (stock_update item) ;; throw_if_error error)
  catch rethrow.

Definition deleteStockItemFromSupabase (id : jsstring) : M R unit :=
  try (error <- remote_write (stock_delete id) ;; throw_if_error error)
  catch rethrow.

Definition getStockMovementsFromSupabase : M R (list StockMovement) :=
  try (res <- remote_read movements_select ;; data_or_throw res)
  catch rethrow.

Definition addStockMovementToSupabase (movement : StockMovement) : M R unit :=
  try (user <- require_user ;;
       error <- remote_write (movements_insert user [movement]) ;;
       throw_if_error error)
  catch rethrow.

Definition addMultipleSalesToSupabase (sales : list Sale) : M R unit :=
  try (user <- require_user ;;
       error <- remote_write (sales_insert user sales) ;;
       throw_if_error error)
  catch rethrow.

Definition addMultipleStockItemsToSupabase (items : list StockItem)
  : M R unit :=
  try (user <- require_user ;;
       error <- remote_write (stock_insert user items) ;;
       throw_if_error error)
  catch rethrow.

(** [localStorage.getItem(k)] is falsy: the key is absent or holds the empty
    string. *)
Definition no_item {A} (c : cell A) : bool :=
  match c with
  | Absent => true
  | Unparseable [] => true
  | _ => false
  end.

(** [JSON.parse(text)] *)
Definition JSON_parse {A} (c : cell A) : M R A :=
  match c with
  | Json v => ret v
  | _ => throw SyntaxError
  end.

Definition is_empty {A} (l : list A) : bool :=
  match l with
  | [] => true
  | _ :: _ => false
  end.

Definition migrateLocalStorageToSupabase : M R unit :=
  try (l <- get_local ;;
       let salesData := STORAGE_KEY l in
       let stockData := STOCK_KEY l in
       let movementsData := STOCK_MOVEMENTS_KEY l in
       (if no_item salesData then ret tt
        else sales <- JSON_parse salesData ;;
             if is_empty sales then ret tt
             else addMultipleSalesToSupabase sales) ;;
       (if no_item stockData then ret tt
        else stock <- JSON_parse stockData ;;
             if is_empty stock then ret tt
             else addMultipleStockItemsToSupabase stock) ;;
       (if no_item movementsData then ret tt
        else movements <- JSON_parse movementsData ;;
             if is_empty movements then ret tt
             else user <- require_user ;;
                  error <- remote_write (movements_insert user movements) ;;
                  throw_if_error error))
  catch rethrow.

(** The batch import the Import component calls. *)
Definition importSalesToSupabase (sales : list Sale) : M R unit :=
  try (user <- require_user ;;
       error <- remote_write (sales_insert user sales) ;;
       throw_if_error error)
  catch rethrow.

End SupabaseStorage.
End SupabaseStorage.

(** ** Plain objects used as maps

    An object is the list of its own properties in the order they were
    added; the properties it inherits from [Object.prototype] are not
    represented. *)

Module JsObject.

Definition obj (V : Type) : Type := list (jsstring * V).

Fixpoint obj_get {V} (o : obj V) (k : jsstring) : option V :=
  match o with
  | [] => None
  | (k', v) :: t => if str_eqb k' k then Some v else obj_get t k
  end.

(** [o[k] = v]: the property keeps its place when it exists, and is added
    at the end otherwise. *)
Fixpoint obj_set {V} (o : obj V) (k : jsstring) (v : V) : obj V :=
  match o with
  | [] => [(k, v)]
  | (k', v') :: t =>
      if str_eqb k' k then (k', v) :: t else (k', v') :: obj_set t k v
  end.

(** A key that is a canonical array index: decimal digits without a leading
    zero, below 2^32 - 1. *)
Definition array_index (k : jsstring) : option Z :=
  match k with
  | [] => None
  | c :: t =>
      if forallb is_digit k
         && (negb (cu_eqb c 48) || match t with [] => true | _ => false end)
         && (digits_val k <? 4294967295)
      then Some (digits_val k) else None
  end.

Definition is_index_key {V} (e : jsstring * V) : bool :=
  match array_index (fst e) with
  | Some _ => true
  | None => false
  end.

Fixpoint insert_index {V} (i : Z) (e : jsstring * V)
  (l : list (Z * (jsstring * V))) : list (Z * (jsstring * V)) :=
  match l with
  | [] => [(i, e)]
  | (j, e') :: t =>
      if i <? j then (i, e) :: l else (j, e') :: insert_index i e t
  end.

Definition sorted_indices {V} (o : obj V) : list (Z * (jsstring * V)) :=
  fold_right
    (fun e acc =>
       match array_index (fst e) with
       | Some i => insert_index i e acc
       | None => acc
       end) [] o.

(** [Object.entries(o)]: the array-index keys in ascending order, then the
    other keys in the order they were added. *)
Definition Object_entries {V} (o : obj V) : list (jsstring * V) :=
  map snd (sorted_indices o) ++ filter (fun e => negb (is_index_key e)) o.

End JsObject.
Export JsObject.

(** ** [src/utils/storage.ts]: the storage facade *)

Module Storage.
Import SupabaseStorage.
Section Storage.
Context {rt : JsRuntime} {R : Type} {sb : Supabase R}.

Definition read_only_message : jsstring :=
  js "Application en mode lecture seule".

(** [n.toString()] for the length of an array. *)
Definition length_toString (n : nat) : jsstring :=
  js (NilZero.string_of_uint (Nat.to_uint n)).

Definition shouldUseSupabase : M R bool :=
  try isAuthenticated catch (fun _ => ret false).

Definition isReadOnlyMode : M R bool :=
  l <- get_local ;;
  ret (match READ_ONLY_KEY l with
       | Some v => str_eqb v (js "true")
       | None => false
       end).

Definition setReadOnlyMode (enabled : bool) : M R unit :=
  setItem (set_READ_ONLY_KEY
             (Some (if enabled then js "true" else js "false"))).

(** The common opening of the operations:
    [try { if (await shouldUseSupabase()) { <remote>; return } } catch { }]
    gives [Some] of what the remote branch returned, [None] when the
    function goes on to local storage. *)
Definition via_supabase {A} (remote_branch : M R A) : M R (option A) :=
  try (b <- shouldUseSupabase ;;
       if b then (a <- remote_branch ;; ret (Some a)) else ret None)
  catch (fun _ => ret None).

(** The local reading shared by the three getters. *)
Definition read_local {A} (c : cell (list A)) : M R (list A) :=
  if no_item c then ret []
  else try (JSON_parse c) catch (fun _ => ret []).

Definition getSales : M R (list Sale) :=
  r <- via_supabase getSalesFromSupabase ;;
  match r with
  | Some data => ret data
  | None => l <- get_local ;; read_local (STORAGE_KEY l)
  end.

Definition saveSales (sales : list Sale) : M R unit :=
  ro <- isReadOnlyMode ;;
  if ro then throw (Error read_only_message)
  else
    r <- via_supabase (setItem (set_STORAGE_KEY (Json sales))) ;;
    match r with
    | Some _ => ret tt
    | None =>
        try (setItem (set_STORAGE_KEY (Json sales))) catch (fun _ => ret tt)
    end.

Definition getStock : M R (list StockItem) :=
  r <- via_supabase getStockFromSupabase ;;
  match r with
  | Some data => ret data
  | None => l <- get_local ;; read_local (STOCK_KEY l)
  end.

Definition saveStock (stock : list StockItem) : M R unit :=
  ro <- isReadOnlyMode ;;
  if ro then throw (Error read_only_message)
  else
    r <- via_supabase (setItem (set_STOCK_KEY (Json stock))) ;;
    match r with
    | Some _ => ret tt
    | None =>
        try (setItem (set_STOCK_KEY (Json stock))) catch (fun _ => ret tt)
    end.

Definition getStockMovements : M R (list StockMovement) :=
  r <- via_supabase getStockMovementsFromSupabase ;;
  match r with
  | Some data => ret data
  | None => l <- get_local ;; read_local (STOCK_MOVEMENTS_KEY l)
  end.

Definition addStockMovement (movement : StockMovement) : M R unit :=
  ro <- isReadOnlyMode ;;
  if ro then throw (Error read_only_message)
  else
    r <- via_supabase (addStockMovementToSupabase movement) ;;
    match r with
    | Some _ => ret tt
    | None =>
        movements <- getStockMovements ;;
        try (setItem (set_STOCK_MOVEMENTS_KEY (Json (movements ++ [movement]))))
        catch (fun _ => ret tt)
    end.

(** [item.name.toLowerCase() === key] *)
Definition named (key : jsstring) (item : StockItem) : bool :=
  str_eqb (toLowerCase (name item)) key.

(** [stockItem.currentStock -= q] on the object [find] returned, which is
    the first element of the array that satisfies the test. *)
Definition decrement (q : number) (item : StockItem) : StockItem :=
  mkStockItem (item_id item) (name item) (item_category item)
    (subcategory item) (num_sub (currentStock item) q) (alertThreshold item)
    (initialStock item) (item_unitPrice item).

Fixpoint update_first {A} (p : A -> bool) (f : A -> A) (l : list A)
  : list A :=
  match l with
  | [] => []
  | x :: t => if p x then f x :: t else x :: update_first p f t
  end.

Definition updateStockFromSale (sale : Sale) : M R unit :=
  stock <- getStock ;;
  let key := toLowerCase (productName sale) in
  match find (named key) stock with
  | Some stockItem =>
      let stock' := update_first (named key) (decrement (quantity sale)) stock in
      saveStock stock' ;;
      id <- randomUUID ;;
      addStockMovement
        (mkStockMovement id (sale_date sale) (item_id stockItem) Out
           (quantity sale) (js "Vente #" ++ sale_id sale)
           (register sale) (seller sale))
  | None => ret tt
  end.

Definition addSale (sale : Sale) : M R unit :=
  ro <- isReadOnlyMode ;;
  if ro then throw (Error read_only_message)
  else
    r <- via_supabase (addSaleToSupabase sale) ;;
    match r with
    | Some _ => ret tt
    | None =>
        sales <- getSales ;;
        saveSales (sales ++ [sale]) ;;
        updateStockFromSale sale
    end.

Definition updateSale (updatedSale : Sale) : M R unit :=
  ro <- isReadOnlyMode ;;
  if ro then throw (Error read_only_message)
  else
    r <- via_supabase (updateSaleInSupabase updatedSale) ;;
    match r with
    | Some _ => ret tt
    | None =>
        sales <- getSales ;;
        let updatedSales :=
          map (fun sale =>
                 if str_eqb (sale_id sale) (sale_id updatedSale)
                 then updatedSale else sale) sales in
        saveSales updatedSales
    end.

Definition deleteSale (id : jsstring) : M R unit :=
  ro <- isReadOnlyMode ;;
  if ro then throw (Error read_only_message)
  else
    r <- via_supabase (deleteSaleFromSupabase id) ;;
    match r with
    | Some _ => ret tt
    | None =>
        sales <- getSales ;;
        let filteredSales :=
          filter (fun sale => negb (str_eqb (sale_id sale) id)) sales in
        saveSales filteredSales
    end.

Definition addStockItem (item : StockItem) : M R unit :=
  ro <- isReadOnlyMode ;;
  if ro then throw (Error read_only_message)
  else
    r <- via_supabase (addStockItemToSupabase item) ;;
    match r with
    | Some _ => ret tt
    | None => stock <- getStock ;; saveStock (stock ++ [item])
    end.

Definition updateStockItem (updatedItem : StockItem) : M R unit :=
  ro <- isReadOnlyMode ;;
  if ro then throw (Error read_only_message)
  else
    r <- via_supabase (updateStockItemInSupabase updatedItem) ;;
    match r with
    | Some _ => ret tt
    | None =>
        stock <- getStock ;;
        let updatedStock :=
          map (fun item =>
                 if str_eqb (item_id item) (item_id updatedItem)
                 then updatedItem else item) stock in
        saveStock updatedStock
    end.

Definition deleteStockItem (id : jsstring) : M R unit :=
  ro <- isReadOnlyMode ;;
  if ro then throw (Error read_only_message)
  else
    r <- via_supabase (deleteStockItemFromSupabase id) ;;
    match r with
    | Some _ => ret tt
    | None =>
        stock <- getStock ;;
        let filteredStock :=
          filter (fun item => negb (str_eqb (item_id item) id)) stock in
        saveStock filteredStock
    end.

(** *** The stock reconciler of an import *)

(** An entry of [stockUpdates]. *)
Record stockUpdate : Type := mkStockUpdate {
  su_quantity : number;
  su_sales : list Sale
}.

(** The body of [sales.forEach] that groups the sales by product. *)
Definition group_sale (stockUpdates : obj stockUpdate) (sale : Sale)
  : obj stockUpdate :=
  let productKey := toLowerCase (productName sale) in
  let current :=
    match obj_get stockUpdates productKey with
    | Some u => u
    | None => mkStockUpdate (Fin 0) []
    end in
  obj_set stockUpdates productKey
    (mkStockUpdate (num_add (su_quantity current) (quantity sale))
       (su_sales current ++ [sale])).

Definition group_sales (sales : list Sale) : obj stockUpdate :=
  fold_left group_sale sales [].

Definition TypeError : thrown :=
  Error (js "Cannot read properties of undefined").

(** One turn of the loop over [Object.entries(stockUpdates)]: the stock and
    the movements collected so far, and what they become. *)
Definition reconcile_entry (acc : list StockItem * list StockMovement)
  (entry : jsstring * stockUpdate)
  : M R (list StockItem * list StockMovement) :=
  let '(stock, movements) := acc in
  let '(productName, update) := entry in
  let totalQuantity := su_quantity update in
  let productSales := su_sales update in
  match find (named productName) stock with
  | Some stockItem =>
      let stock' :=
        update_first (named productName) (decrement totalQuantity) stock in
      id <- randomUUID ;;
      date <- now_iso ;;
      match productSales with
      | firstSale :: _ =>
          ret (stock',
               movements ++
               [mkStockMovement id date (item_id stockItem) Out totalQuantity
                  (js "Import: " ++ length_toString (List.length productSales)
                     ++ js " vente(s)")
                  (register firstSale) (seller firstSale)])
      | [] => throw TypeError
      end
  | None => ret acc
  end.

Fixpoint reconcile_entries (entries : list (jsstring * stockUpdate))
  (acc : list StockItem * list StockMovement)
  : M R (list StockItem * list StockMovement) :=
  match entries with
  | [] => ret acc
  | entry :: rest =>
      acc' <- reconcile_entry acc entry ;; reconcile_entries rest acc'
  end.

Definition updateStockFromSales (sales : list Sale) : M R unit :=
  if is_empty sales then ret tt
  else
    stock <- getStock ;;
    let stockUpdates := group_sales sales in
    r <- reconcile_entries (Object_entries stockUpdates) (stock, []) ;;
    let '(stock', movements) := r in
    saveStock stock' ;;
    for_each movements addStockMovement.

Definition importSalesToSupabase (sales : list Sale) : M R unit :=
  if is_empty sales then ret tt
  else
    r <- via_supabase (addMultipleSalesToSupabase sales) ;;
    match r with
    | Some _ => ret tt
    | None =>
        existingSales <- getSales ;;
        saveSales (existingSales ++ sales) ;;
        updateStockFromSales sales
    end.

Definition migrateDataToSupabase : M R unit :=
  l <- get_local ;;
  let migrated := MIGRATION_KEY l in
  if match migrated with
     | Some v => str_eqb v (js "true")
     | None => false
     end
  then ret tt
  else
    try (b <- shouldUseSupabase ;;
         if b then
           migrateLocalStorageToSupabase ;;
           setItem (set_MIGRATION_KEY (Some (js "true")))
         else ret tt)
    catch (fun error => throw error).

Definition clearAllData : M R unit :=
  ro <- isReadOnlyMode ;;
  if ro then throw (Error read_only_message)
  else
    l <- get_local ;;
    put_local (mkLocalStorage Absent Absent Absent (READ_ONLY_KEY l) None
                 (ls_full l)).

End Storage.
End Storage.


(** ** JavaScript dates

    A Date object is its time value: milliseconds since the epoch, or NaN
    ([None]) for an invalid date. *)

Module JsDate.

Definition msPerDay : Z := 86400000.

Definition max_time : Z := 8640000000000000.

(** [TimeClip] *)
Definition TimeClip (t : Z) : option Z :=
  if Z.abs t <=? max_time then Some t else None.

(** Truncation of a finite number towards zero ([ToIntegerOrInfinity]). *)
Definition trunc (q : Q) : Z := Z.quot (Qnum q) (Z.pos (Qden q)).

(** [new Date(n)] for a number. *)
Definition Date_of_number (n : number) : option Z :=
  match n with
  | NaN => None
  | Fin q =>
      if Qle_bool (Qabs q) (inject_Z max_time) then Some (trunc q) else None
  end.

(** Day number of the civil date [y]-[m]-[d], month from 1 to 12. *)
Definition days_from_civil (y m d : Z) : Z :=
  let y' := if m <=? 2 then y - 1 else y in
  let era := y' / 400 in
  let yoe := y' - era * 400 in
  let doy := (153 * (if 2 <? m then m - 3 else m + 9) + 2) / 5 + d - 1 in
  let doe := yoe * 365 + yoe / 4 - yoe / 100 + doy in
  era * 146097 + doe - 719468.

(** Civil date (year, month from 1, day) of a day number. *)
Definition civil_from_days (z : Z) : Z * Z * Z :=
  let z := z + 719468 in
  let era := z / 146097 in
  let doe := z - era * 146097 in
  let yoe := (doe - doe / 1460 + doe / 36524 - doe / 146096) / 365 in
  let y := yoe + era * 400 in
  let doy := doe - (365 * yoe + yoe / 4 - yoe / 100) in
  let mp := (5 * doy + 2) / 153 in
  let d := doy - (153 * mp + 2) / 5 + 1 in
  let m := if mp <? 10 then mp + 3 else mp - 9 in
  (if m <=? 2 then y + 1 else y, m, d).

(** [MakeDay(year, month, date)], month from 0 and free to overflow. *)
Definition MakeDay (year month date : Z) : Z :=
  let ym := year + month / 12 in
  let mn := month mod 12 in
  days_from_civil ym (mn + 1) 1 + date - 1.

(** [new Date(year, month, day)]: a local time, with a year from 0 to 99
    counted from 1900. *)
Definition Date_of_fields {rt : JsRuntime} (year month day : number)
  : option Z :=
  match year, month, day with
  | Fin y, Fin m, Fin d =>
      let yi := trunc y in
      let yr := if (0 <=? yi) && (yi <=? 99) then 1900 + yi else yi in
      TimeClip (utc_of_local (MakeDay yr (trunc m) (trunc d) * msPerDay))
  | _, _, _ => None
  end.

Definition Z_to_js (z : Z) : jsstring :=
  js (NilZero.string_of_int (Z.to_int z)).

(** Decimal digits of a natural number, padded with zeros to [width]. *)
Definition pad (width : nat) (z : Z) : jsstring :=
  let s := Z_to_js z in
  repeat 48%N (width - List.length s) ++ s.

Definition iso_year (y : Z) : jsstring :=
  if (0 <=? y) && (y <=? 9999) then pad 4 y
  else (if y <? 0 then js "-" else js "+") ++ pad 6 (Z.abs y).

(** [d.toISOString()]: [None] stands for the RangeError thrown on an
    invalid date. *)
Definition toISOString (t : option Z) : option jsstring :=
  match t with
  | None => None
  | Some tv =>
      let day := tv / msPerDay in
      let ms := tv mod msPerDay in
      let '(y, m, d) := civil_from_days day in
      Some (iso_year y ++ js "-" ++ pad 2 m ++ js "-" ++ pad 2 d ++ js "T"
            ++ pad 2 (ms / 3600000) ++ js ":"
            ++ pad 2 ((ms / 60000) mod 60) ++ js ":"
            ++ pad 2 ((ms / 1000) mod 60) ++ js "."
            ++ pad 3 (ms mod 1000) ++ js "Z")
  end.

(** [isNaN(d.getTime())] *)
Definition invalid_date (t : option Z) : bool :=
  match t with
  | None => true
  | Some _ => false
  end.

End JsDate.
Export JsDate.

(** ** The Import component: parsing and matching of a spreadsheet *)

Module ImportComponent.
Import Storage.

(** [!!v] *)
Definition truthy (v : jsval) : bool :=
  match v with
  | VUndefined | VNull => false
  | VBool b => b
  | VNum NaN => false
  | VNum (Fin q) => negb (Qeq_bool q 0)
  | VStr [] => false
  | VStr (_ :: _) => true
  | VDate _ => true
  end.

(** [v.toString()]; every call site has tested before that [v] is neither
    [undefined] nor [null]. *)
Definition toString {rt : JsRuntime} (v : jsval) : jsstring :=
  match v with
  | VUndefined => js "undefined"
  | VNull => js "null"
  | VBool true => js "true"
  | VBool false => js "false"
  | VNum n => Number_toString n
  | VStr s => s
  | VDate t => Date_toString t
  end.

Definition en_dash : N := 8211%N.
Definition euro_sign : N := 8364%N.
Definition comma : N := 44%N.

(** The string clean-up of [parseAmount], before [parseFloat]. *)
Definition clean_amount (s : jsstring) : jsstring :=
  let stringValue := trim s in
  let stringValue := replace_class (cu_eqb en_dash) (js "-") stringValue in
  let stringValue :=
    replace_class is_space []
      (replace_class (cu_eqb euro_sign) [] stringValue) in
  replace_first comma (js ".") stringValue.

Definition parseAmount {rt : JsRuntime} (value : jsval) : number :=
  match value with
  | VNum n => n
  | _ =>
      if negb (truthy value) then Fin 0
      else
        let parsed := parseFloat (clean_amount (toString value)) in
        if isNaN parsed then Fin 0 else parsed
  end.

(** *** Header normaliser *)

(** The internal field names, keys of [fieldMappings]. *)
Inductive field : Type :=
| f_register | f_product | f_type | f_quantity | f_amount | f_seller | f_date.

Definition field_eqb (a b : field) : bool :=
  match a, b with
  | f_register, f_register | f_product, f_product | f_type, f_type
  | f_quantity, f_quantity | f_amount, f_amount | f_seller, f_seller
  | f_date, f_date => true
  | _, _ => false
  end.

Definition fieldMappings : list (field * list jsstring) :=
  [ (f_register, map js ["caisse"; "register"; "cash_register"; "till"; "pos"]);
    (f_product, map js ["produit"; "product"; "item"; "article"; "nom"; "name"]);
    (f_type, map js ["types"; "type"; "category"; "categorie"; "catégorie"]);
    (f_quantity, map js ["quantité"; "quantite"; "quantity"; "qty"; "qte"; "nb"]);
    (f_amount, map js ["montant"; "amount"; "total"; "prix"; "price"; "value";
                       "valeur"]);
    (f_seller, map js ["vendeur"; "seller"; "salesperson"; "employee";
                       "employe"; "employé"; "staff"; "user"; "utilisateur"]);
    (f_date, map js ["date"; "datetime"; "timestamp"; "time"]) ]%string.

Definition in_range (lo hi c : N) : bool := ((lo <=? c) && (c <=? hi))%N.

(** The accent classes of the [replace] chain, each folded to its letter. *)
Definition fold_accents (s : jsstring) : jsstring :=
  let s := replace_class (in_range 224 229) (js "a") s in
  let s := replace_class (in_range 232 235) (js "e") s in
  let s := replace_class (in_range 236 239) (js "i") s in
  let s := replace_class (in_range 242 246) (js "o") s in
  let s := replace_class (in_range 249 252) (js "u") s in
  let s := replace_class (cu_eqb 231) (js "c") s in
  replace_class (cu_eqb 241) (js "n") s.

(** The class of underscores, white space and hyphens. *)
Definition is_noise (c : N) : bool :=
  cu_eqb c 95 || is_space c || cu_eqb c 45.

(** The chain [toLowerCase().replace(...)...] applied to a header and to
    each variation. *)
Definition lower_clean (s : jsstring) : jsstring :=
  replace_class is_noise [] (fold_accents (toLowerCase s)).

(** The mapping under construction: internal field to original header. *)
Definition headerMap : Type := list (field * jsstring).

Fixpoint hm_get (m : headerMap) (f : field) : option jsstring :=
  match m with
  | [] => None
  | (g, h) :: t => if field_eqb g f then Some h else hm_get t f
  end.

Fixpoint hm_set (m : headerMap) (f : field) (h : jsstring) : headerMap :=
  match m with
  | [] => [(f, h)]
  | (g, h') :: t =>
      if field_eqb g f then (g, h) :: t else (g, h') :: hm_set t f h
  end.

(** [!!normalized[f]]: the field is mapped, to a non-empty header. *)
Definition mapped_field (m : headerMap) (f : field) : bool :=
  match hm_get m f with
  | Some (_ :: _) => true
  | _ => false
  end.

(** The test of [variations.some]. *)
Definition matches_variation (lowerHeader variation : jsstring) : bool :=
  let normalizedVariation := lower_clean variation in
  str_eqb lowerHeader normalizedVariation
  || includes lowerHeader normalizedVariation
  || includes normalizedVariation lowerHeader.

Definition found_in (lowerHeader : jsstring) (variations : list jsstring)
  : bool :=
  existsb (matches_variation lowerHeader) variations.

(** The loop over [Object.entries(fieldMappings)], left at the first field
    that matches and is still free. *)
Fixpoint assign_header (mappings : list (field * list jsstring))
  (lowerHeader header : jsstring) (normalized : headerMap) : headerMap :=
  match mappings with
  | [] => normalized
  | (internalField, variations) :: rest =>
      if found_in lowerHeader variations
         && negb (mapped_field normalized internalField)
      then hm_set normalized internalField header
      else assign_header rest lowerHeader header normalized
  end.

Definition skipped_header (header : jsstring) : bool :=
  startsWith header (js "Unnamed:") || startsWith header (js "__EMPTY").

(** The body of [headers.forEach]. *)
Definition normalize_header (normalized : headerMap) (header : jsstring)
  : headerMap :=
  if skipped_header header then normalized
  else
    let cleanHeader := trim header in
    let lowerHeader := lower_clean cleanHeader in
    assign_header fieldMappings lowerHeader header normalized.

Definition normalizeHeaders (headers : list jsstring) : headerMap :=
  fold_left normalize_header headers [].

(** *** Row validator *)

(** A row of the sheet, header to cell, and the row read through the header
    mapping, internal field to cell. *)
Definition row : Type := obj jsval.

Definition mappedRow : Type := list (field * jsval).

(** [mapped.f], [undefined] when the property is not there. *)
Fixpoint mr_get (m : mappedRow) (f : field) : jsval :=
  match m with
  | [] => VUndefined
  | (g, v) :: t => if field_eqb g f then v else mr_get t f
  end.

Fixpoint mr_set (m : mappedRow) (f : field) (v : jsval) : mappedRow :=
  match m with
  | [] => [(f, v)]
  | (g, v') :: t =>
      if field_eqb g f then (g, v) :: t else (g, v') :: mr_set t f v
  end.

(** [value === null || value === undefined || value === ''] *)
Definition is_blank (v : jsval) : bool :=
  match v with
  | VNull | VUndefined | VStr [] => true
  | _ => false
  end.

Definition detectAndMapColumns (r : row) (headerMapping : headerMap)
  : mappedRow :=
  fold_left
    (fun mapped '(internalName, originalHeader) =>
       match obj_get r originalHeader with
       | Some value =>
           if is_blank value then mapped else mr_set mapped internalName value
       | None => mapped
       end)
    headerMapping [].

(** [Number(v)] *)
Definition Number (v : jsval) : number :=
  match v with
  | VUndefined => NaN
  | VNull => Fin 0
  | VBool b => if b then Fin 1 else Fin 0
  | VNum n => n
  | VStr s => StringToNumber s
  | VDate (Some t) => num_of_Z t
  | VDate None => NaN
  end.

Record rowError : Type := mkRowError {
  row_number : nat;
  errors : list jsstring
}.

(** The checks made on every row before anything is converted. *)
Definition row_errors {rt : JsRuntime} (mapped : mappedRow) : list jsstring :=
  (if negb (truthy (mr_get mapped f_date)) then [js "Date manquante"]
   else [])
  ++ (if negb (truthy (mr_get mapped f_product)) then [js "Produit manquant"]
      else [])
  ++ (if negb (truthy (mr_get mapped f_quantity))
      then [js "Quantité manquante"] else [])
  ++ (if negb (truthy (mr_get mapped f_amount)) then [js "Montant manquant"]
      else [])
  ++ (if truthy (mr_get mapped f_quantity)
         && isNaN (Number (mr_get mapped f_quantity))
      then [js "Quantité invalide"] else [])
  ++ (if truthy (mr_get mapped f_amount) then
        let parsedAmount := parseAmount (mr_get mapped f_amount) in
        let text := trim (toString (mr_get mapped f_amount)) in
        if num_eqb parsedAmount (Fin 0)
           && negb (str_eqb text (js "0"))
           && negb (str_eqb text (js "0,00"))
           && negb (str_eqb text (js "0,00 €"))
        then [js "Montant invalide"] else []
      else []).

(** [d.toISOString().split('T')[0]]; [None] when [toISOString] throws. *)
Definition iso_day (t : option Z) : option jsstring :=
  match toISOString t with
  | Some s => Some (hd [] (split 84 s))
  | None => None
  end.

(** The Date built from a date written as a string. *)
Definition parse_date_string {rt : JsRuntime} (dateStr : jsstring)
  : option Z :=
  if includes dateStr (js "/") then
    match split 47 dateStr with
    | [p0; p1; p2] =>
        let day := parseInt p0 in
        let month := num_sub (parseInt p1) (Fin 1) in
        let year := parseInt p2 in
        Date_of_fields year month day
    | _ => Date_parse dateStr
    end
  else if includes dateStr (js "-") then
    match split 45 dateStr with
    | [p0; p1; p2] =>
        if Nat.eqb (List.length p0) 4 then Date_parse dateStr
        else
          let day := parseInt p0 in
          let month := num_sub (parseInt p1) (Fin 1) in
          let year := parseInt p2 in
          Date_of_fields year month day
    | _ => Date_parse dateStr
    end
  else Date_parse dateStr.

(** What the date conversion comes to: a formatted date, the explicit
    ['Date invalide'] exit, or an exception caught by the [catch] block. *)
Inductive dateResult : Type :=
| DateOk (formattedDate : jsstring)
| DateInvalid
| DateThrows.

Definition excel_epoch_offset : number := Fin 25569.

Definition format_date {rt : JsRuntime} (dateValue : jsval) : dateResult :=
  match dateValue with
  | VNum n =>
      let excelDate :=
        Date_of_number
          (num_mul (num_mul (num_sub n excel_epoch_offset) (Fin 86400))
             (Fin 1000)) in
      match iso_day excelDate with
      | Some formattedDate => DateOk formattedDate
      | None => DateThrows
      end
  | VDate t =>
      match iso_day t with
      | Some formattedDate => DateOk formattedDate
      | None => DateThrows
      end
  | _ =>
      let dateStr := toString dateValue in
      let parsedDate := parse_date_string dateStr in
      if invalid_date parsedDate then DateInvalid
      else match iso_day parsedDate with
           | Some formattedDate => DateOk formattedDate
           | None => DateThrows
           end
  end.

Definition non_specifie : jsstring := js "Non spécifié".

(** [v?.toString() || 'Non spécifié'] *)
Definition text_or_default {rt : JsRuntime} (v : jsval) : jsstring :=
  match v with
  | VUndefined | VNull => non_specifie
  | _ => match toString v with
         | [] => non_specifie
         | s => s
         end
  end.

(** The sales and the errors collected so far, and how many identifiers
    were drawn. *)
Record validation : Type := mkValidation {
  sales : list Sale;
  row_errs : list rowError;
  drawn : nat
}.

(** The body of [data.forEach((row, index) => ...)]. *)
Definition validate_row {rt : JsRuntime} (headerMapping : headerMap)
  (acc : validation) (index : nat) (r : row) : validation :=
  let mapped := detectAndMapColumns r headerMapping in
  let rowErrors := row_errors mapped in
  match rowErrors with
  | _ :: _ =>
      mkValidation (sales acc)
        (row_errs acc ++ [mkRowError (index + 2) rowErrors]) (drawn acc)
  | [] =>
      match format_date (mr_get mapped f_date) with
      | DateInvalid =>
          mkValidation (sales acc)
            (row_errs acc
               ++ [mkRowError (index + 2) (rowErrors ++ [js "Date invalide"])])
            (drawn acc)
      | DateThrows =>
          mkValidation (sales acc)
            (row_errs acc
               ++ [mkRowError (index + 2)
                     (rowErrors ++ [js "Erreur de traitement des données"])])
            (drawn acc)
      | DateOk formattedDate =>
          let totalAmount := parseAmount (mr_get mapped f_amount) in
          let quantity := Number (mr_get mapped f_quantity) in
          let unitPrice :=
            if num_ltb (Fin 0) quantity then num_div totalAmount quantity
            else Fin 0 in
          let sale :=
            mkSale (uuid_of (drawn acc)) formattedDate (js "Client Import")
              (toString (mr_get mapped f_product)) quantity unitPrice
              totalAmount (js "Non spécifié") (Str [])
              (Str (text_or_default (mr_get mapped f_seller)))
              (Str (text_or_default (mr_get mapped f_register)))
              (Str (text_or_default (mr_get mapped f_type))) in
          mkValidation (sales acc ++ [sale]) (row_errs acc) (S (drawn acc))
      end
  end.

Fixpoint validate_rows {rt : JsRuntime} (headerMapping : headerMap)
  (data : list row) (index : nat) (acc : validation) : validation :=
  match data with
  | [] => acc
  | r :: rest =>
      validate_rows headerMapping rest (S index)
        (validate_row headerMapping acc index r)
  end.

Definition requiredFields : list field :=
  [f_product; f_quantity; f_amount; f_date].

Definition frenchFieldNames (f : field) : jsstring :=
  match f with
  | f_product => js "Produit"
  | f_quantity => js "Quantité"
  | f_amount => js "Montant"
  | f_date => js "Date"
  | f_register => js "register"
  | f_type => js "type"
  | f_seller => js "seller"
  end.

(** [l.join(sep)] *)
Fixpoint join (sep : jsstring) (l : list jsstring) : jsstring :=
  match l with
  | [] => []
  | [x] => x
  | x :: t => x ++ sep ++ join sep t
  end.

(** [Object.keys(o)] *)
Definition Object_keys {V} (o : obj V) : list jsstring :=
  map fst (Object_entries o).

(** [validateSalesData(data)]; [draws] is the number of identifiers drawn
    before the call. *)
Definition validateSalesData {rt : JsRuntime} (draws : nat) (data : list row)
  : validation :=
  match data with
  | [] => mkValidation [] [] draws
  | first :: _ =>
      let headers := Object_keys first in
      let headerMapping := normalizeHeaders headers in
      let missingFields :=
        filter (fun f => negb (mapped_field headerMapping f))
          requiredFields in
      match missingFields with
      | _ :: _ =>
          let missingFrenchFields := map frenchFieldNames missingFields in
          mkValidation []
            [mkRowError 1
               [js "Colonnes manquantes dans le fichier: "
                  ++ join (js ", ") missingFrenchFields]]
            draws
      | [] =>
          validate_rows headerMapping data 0 (mkValidation [] [] draws)
      end
  end.

(** *** Duplicate detector *)





End ImportComponent.


(** ** A host and a backend to run the definitions on

    [utc_host] is a runtime in the UTC time zone whose [Date.parse] reads the
    form YYYY-MM-DD only; [MemoryDb] is a backend that keeps its rows in
    memory and returns them in the order of insertion, with the trigger of
    the migration file on the insertion of sales. *)

Module Reference.

Definition two_digits (a b : N) : option Z :=
  if is_digit a && is_digit b then Some (digits_val [a; b]) else None.

Definition days_in_month (y m : Z) : Z :=
  days_from_civil (if m =? 12 then y + 1 else y) (if m =? 12 then 1 else m + 1) 1
  - days_from_civil y m 1.

Definition iso_date_parse (s : jsstring) : option Z :=
  match s with
  | [y1; y2; y3; y4; h1; m1; m2; h2; d1; d2] =>
      if forallb is_digit [y1; y2; y3; y4] && cu_eqb h1 45 && cu_eqb h2 45
      then
        match two_digits m1 m2, two_digits d1 d2 with
        | Some m, Some d =>
            let y := digits_val [y1; y2; y3; y4] in
            if (1 <=? m) && (m <=? 12) && (1 <=? d)
               && (d <=? days_in_month y m)
            then Some (days_from_civil y m d * msPerDay)
            else None
        | _, _ => None
        end
      else None
  | _ => None
  end.

(** Digits of the fraction [num/den], [fuel] digits at most. *)
Fixpoint fraction_digits (fuel : nat) (num den : Z) : jsstring :=
  match fuel with
  | O => []
  | S fuel' =>
      if num =? 0 then []
      else Z.to_N (48 + (10 * num) / den)
             :: fraction_digits fuel' ((10 * num) mod den) den
  end.

Definition print_number (n : number) : jsstring :=
  match n with
  | NaN => js "NaN"
  | Fin q =>
      let den := Z.pos (Qden q) in
      let a := Z.abs (Qnum q) in
      let frac := fraction_digits 20 (a mod den) den in
      (if Qnum q <? 0 then js "-" else [])
      ++ Z_to_js (a / den)
      ++ match frac with
         | [] => []
         | _ => js "." ++ frac
         end
  end.

Definition utc_host : JsRuntime := {|
  Date_parse := iso_date_parse;
  utc_of_local := fun t => t;
  Date_toString := fun t =>
    match toISOString t with
    | Some s => s
    | None => js "Invalid Date"
    end;
  Number_toString := print_number;
  uuid_of := fun n => js "00000000-0000-4000-8000-" ++ pad 12 (Z.of_nat n);
  clock_of := fun n => js "2025-06-07T03:21:32.000Z"
|}.

Record MemoryDb : Type := mkMemoryDb {
  session : option User;
  online : bool;
  db_sales : list Sale;
  db_stock : list StockItem;
  db_movements : list StockMovement
}.

Definition network_error : thrown := Error (js "Failed to fetch").

(** The trigger [update_stock_on_sale], run for each inserted sale. *)
Definition update_stock_on_sale (db : MemoryDb) (new : Sale) : MemoryDb :=
  let hit (i : StockItem) := str_eqb (name i) (productName new) in
  mkMemoryDb (session db) (online db) (db_sales db ++ [new])
    (map (fun i =>
            if hit i
            then mkStockItem (item_id i) (name i) (item_category i)
                   (subcategory i) (num_sub (currentStock i) (quantity new))
                   (alertThreshold i) (initialStock i) (item_unitPrice i)
            else i) (db_stock db))
    (db_movements db
     ++ map (fun i =>
               mkStockMovement (js "trigger-" ++ sale_id new) (sale_date new)
                 (item_id i) Out (quantity new) (js "Sale #" ++ sale_id new)
                 (register new) (seller new))
          (filter hit (db_stock db))).

Definition write (db : MemoryDb) (f : MemoryDb -> MemoryDb)
  : MemoryDb * outcome (option thrown) :=
  if online db then (f db, Return None) else (db, Throw network_error).

Definition read {A} (db : MemoryDb) (rows : list A)
  : outcome (list A + thrown) :=
  if online db then Return (inl rows) else Throw network_error.

Definition memory_backend : Supabase MemoryDb := {|
  auth_getUser := fun db =>
    if online db then Return (mkAuthResponse (session db) None)
    else Throw network_error;
  sales_select := fun db => read db (db_sales db);
  sales_insert := fun _ rows db =>
    write db (fun db => fold_left update_stock_on_sale rows db);
  sales_update := fun s db =>
    write db (fun db =>
      mkMemoryDb (session db) (online db)
        (map (fun x => if str_eqb (sale_id x) (sale_id s) then s else x)
           (db_sales db))
        (db_stock db) (db_movements db));
  sales_delete := fun id db =>
    write db (fun db =>
      mkMemoryDb (session db) (online db)
        (filter (fun x => negb (str_eqb (sale_id x) id)) (db_sales db))
        (db_stock db) (db_movements db));
  stock_select := fun db => read db (db_stock db);
  stock_insert := fun _ rows db =>
    write db (fun db =>
      mkMemoryDb (session db) (online db) (db_sales db)
        (db_stock db ++ rows) (db_movements db));
  stock_update := fun i db =>
    write db (fun db =>
      mkMemoryDb (session db) (online db) (db_sales db)
        (map (fun x => if str_eqb (item_id x) (item_id i) then i else x)
           (db_stock db))
        (db_movements db));
  stock_delete := fun id db =>
    write db (fun db =>
      mkMemoryDb (session db) (online db) (db_sales db)
        (filter (fun x => negb (str_eqb (item_id x) id)) (db_stock db))
        (db_movements db));
  movements_select := fun db => read db (db_movements db);
  movements_insert := fun _ rows db =>
    write db (fun db =>
      mkMemoryDb (session db) (online db) (db_sales db) (db_stock db)
        (db_movements db ++ rows))
|}.

(** A backend that is never reached: nobody is signed in. *)
Definition signed_out : MemoryDb := mkMemoryDb None true [] [] [].

Definition empty_storage : LocalStorage :=
  mkLocalStorage Absent Absent Absent None None false.

End Reference.

(** ** Vocabulary of the statements *)

Module Spec.
Import ImportComponent.

(** The string [<int>,<d1><d2><sep>€], with a leading long dash when
    [neg]. *)
Definition euro_amount (neg : bool) (int : list N) (d1 d2 sep : N)
  : jsstring :=
  (if neg then [en_dash] else []) ++ int ++ [comma; d1; d2; sep; euro_sign].

(** The decimal number that string writes. *)
Definition euro_value (neg : bool) (int : list N) (d1 d2 : N) : Q :=
  let v := (inject_Z (digits_val int)
            + inject_Z (digits_val [d1; d2]) * (1 # 100))%Q in
  if neg then (- v)%Q else v.

(** The variations listed for a field in [fieldMappings]. *)
Definition variations_of (f : field) : list jsstring :=
  match find (fun e => field_eqb (fst e) f) fieldMappings with
  | Some (_, variations) => variations
  | None => []
  end.

(** [header] is a known variation of [f] up to case, accents and the noise
    of white space, underscores and hyphens. *)
Definition is_variant_of (f : field) (header : jsstring) : Prop :=
  exists v, In v (variations_of f)
            /\ lower_clean (trim header) = lower_clean v.

(** [header] matches [f]: its cleaned form equals a cleaned variation,
    contains one, or is contained in one. *)
Definition matches_field (f : field) (header : jsstring) : Prop :=
  exists v, In v (variations_of f)
            /\ (lower_clean (trim header) = lower_clean v
                \/ includes (lower_clean (trim header)) (lower_clean v) = true
                \/ includes (lower_clean v) (lower_clean (trim header)) = true).

(** The fields a cleaned header matches, in the order of declaration. *)
Definition matching (mappings : list (field * list jsstring))
  (lowerHeader : jsstring) : list field :=
  map fst (filter (fun e => found_in lowerHeader (snd e)) mappings).

(** The table of variations, checked once and for all: the cleaned form of
    every variation of a required field is not empty, matches that field
    before any other, and starts like none of the skipped headers. *)
Definition variation_ok (f : field) (v : jsstring) : bool :=
  let nv := lower_clean v in
  match matching fieldMappings nv with
  | g :: _ => field_eqb g f
  | [] => false
  end
  && negb (str_eqb nv [])
  && negb (startsWith nv (js "unnamed:"))
  && negb (startsWith nv (js "empty")).

(** Every entry of the mapping is one of the headers read so far, was not
    skipped, and matches its field. *)
Definition entries_from (seen : list jsstring) (m : headerMap) : Prop :=
  forall f h, hm_get m f = Some h ->
              In h seen /\ skipped_header h = false /\ matches_field f h.





(** The list a data key stands for when it is read. *)
Definition stored {A} (c : cell (list A)) : list A :=
  match c with
  | Json v => v
  | _ => []
  end.

(** Whether the session helper finds a signed-in user. *)
Definition authenticated {R} {sb : Supabase R} (r : R) : bool :=
  match auth_getUser r with
  | Return resp =>
      match auth_error resp, auth_user resp with
      | None, Some _ => true
      | _, _ => false
      end
  | Throw _ => false
  end.

(** The read-only flag is set. *)
Definition read_only (l : LocalStorage) : bool :=
  match READ_ONLY_KEY l with
  | Some v => str_eqb v (js "true")
  | None => false
  end.

(** The migration flag is set. *)
Definition migrated (l : LocalStorage) : bool :=
  match MIGRATION_KEY l with
  | Some v => str_eqb v (js "true")
  | None => false
  end.

(** Requests that only read leave the world as it is. *)
Definition pure {R A} (m : M R A) : Prop :=
  forall w, exists o, m w = (o, w).

(** The world after a save: the key is written unless the store is full. *)
Definition after_save {R} (update : LocalStorage -> LocalStorage) (w : World R)
  : World R :=
  mkWorld (if ls_full (local w) then local w else update (local w))
    (remote w) (draws w).









(** No session, no read-only flag, room in the store. *)
Definition local_path {R} {sb : Supabase R} (w : World R) : Prop :=
  authenticated (remote w) = false
  /\ read_only (local w) = false
  /\ ls_full (local w) = false.




(** A non-empty run of decimal digits. *)
Definition digit_string (ds : jsstring) : Prop :=
  ds <> [] /\ Forall (fun c => is_digit c = true) ds.


(** The header mapping has a header for every required field. *)
Definition covers (headerMapping : headerMap) : Prop :=
  forall f, In f requiredFields -> mapped_field headerMapping f = true.

(** The message that reports a required field as missing. *)
Definition missing_message (f : field) : jsstring :=
  match f with
  | f_date => js "Date manquante"
  | f_product => js "Produit manquant"
  | f_quantity => js "Quantité manquante"
  | f_amount => js "Montant manquant"
  | _ => []
  end.

(** The amount cell is there and is neither an amount nor a written zero. *)
Definition invalid_amount {rt : JsRuntime} (v : jsval) : bool :=
  let text := trim (toString v) in
  truthy v
  && num_eqb (parseAmount v) (Fin 0)
  && negb (str_eqb text (js "0"))
  && negb (str_eqb text (js "0,00"))
  && negb (str_eqb text (js "0,00 €")).

(** The quantity cell is there and is not a number. *)
Definition invalid_quantity (v : jsval) : bool :=
  truthy v && isNaN (Number v).

(** What a row comes to: a record or an error entry. *)
Definition outcome_of_row : Type := (Sale + rowError)%type.

Definition records (l : list outcome_of_row) : list Sale :=
  flat_map (fun o => match o with inl s => [s] | inr _ => [] end) l.

Definition error_entries (l : list outcome_of_row) : list rowError :=
  flat_map (fun o => match o with inl _ => [] | inr e => [e] end) l.

(** The outcome [o] is the one of row [r] at data index [index]: a record
    when the row passes the checks and its date converts; otherwise an entry
    at [index + 2] with the messages of the checks, or, when the checks
    pass, with the message of the date that could not be converted. *)
Definition row_result {rt : JsRuntime} (headerMapping : headerMap)
  (index : nat) (r : row) (o : outcome_of_row) : Prop :=
  let mapped := detectAndMapColumns r headerMapping in
  match o with
  | inl sale =>
      row_errors mapped = []
      /\ format_date (mr_get mapped f_date) = DateOk (sale_date sale)
      /\ productName sale = toString (mr_get mapped f_product)
      /\ quantity sale = Number (mr_get mapped f_quantity)
      /\ totalAmount sale = parseAmount (mr_get mapped f_amount)
  | inr e =>
      row_number e = (index + 2)%nat
      /\ errors e <> []
      /\ ((row_errors mapped <> [] /\ errors e = row_errors mapped)
          \/ (row_errors mapped = []
              /\ format_date (mr_get mapped f_date) = DateInvalid
              /\ errors e = [js "Date invalide"])
          \/ (row_errors mapped = []
              /\ format_date (mr_get mapped f_date) = DateThrows
              /\ errors e = [js "Erreur de traitement des données"]))
  end.

(** The result of adding an outcome to the sales and errors collected. *)
Definition add_outcome (acc : validation) (o : outcome_of_row) : validation :=
  match o with
  | inl sale =>
      mkValidation (sales acc ++ [sale]) (row_errs acc) (S (drawn acc))
  | inr e => mkValidation (sales acc) (row_errs acc ++ [e]) (drawn acc)
  end.

(** The word by which the messages name a required field. *)
Definition field_word (f : field) : jsstring :=
  match f with
  | f_date => js "Date"
  | f_product => js "Produit"
  | f_quantity => js "Quantité"
  | f_amount => js "Montant"
  | _ => []
  end.

(** A required field of a row is missing or invalid. *)
Definition unusable {rt : JsRuntime} (mapped : mappedRow) (f : field)
  : Prop :=
  truthy (mr_get mapped f) = false
  \/ match f with
     | f_quantity => invalid_quantity (mr_get mapped f) = true
     | f_amount => invalid_amount (mr_get mapped f) = true
     | f_date => format_date (mr_get mapped f) = DateInvalid
                 \/ format_date (mr_get mapped f) = DateThrows
     | _ => False
     end.

(** The error entries name every required field of the row that is missing
    or invalid. *)
Definition names_every_unusable_field {rt : JsRuntime} (v : validation)
  (mapped : mappedRow) : Prop :=
  forall f, In f requiredFields -> unusable mapped f ->
            exists e s, In e (row_errs v) /\ In s (errors e)
                        /\ includes s (field_word f) = true.

End Spec.

(** ** [src/utils/storage.ts]: first start *)

Module StorageInit.
Import Storage.
Section StorageInit.
Context {rt : JsRuntime} {R : Type} {sb : Supabase R}.

Definition generateSampleStock : list StockItem :=
  [ mkStockItem (js "1") (js "Fanta Orange") (js "Boissons") (js "Sodas")
      (Fin 48) (Fin 5) (Fin 100) (Fin 1.5);
    mkStockItem (js "2") (js "Coca-Cola") (js "Boissons") (js "Sodas")
      (Fin 77) (Fin 5) (Fin 150) (Fin 1.5);
    mkStockItem (js "3") (js "Sandwich Jambon") (js "Alimentation")
      (js "Sandwichs") (Fin 35) (Fin 5) (Fin 80) (Fin 3.5);
    mkStockItem (js "4") (js "Eau Minérale") (js "Boissons") (js "Eaux")
      (Fin 113) (Fin 5) (Fin 200) (Fin 1) ].

Definition initializeStorage : M R unit :=
  try (sales <- getSales ;;
       (if SupabaseStorage.is_empty sales then saveSales [] else ret tt) ;;
       stock <- getStock ;;
       if SupabaseStorage.is_empty stock then saveStock generateSampleStock
       else ret tt)
  catch (fun _ => ret tt).

End StorageInit.
End StorageInit.

(** ** Vocabulary for the effects of an operation *)

Module Effects.
Section Effects.
Context {R : Type}.

(** [m] leaves the part [proj] of local storage as it is, however it
    ends. *)
Definition keeps {A X} (proj : LocalStorage -> X) (m : M R A) : Prop :=
  forall w, proj (local (snd (m w))) = proj (local w).

(** With the read-only flag off, [m] returns, and the flag is still off. *)
Definition returns_when_writable {A} (m : M R A) : Prop :=
  forall w, Spec.read_only (local w) = false ->
            exists a w', m w = (Return a, w')
                         /\ Spec.read_only (local w') = false.


(** The three data keys of local storage. *)
Definition data_keys (l : LocalStorage)
  : cell (list Sale) * cell (list StockItem) * cell (list StockMovement) :=
  (STORAGE_KEY l, STOCK_KEY l, STOCK_MOVEMENTS_KEY l).

End Effects.

(** [m] leaves local storage as it is, and what it throws is an [Error]
    whose message is not empty and is one [handleSupabaseError] returns
    unchanged. *)
Definition reports_by_message {R A} (m : M R A) : Prop :=
  forall w,
    local (snd (m w)) = local w
    /\ forall e, fst (m w) = Throw e ->
                 exists message,
                   e = Error message /\ message <> []
                   /\ handleSupabaseError e = message.

(** A stock item without its current stock. *)
Definition item_card (i : StockItem)
  : jsstring * jsstring * jsstring * jsstring * number * number * number :=
  (item_id i, name i, item_category i, subcategory i, alertThreshold i,
   initialStock i, item_unitPrice i).


End Effects.

(** ** Vocabulary for the texts of a sheet *)

Module Words.
Import ImportComponent.

(** The three replacements of [parseAmount] that work on one code unit at
    a time: long dash, euro sign, white space. *)
Definition strip_amount (s : jsstring) : jsstring :=
  replace_class is_space []
    (replace_class (cu_eqb euro_sign) []
       (replace_class (cu_eqb en_dash) (js "-") s)).

(** Digits in groups separated by white space, a digit first. *)
Definition grouped_digits (s : jsstring) : Prop :=
  (exists c rest, s = c :: rest /\ is_digit c = true)
  /\ Forall (fun c => is_digit c = true \/ is_space c = true) s.

(** The code units [is_noise] accepts. *)
Definition noise_units : list N :=
  [95; 45; 9; 10; 11; 12; 13; 32; 160; 5760; 8232; 8233; 8239; 8287; 12288;
   65279; 8192; 8193; 8194; 8195; 8196; 8197; 8198; 8199; 8200; 8201;
   8202]%N.

(** A header made of white space, underscores and hyphens only. *)
Definition blank_header (header : jsstring) : Prop :=
  Forall (fun c => is_noise c = true) header.

(** What the header mapping makes a row give for a field: the cell under
    the header of the field, unless there is none or it is blank. *)
Definition cell_of (r : row) (headerMapping : headerMap) (f : field)
  : jsval :=
  match hm_get headerMapping f with
  | Some header =>
      match obj_get r header with
      | Some value => if is_blank value then VUndefined else value
      | None => VUndefined
      end
  | None => VUndefined
  end.

(** A text field that is filled. *)
Definition filled (o : optstring) : Prop :=
  exists text, o = Str text /\ text <> [].

(** A record as the import builds them: numbers for the quantity and the
    amount, the unit price their quotient or 0, the constant client and
    payment method, and no optional text left empty. *)
Definition imported_record (s : Sale) : Prop :=
  isNaN (quantity s) = false
  /\ isNaN (totalAmount s) = false
  /\ unitPrice s
     = (if num_ltb (Fin 0) (quantity s)
        then num_div (totalAmount s) (quantity s) else Fin 0)
  /\ clientName s = js "Client Import"
  /\ paymentMethod s = js "Non spécifié"
  /\ notes s = Str []
  /\ filled (seller s) /\ filled (register s) /\ filled (category s).

(** What holds of the records and the errors collected up to row [index]. *)
Definition collected {rt : JsRuntime} (draws index : nat) (v : validation)
  : Prop :=
  (List.length (sales v) + List.length (row_errs v) = index)%nat
  /\ drawn v = (draws + List.length (sales v))%nat
  /\ map sale_id (sales v) = map uuid_of (seq draws (List.length (sales v)))
  /\ Forall imported_record (sales v)
  /\ Forall (fun e => 2 <= row_number e < index + 2 /\ errors e <> [])%nat
       (row_errs v).

End Words.

(** ** The Import component: the validator and the duplicate detector of a
    stock sheet *)

Module ImportStock.
Import Storage ImportComponent.

(** [a || b] *)
Definition js_or (a b : jsval) : jsval := if truthy a then a else b.

(** [n || d] on numbers *)
Definition num_or (n d : number) : number := if truthy (VNum n) then n else d.

(** [row.key] *)
Definition row_prop (r : row) (key : string) : jsval :=
  match obj_get r (js key) with
  | Some value => value
  | None => VUndefined
  end.

(** The checks made on every row of a stock sheet. *)
Definition stock_row_errors (mapped : mappedRow) : list jsstring :=
  (if negb (truthy (mr_get mapped f_product)) then [js "Produit manquant"]
   else [])
  ++ (if negb (truthy (mr_get mapped f_type))
      then [js "Type/Catégorie manquant"] else [])
  ++ (if negb (truthy (mr_get mapped f_quantity))
         || isNaN (Number (mr_get mapped f_quantity))
      then [js "Quantité invalide"] else []).

(** The items and the errors collected so far, and how many identifiers
    were drawn. *)
Record stockValidation : Type := mkStockValidation {
  stock : list StockItem;
  stock_errs : list rowError;
  stock_drawn : nat
}.

(** The body of [data.forEach((row, index) => ...)]. *)
Definition validate_stock_row {rt : JsRuntime} (headerMapping : headerMap)
  (acc : stockValidation) (index : nat) (r : row) : stockValidation :=
  let mapped := detectAndMapColumns r headerMapping in
  let rowErrors := stock_row_errors mapped in
  match rowErrors with
  | _ :: _ =>
      mkStockValidation (stock acc)
        (stock_errs acc ++ [mkRowError (index + 2) rowErrors])
        (stock_drawn acc)
  | [] =>
      let currentStock := Number (mr_get mapped f_quantity) in
      let alertThreshold :=
        num_or
          (Number
             (js_or (js_or (row_prop r "SeuilAlerte")
                       (row_prop r "seuilAlerte"))
                (row_prop r "AlertThreshold")))
          (Fin 5) in
      let unitPrice :=
        num_or
          (parseAmount
             (js_or (js_or (row_prop r "PrixUnitaire")
                       (row_prop r "prixUnitaire"))
                (row_prop r "UnitPrice")))
          (Fin 0) in
      let subcategory :=
        js_or
          (js_or (js_or (row_prop r "SousType") (row_prop r "sousType"))
             (row_prop r "Subcategory"))
          (VStr []) in
      let item :=
        mkStockItem (uuid_of (stock_drawn acc))
          (toString (mr_get mapped f_product))
          (toString (mr_get mapped f_type))
          (toString subcategory)
          currentStock alertThreshold currentStock unitPrice in
      mkStockValidation (stock acc ++ [item]) (stock_errs acc)
        (S (stock_drawn acc))
  end.

Fixpoint validate_stock_rows {rt : JsRuntime} (headerMapping : headerMap)
  (data : list row) (index : nat) (acc : stockValidation) : stockValidation :=
  match data with
  | [] => acc
  | r :: rest =>
      validate_stock_rows headerMapping rest (S index)
        (validate_stock_row headerMapping acc index r)
  end.

(** [validateStockData(data)]; [draws] is the number of identifiers drawn
    before the call. *)
Definition validateStockData {rt : JsRuntime} (draws : nat) (data : list row)
  : stockValidation :=
  match data with
  | [] => mkStockValidation [] [] draws
  | first :: _ =>
      let headers := Object_keys first in
      let headerMapping := normalizeHeaders headers in
      validate_stock_rows headerMapping data 0
        (mkStockValidation [] [] draws)
  end.

Record StockDuplicateInfo : Type := mkStockDuplicateInfo {
  stock_item : StockItem;
  stock_isDuplicate : bool;
  stock_shouldKeep : bool
}.

(** The test of [existingStock.some]. *)
Definition same_item (existingItem newItem : StockItem) : bool :=
  str_eqb (name existingItem) (name newItem)
  && str_eqb (item_category existingItem) (item_category newItem).

Definition flag_stock_duplicate (existingStock : list StockItem)
  (newItem : StockItem) : StockDuplicateInfo :=
  let isDuplicate := existsb (fun e => same_item e newItem) existingStock in
  mkStockDuplicateInfo newItem isDuplicate (negb isDuplicate).

Definition findStockDuplicates {rt : JsRuntime} {R} {sb : Supabase R}
  (newStock : list StockItem) : M R (list StockDuplicateInfo) :=
  existingStock <- getStock ;;
  ret (map (flag_stock_duplicate existingStock) newStock).

(** An item as the import builds them: the initial stock is the current
    stock, a number; the alert threshold is neither 0 nor NaN; the unit
    price is a number. *)
Definition imported_item (i : StockItem) : Prop :=
  initialStock i = currentStock i
  /\ isNaN (currentStock i) = false
  /\ truthy (VNum (alertThreshold i)) = true
  /\ isNaN (item_unitPrice i) = false.

(** What holds of the items and the errors collected up to row [index]. *)
Definition collected_stock {rt : JsRuntime} (draws index : nat)
  (v : stockValidation) : Prop :=
  (List.length (stock v) + List.length (stock_errs v) = index)%nat
  /\ stock_drawn v = (draws + List.length (stock v))%nat
  /\ map item_id (stock v) = map uuid_of (seq draws (List.length (stock v)))
  /\ Forall imported_item (stock v).

End ImportStock.

(* ================================================================== *)
(** * Part II. Properties                                              *)
(* ================================================================== *)

Import ImportComponent Spec.

(** ** Strings *)

Lemma cu_eqb_eq (a b : N) : cu_eqb a b = true <-> a = b.
Proof. unfold cu_eqb. apply N.eqb_eq. Qed.

Lemma cu_eqb_refl (a : N) : cu_eqb a a = true.
Proof. apply cu_eqb_eq. reflexivity. Qed.

Lemma str_eqb_eq (a b : jsstring) : str_eqb a b = true <-> a = b.
Proof.
  revert b. induction a as [|x a IH]; intros [|y b]; simpl;
    try (split; [discriminate | discriminate]); try tauto.
  rewrite andb_true_iff, cu_eqb_eq, IH.
  split; [intros [-> ->]; reflexivity | intros H; inversion H; auto].
Qed.

Lemma str_eqb_refl (a : jsstring) : str_eqb a a = true.
Proof. apply str_eqb_eq. reflexivity. Qed.

Lemma replace_class_app p to (a b : jsstring) :
  replace_class p to (a ++ b) = replace_class p to a ++ replace_class p to b.
Proof. unfold replace_class. apply flat_map_app. Qed.

Lemma replace_class_id p to (s : jsstring) :
  Forall (fun c => p c = false) s -> replace_class p to s = s.
Proof.
  induction 1 as [|c s Hc _ IH]; simpl; [reflexivity|].
  rewrite Hc. simpl. f_equal. exact IH.
Qed.

Lemma trimEnd_last (s : jsstring) (c : N) :
  is_space c = false -> trimEnd (s ++ [c]) = s ++ [c].
Proof.
  intros Hc. induction s as [|d s IH]; simpl.
  - rewrite Hc. reflexivity.
  - rewrite IH. destruct (s ++ [c]) eqn:E; [|reflexivity].
    destruct s; discriminate.
Qed.

Lemma span_all p (s : jsstring) :
  Forall (fun c => p c = true) s -> span p s = (s, []).
Proof.
  induction 1 as [|c s Hc _ IH]; simpl; [reflexivity|].
  rewrite Hc, IH. reflexivity.
Qed.

Lemma span_stop p (s r : jsstring) (c : N) :
  Forall (fun c => p c = true) s -> p c = false ->
  span p (s ++ c :: r) = (s, c :: r).
Proof.
  intros Hs Hc. induction Hs as [|d s Hd _ IH]; simpl.
  - rewrite Hc. reflexivity.
  - rewrite Hd, IH. reflexivity.
Qed.

Lemma replace_first_skip c to (s r : jsstring) :
  Forall (fun d => cu_eqb d c = false) s ->
  replace_first c to (s ++ c :: r) = s ++ to ++ r.
Proof.
  induction 1 as [|d s Hd _ IH]; simpl.
  - rewrite cu_eqb_refl. reflexivity.
  - rewrite Hd, IH. reflexivity.
Qed.

(** A decimal digit is one of the ten code units 48..57. *)
Lemma is_digit_cases (c : N) :
  is_digit c = true ->
  In c [48; 49; 50; 51; 52; 53; 54; 55; 56; 57]%N.
Proof.
  unfold is_digit. rewrite andb_true_iff, !N.leb_le. intros [H1 H2].
  simpl.
  assert (c = 48 \/ c = 49 \/ c = 50 \/ c = 51 \/ c = 52 \/ c = 53 \/
          c = 54 \/ c = 55 \/ c = 56 \/ c = 57)%N as H by lia.
  intuition auto.
Qed.

(** Whatever holds of the ten digits holds of every digit. *)
Lemma digit_property (P : N -> bool) :
  forallb P [48; 49; 50; 51; 52; 53; 54; 55; 56; 57]%N = true ->
  forall c, is_digit c = true -> P c = true.
Proof.
  intros H c Hc. rewrite forallb_forall in H. apply H.
  apply is_digit_cases, Hc.
Qed.

Lemma digits_property (P : N -> bool) (ds : list N) :
  forallb P [48; 49; 50; 51; 52; 53; 54; 55; 56; 57]%N = true ->
  Forall (fun c => is_digit c = true) ds ->
  Forall (fun c => P c = true) ds.
Proof.
  intros H Hds. eapply Forall_impl; [|exact Hds].
  intros c Hc. apply (digit_property P H c Hc).
Qed.

Lemma digits_val_app (a b : list N) :
  digits_val (a ++ b) =
  fold_left (fun acc c => 10 * acc + digit_val c) b (digits_val a).
Proof. unfold digits_val. apply fold_left_app. Qed.

(** ** C3: the amount parser *)

Section ParseAmount.
Context {rt : JsRuntime}.

(** The part of the string after the sign, and what the clean-up makes of
    it. *)
Lemma clean_steps_body int d1 d2 sep :
  int <> [] ->
  Forall (fun c => is_digit c = true) int ->
  is_digit d1 = true -> is_digit d2 = true -> is_space sep = true ->
  let body := int ++ [comma; d1; d2; sep; euro_sign] in
  trimStart body = body /\ trimEnd body = body /\
  replace_class is_space []
    (replace_class (cu_eqb euro_sign) []
       (replace_class (cu_eqb en_dash) (js "-") body))
  = int ++ [comma; d1; d2] /\
  replace_first comma (js ".") (int ++ [comma; d1; d2]) = int ++ [46%N; d1; d2]
  /\ Forall (fun d => cu_eqb d comma = false) int.
Proof.
  intros Hne Hint H1 H2 Hsep body.
  assert (forall P : N -> bool,
             forallb (fun c => negb (P c))
               [48; 49; 50; 51; 52; 53; 54; 55; 56; 57]%N = true ->
             forall d, is_digit d = true -> P d = false) as Hd.
  { intros P HP d Hdg. apply negb_true_iff.
    apply (digit_property (fun c => negb (P c)) HP d Hdg). }
  assert (forall P : N -> bool,
             forallb (fun c => negb (P c))
               [48; 49; 50; 51; 52; 53; 54; 55; 56; 57]%N = true ->
             Forall (fun c => P c = false) int) as Hds.
  { intros P HP. eapply Forall_impl; [|exact Hint].
    intros c Hc. apply (Hd P HP c Hc). }
  pose proof (Hd is_space eq_refl) as Dsp.
  pose proof (Hd (cu_eqb en_dash) eq_refl) as Ddash.
  pose proof (Hd (cu_eqb euro_sign) eq_refl) as Deuro.
  assert (cu_eqb en_dash sep = false /\ cu_eqb euro_sign sep = false)
    as [Sd Se].
  { split.
    - destruct (cu_eqb en_dash sep) eqn:E; [|reflexivity].
      apply cu_eqb_eq in E. subst sep. discriminate Hsep.
    - destruct (cu_eqb euro_sign sep) eqn:E; [|reflexivity].
      apply cu_eqb_eq in E. subst sep. discriminate Hsep. }
  assert (Forall (fun d => cu_eqb d comma = false) int) as Hnc.
  { apply (Hds (fun d => cu_eqb d comma)). reflexivity. }
  repeat split.
  - subst body. destruct int as [|c int']; [contradiction|].
    simpl. inversion Hint; subst. rewrite (Dsp c); auto.
  - subst body.
    replace (int ++ [comma; d1; d2; sep; euro_sign])
      with ((int ++ [comma; d1; d2; sep]) ++ [euro_sign])
      by (rewrite <- app_assoc; reflexivity).
    apply trimEnd_last. reflexivity.
  - subst body. rewrite !replace_class_app.
    rewrite (replace_class_id (cu_eqb en_dash) _ int
               (Hds (cu_eqb en_dash) eq_refl)).
    rewrite (replace_class_id (cu_eqb euro_sign) _ int
               (Hds (cu_eqb euro_sign) eq_refl)).
    rewrite (replace_class_id is_space _ int (Hds is_space eq_refl)).
    f_equal. unfold replace_class. cbn [flat_map app].
    change (cu_eqb en_dash comma) with false.
    change (cu_eqb en_dash euro_sign) with false.
    rewrite (Ddash d1 H1), (Ddash d2 H2), Sd. cbn [flat_map app].
    change (cu_eqb euro_sign comma) with false.
    change (cu_eqb euro_sign euro_sign) with true.
    rewrite (Deuro d1 H1), (Deuro d2 H2), Se. cbn [flat_map app].
    change (is_space comma) with false.
    rewrite (Dsp d1 H1), (Dsp d2 H2), Hsep. reflexivity.
  - apply (replace_first_skip comma (js ".") int [d1; d2] Hnc).
  - exact Hnc.
Qed.

Lemma clean_amount_euro neg int d1 d2 sep :
  int <> [] ->
  Forall (fun c => is_digit c = true) int ->
  is_digit d1 = true -> is_digit d2 = true -> is_space sep = true ->
  clean_amount (euro_amount neg int d1 d2 sep) =
  (if neg then [45%N] else []) ++ int ++ [46%N; d1; d2].
Proof.
  intros Hne Hint H1 H2 Hsep.
  destruct (clean_steps_body int d1 d2 sep Hne Hint H1 H2 Hsep)
    as (Ts & Te & Hrep & Hfirst & Hnc).
  unfold clean_amount, euro_amount, trim. destruct neg.
  - change ([en_dash] ++ int ++ [comma; d1; d2; sep; euro_sign])
      with (en_dash :: (int ++ [comma; d1; d2; sep; euro_sign])).
    cbn [trimStart]. change (is_space en_dash) with false. cbv iota.
    cbn [trimEnd]. rewrite Te.
    destruct (int ++ [comma; d1; d2; sep; euro_sign]) as [|c0 body0] eqn:Eb.
    { destruct int; discriminate Eb. }
    rewrite <- Eb in *. clear Eb c0 body0.
    change (replace_class (cu_eqb en_dash) (js "-")
              (en_dash :: (int ++ [comma; d1; d2; sep; euro_sign])))
      with (45%N :: replace_class (cu_eqb en_dash) (js "-")
                      (int ++ [comma; d1; d2; sep; euro_sign])).
    change (replace_class (cu_eqb euro_sign) [] (45%N :: ?x))
      with (45%N :: replace_class (cu_eqb euro_sign) [] x).
    cbn [replace_class flat_map app].
    change (cu_eqb euro_sign 45) with false. cbv iota.
    change (is_space 45) with false. cbv iota.
    cbn [app]. fold (replace_class (cu_eqb en_dash) (js "-")
                       (int ++ [comma; d1; d2; sep; euro_sign])).
    fold (replace_class (cu_eqb euro_sign) []
            (replace_class (cu_eqb en_dash) (js "-")
               (int ++ [comma; d1; d2; sep; euro_sign]))).
    fold (replace_class is_space []
            (replace_class (cu_eqb euro_sign) []
               (replace_class (cu_eqb en_dash) (js "-")
                  (int ++ [comma; d1; d2; sep; euro_sign])))).
    rewrite Hrep. cbn [replace_first]. change (cu_eqb 45 comma) with false.
    cbv iota. rewrite Hfirst. reflexivity.
  - cbn [app]. rewrite Ts, Te, Hrep, Hfirst. reflexivity.
Qed.


Lemma trimStart_not_space (c : N) (s : jsstring) :
  is_space c = false -> trimStart (c :: s) = c :: s.
Proof. intros H. simpl. rewrite H. reflexivity. Qed.

Lemma scan_sign_digit (c : N) (s : jsstring) :
  is_digit c = true -> scan_sign (c :: s) = (false, c :: s).
Proof.
  intros H. unfold scan_sign.
  rewrite (proj1 (negb_true_iff _)
             (digit_property (fun d => negb (cu_eqb d 45)) eq_refl c H)).
  rewrite (proj1 (negb_true_iff _)
             (digit_property (fun d => negb (cu_eqb d 43)) eq_refl c H)).
  reflexivity.
Qed.

Lemma scan_decimal_fixed (int : list N) (d1 d2 : N) :
  int <> [] ->
  Forall (fun c => is_digit c = true) int ->
  is_digit d1 = true -> is_digit d2 = true ->
  scan_decimal (int ++ [46%N; d1; d2]) =
  Some ((inject_Z (digits_val (int ++ [d1; d2])) * (1 # 100))%Q, []).
Proof.
  intros Hne Hint H1 H2. unfold scan_decimal.
  rewrite (span_stop is_digit int [d1; d2] 46%N Hint eq_refl).
  change (cu_eqb 46 46) with true. cbv iota.
  rewrite (span_all is_digit [d1; d2]) by (repeat constructor; assumption).
  destruct (int ++ [d1; d2]) as [|x l] eqn:E.
  { destruct int; discriminate E. }
  reflexivity.
Qed.

Lemma parseFloat_fixed (neg : bool) (int : list N) (d1 d2 : N) :
  int <> [] ->
  Forall (fun c => is_digit c = true) int ->
  is_digit d1 = true -> is_digit d2 = true ->
  parseFloat ((if neg then [45%N] else []) ++ int ++ [46%N; d1; d2]) =
  Fin (let v := (inject_Z (digits_val (int ++ [d1; d2])) * (1 # 100))%Q in
       if neg then (- v)%Q else v).
Proof.
  intros Hne Hint H1 H2. unfold parseFloat. destruct neg.
  - change ([45%N] ++ int ++ [46%N; d1; d2])
      with (45%N :: (int ++ [46%N; d1; d2])).
    rewrite trimStart_not_space by reflexivity.
    change (scan_sign (45%N :: (int ++ [46%N; d1; d2])))
      with (true, int ++ [46%N; d1; d2]).
    cbv iota beta. rewrite scan_decimal_fixed by assumption. reflexivity.
  - cbn [app]. destruct int as [|c int'] eqn:E; [contradiction|].
    rewrite <- app_comm_cons.
    assert (is_digit c = true) as Hc by (inversion Hint; assumption).
    rewrite trimStart_not_space
      by (apply negb_true_iff;
          apply (digit_property (fun d => negb (is_space d)) eq_refl c Hc)).
    rewrite scan_sign_digit by exact Hc.
    cbv iota beta. rewrite app_comm_cons.
    rewrite scan_decimal_fixed by assumption. reflexivity.
Qed.

Lemma euro_value_correct (neg : bool) (int : list N) (d1 d2 : N) :
  ((let v := inject_Z (digits_val (int ++ [d1; d2])) * (1 # 100) in
    if neg then - v else v) == euro_value neg int d1 d2)%Q.
Proof.
  unfold euro_value. rewrite digits_val_app. cbn [fold_left].
  unfold digits_val at 2. cbn [fold_left].
  set (a := digits_val int). set (x := digit_val d1). set (y := digit_val d2).
  cbv zeta.
  assert (inject_Z (10 * (10 * a + x) + y) * (1 # 100)
          == inject_Z a + inject_Z (10 * (10 * 0 + x) + y) * (1 # 100))%Q as H.
  { unfold Qeq, Qplus, Qmult, inject_Z. cbn [Qnum Qden Pos.mul]. lia. }
  destruct neg; [rewrite H|]; [reflexivity | exact H].
Qed.

(** C3. [parseAmount] on a string [<int>,<2 digits> €], with or without a
    leading long dash, returns the signed decimal number the string writes;
    the string goes through the clean-up steps in the order long dash, euro
    sign and white space, first comma, then [parseFloat]; and a string that
    [parseFloat] cannot read gives 0. *)
Theorem parseAmount_european_format :
  (forall (neg : bool) (int : list N) (d1 d2 sep : N),
      int <> [] ->
      Forall (fun c => is_digit c = true) int ->
      is_digit d1 = true -> is_digit d2 = true -> is_space sep = true ->
      num_equiv (parseAmount (VStr (euro_amount neg int d1 d2 sep)))
                (Fin (euro_value neg int d1 d2)))
  /\ (forall s : jsstring,
         s <> [] ->
         parseAmount (VStr s) =
         let parsed :=
           parseFloat
             (replace_first comma (js ".")
                (replace_class is_space []
                   (replace_class (cu_eqb euro_sign) []
                      (replace_class (cu_eqb en_dash) (js "-") (trim s))))) in
         if isNaN parsed then Fin 0 else parsed)
  /\ (forall s : jsstring,
         parseFloat (clean_amount s) = NaN -> parseAmount (VStr s) = Fin 0)
  /\ num_equiv (parseAmount (VStr (js "154,00 €"))) (Fin 154)
  /\ num_equiv (parseAmount (VStr (js "–45,20 €"))) (Fin (-452 # 10)).
Proof.
  split; [|split; [|split; [|split]]].
  - intros neg int d1 d2 sep Hne Hint H1 H2 Hsep.
    unfold parseAmount.
    assert (truthy (VStr (euro_amount neg int d1 d2 sep)) = true) as ->.
    { unfold euro_amount. destruct neg; [reflexivity|].
      destruct int; [contradiction | reflexivity]. }
    cbn [negb toString]. cbv iota.
    rewrite clean_amount_euro by assumption.
    rewrite parseFloat_fixed by assumption.
    cbn [isNaN]. cbv iota. cbn [num_equiv].
    apply euro_value_correct.
  - intros [|c s] Hs; [contradiction | reflexivity].
  - intros s Hnan. unfold parseAmount.
    destruct (negb (truthy (VStr s))); [reflexivity|].
    cbn [toString]. rewrite Hnan. reflexivity.
  - vm_compute. reflexivity.
  - vm_compute. reflexivity.
Qed.

End ParseAmount.

(** The two amounts of the specification, through the general statement,
    on the reference host. *)
Lemma parseAmount_european_format_witness :
  num_equiv (@parseAmount Reference.utc_host
               (VStr (euro_amount false (js "154") 48 48 32)))
            (Fin (euro_value false (js "154") 48 48))
  /\ num_equiv (@parseAmount Reference.utc_host
                  (VStr (euro_amount true (js "45") 50 48 160)))
               (Fin (euro_value true (js "45") 50 48)).
Proof.
  split.
  - apply (proj1 (@parseAmount_european_format Reference.utc_host)
             false (js "154") 48%N 48%N 32%N);
      [discriminate | repeat constructor | reflexivity | reflexivity
      | reflexivity].
  - apply (proj1 (@parseAmount_european_format Reference.utc_host)
             true (js "45") 50%N 48%N 160%N);
      [discriminate | repeat constructor | reflexivity | reflexivity
      | reflexivity].
Defined.

(** ** C4: the header normaliser *)

Lemma field_eqb_eq (a b : field) : field_eqb a b = true <-> a = b.
Proof. destruct a, b; simpl; split; congruence. Qed.

Lemma field_eqb_refl (a : field) : field_eqb a a = true.
Proof. apply field_eqb_eq. reflexivity. Qed.

Lemma field_eqb_neq (a b : field) : a <> b -> field_eqb a b = false.
Proof.
  intros H. destruct (field_eqb a b) eqn:E; [|reflexivity].
  apply field_eqb_eq in E. contradiction.
Qed.

Lemma hm_get_set_same (m : headerMap) (f : field) (h : jsstring) :
  hm_get (hm_set m f h) f = Some h.
Proof.
  induction m as [|[g h'] m IH]; simpl.
  - rewrite field_eqb_refl. reflexivity.
  - destruct (field_eqb g f) eqn:E; simpl; rewrite E; auto.
Qed.

Lemma hm_get_set_other (m : headerMap) (f g : field) (h : jsstring) :
  f <> g -> hm_get (hm_set m f h) g = hm_get m g.
Proof.
  intros Hne. induction m as [|[k h'] m IH]; simpl.
  - rewrite field_eqb_neq by exact Hne. reflexivity.
  - destruct (field_eqb k f) eqn:E; simpl.
    + apply field_eqb_eq in E. subst k.
      rewrite field_eqb_neq by exact Hne. reflexivity.
    + destruct (field_eqb k g); auto.
Qed.

Lemma mapped_field_true (m : headerMap) (f : field) :
  mapped_field m f = true <-> exists h, hm_get m f = Some h /\ h <> [].
Proof.
  unfold mapped_field. destruct (hm_get m f) as [[|c h]|]; split; intros H;
    try discriminate.
  - destruct H as (h' & H1 & H2). inversion H1. subst. contradiction.
  - exists (c :: h). split; [reflexivity | discriminate].
  - reflexivity.
  - destruct H as (h' & H1 & _). discriminate.
Qed.

(** What one turn of the loop over the fields can do: nothing, or give the
    header to a field that matches it and was free. *)
Lemma assign_header_cases mappings lowerHeader header (m : headerMap) :
  assign_header mappings lowerHeader header m = m
  \/ exists g vs, In (g, vs) mappings
                  /\ found_in lowerHeader vs = true
                  /\ mapped_field m g = false
                  /\ assign_header mappings lowerHeader header m
                     = hm_set m g header.
Proof.
  induction mappings as [|[g vs] rest IH]; simpl; [left; reflexivity|].
  destruct (found_in lowerHeader vs) eqn:Ef;
    destruct (mapped_field m g) eqn:Em; simpl.
  - destruct IH as [IH | (g' & vs' & Hin & H1 & H2 & H3)]; [left; exact IH|].
    right. exists g', vs'. auto.
  - right. exists g, vs. auto.
  - destruct IH as [IH | (g' & vs' & Hin & H1 & H2 & H3)]; [left; exact IH|].
    right. exists g', vs'. auto.
  - destruct IH as [IH | (g' & vs' & Hin & H1 & H2 & H3)]; [left; exact IH|].
    right. exists g', vs'. auto.
Qed.

Lemma normalize_header_cases (m : headerMap) (header : jsstring) :
  normalize_header m header = m
  \/ exists g vs, In (g, vs) fieldMappings
                  /\ skipped_header header = false
                  /\ found_in (lower_clean (trim header)) vs = true
                  /\ mapped_field m g = false
                  /\ normalize_header m header = hm_set m g header.
Proof.
  unfold normalize_header. destruct (skipped_header header) eqn:Es.
  - left. reflexivity.
  - destruct (assign_header_cases fieldMappings (lower_clean (trim header))
                header m) as [H | (g & vs & Hin & H1 & H2 & H3)].
    + left. exact H.
    + right. exists g, vs. auto.
Qed.

(** A field that is mapped keeps its header. *)
Lemma normalize_header_keeps (m : headerMap) (header : jsstring) (f : field) :
  mapped_field m f = true ->
  hm_get (normalize_header m header) f = hm_get m f.
Proof.
  intros Hm.
  destruct (normalize_header_cases m header)
    as [-> | (g & vs & _ & _ & _ & Hfree & ->)]; [reflexivity|].
  apply hm_get_set_other. intros ->. congruence.
Qed.

Lemma fold_normalize_keeps (more : list jsstring) (m : headerMap) (f : field) :
  mapped_field m f = true ->
  hm_get (fold_left normalize_header more m) f = hm_get m f.
Proof.
  revert m. induction more as [|h more IH]; intros m Hm; simpl;
    [reflexivity|].
  rewrite IH.
  - apply normalize_header_keeps. exact Hm.
  - unfold mapped_field in *. rewrite normalize_header_keeps by exact Hm.
    exact Hm.
Qed.

Lemma assign_header_first mappings lowerHeader header (m : headerMap) :
  assign_header mappings lowerHeader header m =
  match find (fun f => negb (mapped_field m f)) (matching mappings lowerHeader)
  with
  | Some f => hm_set m f header
  | None => m
  end.
Proof.
  unfold matching.
  induction mappings as [|[g vs] rest IH]; simpl; [reflexivity|].
  destruct (found_in lowerHeader vs) eqn:Ef; simpl.
  - destruct (mapped_field m g); simpl; [exact IH | reflexivity].
  - exact IH.
Qed.

Lemma variations_ok :
  forallb (fun f => forallb (variation_ok f) (variations_of f)) requiredFields
  = true.
Proof. vm_compute. reflexivity. Qed.

Lemma variation_ok_of (f : field) (v : jsstring) :
  In f requiredFields -> In v (variations_of f) -> variation_ok f v = true.
Proof.
  intros Hf Hv. pose proof variations_ok as H.
  rewrite forallb_forall in H. specialize (H f Hf).
  rewrite forallb_forall in H. apply H, Hv.
Qed.

Lemma startsWith_split (s p : jsstring) :
  startsWith s p = true -> exists rest, s = p ++ rest.
Proof.
  revert s. induction p as [|c p IH]; intros s H; simpl in H.
  - exists s. reflexivity.
  - destruct s as [|d s]; [discriminate|].
    apply andb_true_iff in H. destruct H as [Hc Hp].
    apply cu_eqb_eq in Hc. subst d.
    destruct (IH s Hp) as [rest ->]. exists rest. reflexivity.
Qed.

Lemma startsWith_app (p rest : jsstring) : startsWith (p ++ rest) p = true.
Proof.
  induction p as [|c p IH]; simpl; [reflexivity|].
  rewrite cu_eqb_refl, IH. reflexivity.
Qed.

Lemma trimEnd_cons (c : N) (t : jsstring) :
  is_space c = false -> trimEnd (c :: t) = c :: trimEnd t.
Proof. intros H. simpl. rewrite H. destruct (trimEnd t); reflexivity. Qed.

Lemma lower_clean_app (a b : jsstring) :
  lower_clean (a ++ b) = lower_clean a ++ lower_clean b.
Proof.
  unfold lower_clean, fold_accents, toLowerCase.
  rewrite map_app, !replace_class_app. reflexivity.
Qed.

(** A header under one of the placeholder names of the spreadsheet tools
    cleans to a string that starts with [unnamed:] or [empty]. *)
Lemma skipped_header_clean (header : jsstring) :
  skipped_header header = true ->
  startsWith (lower_clean (trim header)) (js "unnamed:") = true
  \/ startsWith (lower_clean (trim header)) (js "empty") = true.
Proof.
  unfold skipped_header. rewrite orb_true_iff.
  intros [H | H]; apply startsWith_split in H; destruct H as [rest ->].
  - left. unfold trim.
    change (js "Unnamed:" ++ rest)
      with (85 :: 110 :: 110 :: 97 :: 109 :: 101 :: 100 :: 58 :: rest)%N.
    rewrite trimStart_not_space by reflexivity.
    rewrite !trimEnd_cons by reflexivity.
    change (85 :: 110 :: 110 :: 97 :: 109 :: 101 :: 100 :: 58 :: trimEnd rest)%N
      with (js "Unnamed:" ++ trimEnd rest).
    rewrite lower_clean_app.
    change (lower_clean (js "Unnamed:")) with (js "unnamed:").
    apply startsWith_app.
  - right. unfold trim.
    change (js "__EMPTY" ++ rest)
      with (95 :: 95 :: 69 :: 77 :: 80 :: 84 :: 89 :: rest)%N.
    rewrite trimStart_not_space by reflexivity.
    rewrite !trimEnd_cons by reflexivity.
    change (95 :: 95 :: 69 :: 77 :: 80 :: 84 :: 89 :: trimEnd rest)%N
      with (js "__EMPTY" ++ trimEnd rest).
    rewrite lower_clean_app.
    change (lower_clean (js "__EMPTY")) with (js "empty").
    apply startsWith_app.
Qed.

(** The turn of the loop on a header that is a variation of a required
    field: the field is mapped afterwards. *)
Lemma normalize_header_variant (m : headerMap) (header : jsstring) (f : field) :
  In f requiredFields -> is_variant_of f header ->
  mapped_field (normalize_header m header) f = true.
Proof.
  intros Hf (v & Hv & Hclean).
  pose proof (variation_ok_of f v Hf Hv) as Hok.
  unfold variation_ok in Hok.
  rewrite !andb_true_iff, !negb_true_iff in Hok.
  destruct Hok as [[[Hfirst Hne] Hun] Hem].
  assert (header <> []) as Hh.
  { intros ->. change (lower_clean (trim [])) with (@nil N) in Hclean.
    rewrite <- Hclean in Hne. discriminate Hne. }
  assert (skipped_header header = false) as Hskip.
  { destruct (skipped_header header) eqn:E; [|reflexivity].
    destruct (skipped_header_clean header E) as [H | H];
      rewrite Hclean in H; congruence. }
  unfold normalize_header. rewrite Hskip, Hclean, assign_header_first.
  destruct (matching fieldMappings (lower_clean v)) as [|g rest];
    [discriminate|].
  apply field_eqb_eq in Hfirst. subst g.
  cbn [find]. destruct (mapped_field m f) eqn:Em; cbn [negb].
  - destruct (find (fun f0 => negb (mapped_field m f0)) rest) as [g|] eqn:Eg;
      [|exact Em].
    apply find_some in Eg. destruct Eg as [_ Hg].
    apply negb_true_iff in Hg.
    unfold mapped_field. rewrite hm_get_set_other by congruence. exact Em.
  - apply mapped_field_true. exists header.
    split; [apply hm_get_set_same | exact Hh].
Qed.

Lemma found_in_matches (f : field) (vs : list jsstring) (header : jsstring) :
  In (f, vs) fieldMappings ->
  found_in (lower_clean (trim header)) vs = true ->
  matches_field f header.
Proof.
  intros Hin Hfound. unfold found_in in Hfound.
  apply existsb_exists in Hfound. destruct Hfound as (v & Hv & Hm).
  exists v. split.
  - unfold variations_of, fieldMappings in *. simpl in Hin.
    repeat (destruct Hin as [Hin | Hin];
            [inversion Hin; subst; exact Hv|]).
    contradiction.
  - unfold matches_variation in Hm. rewrite !orb_true_iff in Hm.
    destruct Hm as [[Hm | Hm] | Hm]; auto.
    left. apply str_eqb_eq. exact Hm.
Qed.

Lemma fold_normalize_entries (hs seen : list jsstring) (m : headerMap) :
  entries_from seen m ->
  entries_from (seen ++ hs) (fold_left normalize_header hs m).
Proof.
  revert seen m. induction hs as [|h hs IH]; intros seen m Hinv; simpl.
  - rewrite app_nil_r. exact Hinv.
  - replace (seen ++ h :: hs) with ((seen ++ [h]) ++ hs)
      by (rewrite <- app_assoc; reflexivity).
    apply IH. intros f x Hx.
    destruct (normalize_header_cases m h)
      as [E | (g & vs & Hin & Hskip & Hfound & Hfree & E)];
      rewrite E in Hx.
    + destruct (Hinv f x Hx) as (H1 & H2 & H3).
      repeat split; auto. apply in_or_app. left. exact H1.
    + destruct (field_eqb g f) eqn:Egf.
      * apply field_eqb_eq in Egf. subst g.
        rewrite hm_get_set_same in Hx. inversion Hx. subst x.
        repeat split; auto.
        -- apply in_or_app. right. left. reflexivity.
        -- eapply found_in_matches; eassumption.
      * rewrite hm_get_set_other in Hx
          by (intros ->; rewrite field_eqb_refl in Egf; discriminate).
        destruct (Hinv f x Hx) as (H1 & H2 & H3).
        repeat split; auto. apply in_or_app. left. exact H1.
Qed.

(** C4. When the headers contain, in any order, a variation of a required
    field (up to case, accents and noise), [normalizeHeaders] maps that field
    to one of the original header strings.  Every entry of the mapping is an
    original header that was not skipped and matches its field by equality
    or containment in either direction; a field that got a header keeps it
    whatever headers follow; a header that starts with [Unnamed:] or
    [__EMPTY] changes nothing; and any other header goes to the first field,
    in the order of declaration, that matches it and has no header yet. *)
Theorem normalizeHeaders_required_fields :
  forall headers : list jsstring,
    (forall f, In f requiredFields ->
               (exists h, In h headers /\ is_variant_of f h) ->
               exists h', hm_get (normalizeHeaders headers) f = Some h'
                          /\ h' <> [] /\ In h' headers)
    /\ (forall f h, hm_get (normalizeHeaders headers) f = Some h ->
                    In h headers /\ skipped_header h = false
                    /\ matches_field f h)
    /\ (forall f h more, hm_get (normalizeHeaders headers) f = Some h ->
                         h <> [] ->
                         hm_get (normalizeHeaders (headers ++ more)) f
                         = Some h)
    /\ (forall before h after,
           headers = before ++ h :: after -> skipped_header h = true ->
           normalizeHeaders headers = normalizeHeaders (before ++ after))
    /\ (forall (m : headerMap) h,
           skipped_header h = false ->
           normalize_header m h =
           match find (fun f => negb (mapped_field m f))
                   (matching fieldMappings (lower_clean (trim h))) with
           | Some f => hm_set m f h
           | None => m
           end).
Proof.
  intros headers.
  assert (entries_from headers (normalizeHeaders headers)) as Hentries.
  { apply (fold_normalize_entries headers [] []). intros f h H.
    discriminate H. }
  split; [|split; [|split; [|split]]].
  - intros f Hf (h & Hin & Hvar).
    apply in_split in Hin. destruct Hin as (before & after & ->).
    assert (mapped_field (normalizeHeaders (before ++ h :: after)) f = true)
      as Hm.
    { unfold normalizeHeaders. rewrite fold_left_app. cbn [fold_left].
      unfold mapped_field. rewrite fold_normalize_keeps;
        apply (normalize_header_variant _ h f Hf Hvar). }
    apply mapped_field_true in Hm. destruct Hm as (h' & Hget & Hne).
    exists h'. repeat split; auto. apply (Hentries f h' Hget).
  - exact Hentries.
  - intros f h more Hget Hne. unfold normalizeHeaders.
    rewrite fold_left_app. rewrite fold_normalize_keeps; [exact Hget|].
    apply mapped_field_true. exists h. auto.
  - intros before h after -> Hskip. unfold normalizeHeaders.
    rewrite !fold_left_app. cbn [fold_left].
    unfold normalize_header at 2. rewrite Hskip. reflexivity.
  - intros m h Hskip. unfold normalize_header. rewrite Hskip.
    apply assign_header_first.
Qed.

(** A sheet whose columns come in another order and another spelling than
    the variations listed. *)
Lemma normalizeHeaders_required_fields_witness :
  let headers := map js ["Unnamed: 0"; " DATE "; "Qté"; "Nom_Produit";
                         "Montant"]%string in
  exists h', hm_get (normalizeHeaders headers) f_quantity = Some h'
             /\ h' <> [] /\ In h' headers.
Proof.
  intros headers.
  apply (proj1 (normalizeHeaders_required_fields headers) f_quantity).
  - simpl. auto.
  - exists (js "Qté"). split.
    + simpl. auto.
    + exists (js "qte"). split; [simpl; auto 10 | reflexivity].
Defined.

(** ** The storage facade *)

Import Storage SupabaseStorage.

Section FacadeFacts.
Context {rt : JsRuntime} {R : Type} {sb : Supabase R}.

Ltac unfold_m :=
  unfold bind, ret, throw, try_catch, get_local, put_local, remote_read,
    remote_write, setItem in *.

Lemma shouldUseSupabase_run (w : World R) :
  shouldUseSupabase w = (Return (authenticated (remote w)), w).
Proof.
  unfold shouldUseSupabase, isAuthenticated, getCurrentUser, authenticated.
  unfold_m. destruct (auth_getUser (remote w)) as [resp|e]; [|reflexivity].
  destruct (auth_error resp); [reflexivity|].
  destruct (auth_user resp); reflexivity.
Qed.

Lemma isReadOnlyMode_run (w : World R) :
  isReadOnlyMode w = (Return (read_only (local w)), w).
Proof. reflexivity. Qed.

(** Without a session the remote branch is not entered. *)
Lemma via_supabase_signed_out {A} (m : M R A) (w : World R) :
  authenticated (remote w) = false ->
  via_supabase m w = (Return None, w).
Proof.
  intros H. unfold via_supabase. unfold_m.
  rewrite shouldUseSupabase_run, H. reflexivity.
Qed.

(** The remote branch never makes the operation throw. *)
Lemma via_supabase_returns {A} (m : M R A) (w : World R) :
  exists r w', via_supabase m w = (Return r, w').
Proof.
  unfold via_supabase. unfold_m. rewrite shouldUseSupabase_run.
  destruct (authenticated (remote w)); [|eauto].
  destruct (m w) as [[a|e] w']; eauto.
Qed.

Lemma pure_read {A} (f : R -> outcome (A + thrown)) :
  pure (try (res <- remote_read f ;; data_or_throw res) catch rethrow).
Proof.
  intros w. unfold rethrow, data_or_throw. unfold_m.
  destruct (f (remote w)) as [[d|e]|e]; eauto.
Qed.

Lemma via_supabase_pure {A} (m : M R A) :
  pure m -> forall w, exists r, via_supabase m w = (Return r, w).
Proof.
  intros Hm w. unfold via_supabase. unfold_m. rewrite shouldUseSupabase_run.
  destruct (authenticated (remote w)); [|eauto].
  destruct (Hm w) as [[a|e] ->]; eauto.
Qed.

Lemma read_local_run {A} (c : cell (list A)) (w : World R) :
  read_local c w = (Return (stored c), w).
Proof.
  unfold read_local, JSON_parse, no_item. unfold_m.
  destruct c as [|[|x t]|v]; reflexivity.
Qed.

Lemma getSales_run (w : World R) :
  exists l, getSales w = (Return l, w)
            /\ (authenticated (remote w) = false ->
                l = stored (STORAGE_KEY (local w))).
Proof.
  unfold getSales.
  destruct (via_supabase_pure getSalesFromSupabase (pure_read sales_select) w)
    as [r Hr].
  unfold bind at 1. rewrite Hr. destruct r as [data|].
  - exists data. split; [reflexivity|]. intros Hs.
    rewrite via_supabase_signed_out in Hr by exact Hs. discriminate.
  - exists (stored (STORAGE_KEY (local w))). unfold bind, get_local.
    rewrite read_local_run. auto.
Qed.

Lemma getStock_run (w : World R) :
  exists l, getStock w = (Return l, w)
            /\ (authenticated (remote w) = false ->
                l = stored (STOCK_KEY (local w))).
Proof.
  unfold getStock.
  destruct (via_supabase_pure getStockFromSupabase (pure_read stock_select) w)
    as [r Hr].
  unfold bind at 1. rewrite Hr. destruct r as [data|].
  - exists data. split; [reflexivity|]. intros Hs.
    rewrite via_supabase_signed_out in Hr by exact Hs. discriminate.
  - exists (stored (STOCK_KEY (local w))). unfold bind, get_local.
    rewrite read_local_run. auto.
Qed.

Lemma getStockMovements_run (w : World R) :
  exists l, getStockMovements w = (Return l, w)
            /\ (authenticated (remote w) = false ->
                l = stored (STOCK_MOVEMENTS_KEY (local w))).
Proof.
  unfold getStockMovements.
  destruct (via_supabase_pure getStockMovementsFromSupabase
              (pure_read movements_select) w) as [r Hr].
  unfold bind at 1. rewrite Hr. destruct r as [data|].
  - exists data. split; [reflexivity|]. intros Hs.
    rewrite via_supabase_signed_out in Hr by exact Hs. discriminate.
  - exists (stored (STOCK_MOVEMENTS_KEY (local w))). unfold bind, get_local.
    rewrite read_local_run. auto.
Qed.

(** C10. The three readers always return, whatever the session and whatever
    local storage holds, and they leave the state as it is; without a
    session each returns the list its key stands for, which is the empty
    list when the key is absent or holds a text that is not JSON. *)
Theorem readers_total :
  forall w : World R,
    (exists sales, getSales w = (Return sales, w))
    /\ (exists stock, getStock w = (Return stock, w))
    /\ (exists movements, getStockMovements w = (Return movements, w))
    /\ (authenticated (remote w) = false ->
        getSales w = (Return (stored (STORAGE_KEY (local w))), w)
        /\ getStock w = (Return (stored (STOCK_KEY (local w))), w)
        /\ getStockMovements w
           = (Return (stored (STOCK_MOVEMENTS_KEY (local w))), w)
        /\ (forall text, STORAGE_KEY (local w) = Absent
                         \/ STORAGE_KEY (local w) = Unparseable text ->
                         getSales w = (Return [], w))
        /\ (forall text, STOCK_KEY (local w) = Absent
                         \/ STOCK_KEY (local w) = Unparseable text ->
                         getStock w = (Return [], w))
        /\ (forall text, STOCK_MOVEMENTS_KEY (local w) = Absent
                         \/ STOCK_MOVEMENTS_KEY (local w) = Unparseable text ->
                         getStockMovements w = (Return [], w))).
Proof.
  intros w.
  destruct (getSales_run w) as (l1 & H1 & S1).
  destruct (getStock_run w) as (l2 & H2 & S2).
  destruct (getStockMovements_run w) as (l3 & H3 & S3).
  split; [eauto|]. split; [eauto|]. split; [eauto|].
  intros Hs. rewrite H1, H2, H3, <- S1, <- S2, <- S3 by exact Hs.
  repeat split.
  - intros text [E | E]; rewrite S1, E by exact Hs; reflexivity.
  - intros text [E | E]; rewrite S2, E by exact Hs; reflexivity.
  - intros text [E | E]; rewrite S3, E by exact Hs; reflexivity.
Qed.


(** *** Saving *)

Lemma setItem_run (update : LocalStorage -> LocalStorage) (w : World R) :
  setItem update w =
  if ls_full (local w) then (Throw QuotaExceededError, w)
  else (Return tt, mkWorld (update (local w)) (remote w) (draws w)).
Proof.
  unfold setItem, bind, get_local, throw, put_local.
  destruct (ls_full (local w)); reflexivity.
Qed.

Lemma save_run (update : LocalStorage -> LocalStorage) (w : World R) :
  (r <- via_supabase (setItem update) ;;
   match r with
   | Some _ => ret tt
   | None => try (setItem update) catch (fun _ => ret tt)
   end) w = (Return tt, after_save update w).
Proof.
  unfold via_supabase, after_save, bind, try_catch, ret.
  rewrite shouldUseSupabase_run.
  destruct (authenticated (remote w)); rewrite !setItem_run;
    destruct (ls_full (local w)) eqn:Ef; rewrite ?setItem_run, ?Ef;
    try reflexivity; destruct w; reflexivity.
Qed.

Lemma saveSales_run (sales : list Sale) (w : World R) :
  saveSales sales w =
  if read_only (local w) then (Throw (Error read_only_message), w)
  else (Return tt, after_save (set_STORAGE_KEY (Json sales)) w).
Proof.
  unfold saveSales. unfold bind at 1. rewrite isReadOnlyMode_run.
  destruct (read_only (local w)); [reflexivity|]. apply save_run.
Qed.

Lemma saveStock_run (stock : list StockItem) (w : World R) :
  saveStock stock w =
  if read_only (local w) then (Throw (Error read_only_message), w)
  else (Return tt, after_save (set_STOCK_KEY (Json stock)) w).
Proof.
  unfold saveStock. unfold bind at 1. rewrite isReadOnlyMode_run.
  destruct (read_only (local w)); [reflexivity|]. apply save_run.
Qed.

(** *** Read-only mode *)

Lemma read_only_throws {A} (k : M R A) (w : World R) :
  read_only (local w) = true ->
  (ro <- isReadOnlyMode ;;
   if ro then throw (Error read_only_message) else k) w
  = (Throw (Error read_only_message), w).
Proof.
  intros H. unfold bind. rewrite isReadOnlyMode_run, H. reflexivity.
Qed.

Lemma read_only_blocks (w : World R) :
  read_only (local w) = true ->
  forall (sale : Sale) (item : StockItem) (movement : StockMovement)
         (sales : list Sale) (stock : list StockItem) (id : jsstring),
    let blocked (m : M R unit) :=
      m w = (Throw (Error read_only_message), w) in
    blocked (addSale sale) /\ blocked (updateSale sale)
    /\ blocked (deleteSale id) /\ blocked (addStockItem item)
    /\ blocked (updateStockItem item) /\ blocked (deleteStockItem id)
    /\ blocked (addStockMovement movement) /\ blocked (saveSales sales)
    /\ blocked (saveStock stock) /\ blocked clearAllData.
Proof.
  intros H sale item movement sales stock id blocked. subst blocked.
  repeat split; apply read_only_throws; exact H.
Qed.

(** Without a session the batch import reaches [saveSales], which
    refuses. *)
Lemma importSalesToSupabase_read_only_local (sales : list Sale) (w : World R) :
  read_only (local w) = true -> authenticated (remote w) = false ->
  sales <> [] ->
  Storage.importSalesToSupabase sales w
  = (Throw (Error read_only_message), w).
Proof.
  intros Hro Hs Hne. unfold Storage.importSalesToSupabase.
  destruct sales as [|s sales]; [contradiction|]. cbn [is_empty].
  unfold bind at 1. rewrite via_supabase_signed_out by exact Hs.
  unfold bind at 1. destruct (getSales_run w) as (l & -> & _).
  unfold bind at 1. rewrite saveSales_run, Hro. reflexivity.
Qed.

(** *** Deleting a sale *)



(** *** Migration *)

Lemma migrate_flagged (w : World R) :
  migrated (local w) = true -> migrateDataToSupabase w = (Return tt, w).
Proof.
  intros H. unfold migrateDataToSupabase. unfold bind, get_local.
  unfold migrated in H. rewrite H. reflexivity.
Qed.

Lemma migrate_sets_flag (w w' : World R) :
  migrated (local w) = false -> authenticated (remote w) = true ->
  migrateDataToSupabase w = (Return tt, w') ->
  MIGRATION_KEY (local w') = Some (js "true").
Proof.
  intros Hm Ha. unfold migrateDataToSupabase. unfold bind at 1.
  unfold get_local. unfold migrated in Hm. rewrite Hm.
  unfold try_catch. unfold bind at 1. rewrite shouldUseSupabase_run, Ha.
  unfold bind at 1.
  destruct (migrateLocalStorageToSupabase w) as [[[]|e] w1]; [|discriminate].
  unfold setItem, bind, get_local, put_local, throw.
  destruct (ls_full (local w1)); [discriminate|].
  intros H. inversion H. reflexivity.
Qed.

Lemma migrate_signed_out (w : World R) :
  migrated (local w) = false -> authenticated (remote w) = false ->
  migrateDataToSupabase w = (Return tt, w).
Proof.
  intros Hm Ha. unfold migrateDataToSupabase. unfold bind at 1.
  unfold get_local. unfold migrated in Hm. rewrite Hm.
  unfold try_catch. unfold bind at 1. rewrite shouldUseSupabase_run, Ha.
  reflexivity.
Qed.

End FacadeFacts.

(** C7. With the read-only flag set, every operation that opens with the
    read-only test throws and leaves the state as it is, and so does the
    batch import when there is no session.  [importSalesToSupabase] has no
    such test: with a session it inserts the sales remotely and returns, and
    on an empty batch it returns at once. *)
Theorem importSalesToSupabase_skips_read_only_test :
  (forall (rt : JsRuntime) (R : Type) (sb : Supabase R) (w : World R),
      read_only (local w) = true ->
      forall (sale : Sale) (item : StockItem) (movement : StockMovement)
             (sales : list Sale) (stock : list StockItem) (id : jsstring),
        let blocked (m : M R unit) :=
          m w = (Throw (Error read_only_message), w) in
        blocked (addSale sale) /\ blocked (updateSale sale)
        /\ blocked (deleteSale id) /\ blocked (addStockItem item)
        /\ blocked (updateStockItem item) /\ blocked (deleteStockItem id)
        /\ blocked (addStockMovement movement) /\ blocked (saveSales sales)
        /\ blocked (saveStock stock) /\ blocked clearAllData
        /\ (authenticated (remote w) = false -> sales <> [] ->
            blocked (Storage.importSalesToSupabase sales)))
  /\ (let sale :=
        mkSale (js "s1") (js "2024-03-15") (js "Client Import")
          (js "Coca-Cola") (Fin 5) (Fin 1.5) (Fin 7.5) (js "Carte")
          Missing Missing Missing Missing in
      let db :=
        Reference.mkMemoryDb (Some (mkUser (js "u1"))) true [] [] [] in
      let w :=
        mkWorld (mkLocalStorage Absent Absent Absent (Some (js "true")) None
                   false) db 0 in
      read_only (local w) = true
      /\ @Storage.importSalesToSupabase Reference.utc_host _
           Reference.memory_backend [sale] w
         = (Return tt,
            mkWorld (local w)
              (Reference.mkMemoryDb (Some (mkUser (js "u1"))) true [sale] []
                 []) 0)
      /\ @Storage.importSalesToSupabase Reference.utc_host _
           Reference.memory_backend [] w = (Return tt, w)).
Proof.
  split.
  - intros rt R sb w Hro sale item movement sales stock id blocked.
    destruct (read_only_blocks w Hro sale item movement sales stock id)
      as (H1 & H2 & H3 & H4 & H5 & H6 & H7 & H8 & H9 & H10).
    repeat (split; [assumption|]).
    intros Hs Hne. apply importSalesToSupabase_read_only_local; assumption.
  - vm_compute. repeat split; reflexivity.
Qed.

(** A read-only store without session: adding a sale and importing a batch
    are both refused. *)
Lemma importSalesToSupabase_skips_read_only_test_witness :
  let sale :=
    mkSale (js "s1") (js "2024-03-15") (js "Client Import") (js "Coca-Cola")
      (Fin 5) (Fin 1.5) (Fin 7.5) (js "Carte") Missing Missing Missing
      Missing in
  let w :=
    mkWorld (mkLocalStorage Absent Absent Absent (Some (js "true")) None false)
      Reference.signed_out 0%nat in
  @addSale Reference.utc_host _ Reference.memory_backend sale w
  = (Throw (Error read_only_message), w)
  /\ @Storage.importSalesToSupabase Reference.utc_host _
       Reference.memory_backend [sale] w
     = (Throw (Error read_only_message), w).
Proof.
  intros sale w.
  pose proof (proj1 importSalesToSupabase_skips_read_only_test
                Reference.utc_host _ Reference.memory_backend w eq_refl sale
                (mkStockItem [] [] [] [] NaN NaN NaN NaN)
                (mkStockMovement [] [] [] Out NaN [] Missing Missing)
                [sale] [] []) as H.
  cbv zeta in H.
  destruct H as (Hadd & _ & _ & _ & _ & _ & _ & _ & _ & _ & Himport).
  split; [exact Hadd|]. apply Himport; [reflexivity | discriminate].
Defined.



(** C9. With the migration flag set, [migrateDataToSupabase] returns without
    touching the local or the remote state.  A run with a session that
    returns has set the flag, and after any run that returns a second run
    changes nothing. *)
Theorem migration_runs_once :
  forall (R : Type) (sb : Supabase R) (w : World R),
    (migrated (local w) = true -> migrateDataToSupabase w = (Return tt, w))
    /\ (forall w', authenticated (remote w) = true ->
                   migrateDataToSupabase w = (Return tt, w') ->
                   MIGRATION_KEY (local w') = Some (js "true"))
    /\ (forall w', migrateDataToSupabase w = (Return tt, w') ->
                   migrateDataToSupabase w' = (Return tt, w')).
Proof.
  intros R sb w.
  assert (forall w', authenticated (remote w) = true ->
                     migrateDataToSupabase w = (Return tt, w') ->
                     MIGRATION_KEY (local w') = Some (js "true")) as Hflag.
  { intros w' Ha Hrun. destruct (migrated (local w)) eqn:Hm.
    - rewrite migrate_flagged in Hrun by exact Hm. inversion Hrun. subst w'.
      unfold migrated in Hm. destruct (MIGRATION_KEY (local w)) as [v|];
        [|discriminate]. apply str_eqb_eq in Hm. congruence.
    - eapply migrate_sets_flag; eassumption. }
  split; [apply migrate_flagged|]. split; [exact Hflag|].
  intros w' Hrun. destruct (migrated (local w)) eqn:Hm.
  - rewrite migrate_flagged in Hrun by exact Hm. inversion Hrun. subst w'.
    apply migrate_flagged. exact Hm.
  - destruct (authenticated (remote w)) eqn:Ha.
    + apply migrate_flagged. unfold migrated.
      rewrite (Hflag w' eq_refl Hrun). reflexivity.
    + rewrite migrate_signed_out in Hrun by assumption. inversion Hrun.
      subst w'. apply migrate_signed_out; assumption.
Qed.

(** A first migration of one local sale, then a second run. *)
Lemma migration_runs_once_witness :
  let s1 :=
    mkSale (js "s1") (js "2024-03-15") (js "Client") (js "Coca-Cola") (Fin 5)
      (Fin 1.5) (Fin 7.5) (js "Carte") Missing Missing Missing Missing in
  let w :=
    mkWorld (mkLocalStorage (Json [s1]) Absent Absent None None false)
      (Reference.mkMemoryDb (Some (mkUser (js "u1"))) true [] [] []) 0%nat in
  let w' := snd (@migrateDataToSupabase _ Reference.memory_backend w) in
  Reference.db_sales (remote w') = [s1]
  /\ MIGRATION_KEY (local w') = Some (js "true")
  /\ @migrateDataToSupabase _ Reference.memory_backend w' = (Return tt, w').
Proof.
  intros s1 w w'.
  pose proof (migration_runs_once _ Reference.memory_backend w)
    as (_ & Hflag & Hagain).
  split; [reflexivity|]. split.
  - apply Hflag; reflexivity.
  - apply Hagain. reflexivity.
Defined.

(** A store whose sales key holds a text that is not JSON. *)
Lemma readers_total_witness :
  let w :=
    mkWorld (mkLocalStorage (Unparseable (js "{oops")) Absent Absent None None
               false) Reference.signed_out 0%nat in
  @getSales _ Reference.memory_backend w = (Return [], w)
  /\ @getStock _ Reference.memory_backend w = (Return [], w).
Proof.
  intros w.
  destruct (@readers_total _ Reference.memory_backend w)
    as (_ & _ & _ & H).
  destruct (H eq_refl) as (_ & _ & _ & H1 & H2 & _).
  split.
  - apply (H1 (js "{oops")). right. reflexivity.
  - apply (H2 []). left. reflexivity.
Defined.

(** ** C2: the duplicate detector *)








(** ** C1: the stock reconciler of an import *)

Import Storage SupabaseStorage.

(** *** Objects used as maps *)










(** *** Grouping *)







(** *** The loop over the groups *)






Section Reconciler.
Context {rt : JsRuntime}.



End Reconciler.

(** *** Running the reconciler on local storage *)

Section ReconcilerRun.
Context {rt : JsRuntime} {R : Type} {sb : Supabase R}.




End ReconcilerRun.


(** ** C6: the date policy of the row validator *)














Section DatePolicy.
Context {rt : JsRuntime}.







End DatePolicy.

(** ** C5: the row validator *)

Section RowValidator.
Context {rt : JsRuntime}.

Lemma validate_row_outcome (headerMapping : headerMap) (acc : validation)
  (index : nat) (r : row) :
  exists o, row_result headerMapping index r o
            /\ validate_row headerMapping acc index r = add_outcome acc o.
Proof.
  unfold validate_row, row_result.
  set (mapped := detectAndMapColumns r headerMapping).
  destruct (row_errors mapped) as [|e es] eqn:Eerr.
  - destruct (format_date (mr_get mapped f_date)) as [day| |] eqn:Edate.
    + eexists (inl _). cbn [add_outcome]. split; [|reflexivity].
      cbn [sale_date productName quantity totalAmount]. auto.
    + exists (inr (mkRowError (index + 2) ([] ++ [js "Date invalide"]))).
      cbn [add_outcome row_number errors]. split; [|reflexivity].
      split; [reflexivity|]. split; [discriminate|]. right. left. auto.
    + exists (inr (mkRowError (index + 2)
                     ([] ++ [js "Erreur de traitement des données"]))).
      cbn [add_outcome row_number errors]. split; [|reflexivity].
      split; [reflexivity|]. split; [discriminate|]. right. right. auto.
  - exists (inr (mkRowError (index + 2) (e :: es))).
    cbn [add_outcome row_number errors]. split; [|reflexivity].
    split; [reflexivity|]. split; [discriminate|]. left.
    split; [discriminate | reflexivity].
Qed.

Lemma validate_rows_outcomes (headerMapping : headerMap) (data : list row) :
  forall (index : nat) (acc : validation),
    exists outcomes,
      List.length outcomes = List.length data
      /\ sales (validate_rows headerMapping data index acc)
         = sales acc ++ records outcomes
      /\ row_errs (validate_rows headerMapping data index acc)
         = row_errs acc ++ error_entries outcomes
      /\ forall j r o,
          nth_error data j = Some r -> nth_error outcomes j = Some o ->
          row_result headerMapping (index + j) r o.
Proof.
  induction data as [|r data IH]; intros index acc.
  - exists []. cbn. rewrite !app_nil_r. repeat split; auto.
    intros [|j] r o H; discriminate H.
  - cbn [validate_rows].
    destruct (validate_row_outcome headerMapping acc index r)
      as (o & Ho & ->).
    destruct (IH (S index) (add_outcome acc o))
      as (outcomes & Hlen & Hs & He & Hrows).
    exists (o :: outcomes). cbn [List.length]. split; [congruence|].
    rewrite Hs, He. unfold records, error_entries. cbn [flat_map].
    fold (records outcomes). fold (error_entries outcomes).
    split; [|split].
    + destruct o; cbn [add_outcome sales]; rewrite <- ?app_assoc; reflexivity.
    + destruct o; cbn [add_outcome row_errs]; rewrite <- ?app_assoc;
        reflexivity.
    + intros [|j] r' o' Hr Ho'; cbn [nth_error] in Hr, Ho'.
      * inversion Hr. inversion Ho'. subst. rewrite Nat.add_0_r. exact Ho.
      * replace (index + S j)%nat with (S index + j)%nat by lia.
        apply (Hrows j r' o' Hr Ho').
Qed.

Lemma covers_no_missing (headerMapping : headerMap) :
  covers headerMapping ->
  filter (fun f => negb (mapped_field headerMapping f)) requiredFields = [].
Proof.
  intros Hc. unfold requiredFields. cbn [filter].
  rewrite !Hc by (simpl; auto). reflexivity.
Qed.

(** What the checks put in the error list of a row. *)
Lemma row_errors_content (mapped : mappedRow) :
  (forall f, In f requiredFields -> truthy (mr_get mapped f) = false ->
             In (missing_message f) (row_errors mapped))
  /\ (invalid_quantity (mr_get mapped f_quantity) = true ->
      In (js "Quantité invalide") (row_errors mapped))
  /\ (invalid_amount (mr_get mapped f_amount) = true ->
      In (js "Montant invalide") (row_errors mapped))
  /\ ((forall f, In f requiredFields -> truthy (mr_get mapped f) = true) ->
      invalid_quantity (mr_get mapped f_quantity) = false ->
      invalid_amount (mr_get mapped f_amount) = false ->
      row_errors mapped = []).
Proof.
  unfold row_errors, invalid_quantity, invalid_amount.
  split; [|split; [|split]].
  - intros f Hf Hfalse. unfold requiredFields in Hf. simpl in Hf.
    destruct Hf as [<- | [<- | [<- | [<- | []]]]]; rewrite Hfalse;
      cbn [negb missing_message]; rewrite ?in_app_iff; simpl; tauto.
  - intros H. apply andb_true_iff in H. destruct H as [Ht Hn].
    rewrite Ht, Hn. cbn [andb negb]. rewrite !in_app_iff. simpl. tauto.
  - intros H. rewrite !andb_true_iff in H.
    destruct H as [[[[Ht Hz] H0] H1] H2].
    rewrite Ht, Hz, H0, H1, H2. cbn [andb negb]. rewrite !in_app_iff.
    simpl. tauto.
  - intros Hall Hq Ha.
    rewrite (Hall f_date), (Hall f_product), (Hall f_quantity),
      (Hall f_amount) by (simpl; auto).
    rewrite (Hall f_quantity) in Hq by (simpl; auto).
    rewrite (Hall f_amount) in Ha by (simpl; auto).
    cbn [andb negb] in *. rewrite Hq, Ha. reflexivity.
Qed.

End RowValidator.

(** C5, as the code has it.  When the headers of the first row cover the
    required fields, [validateSalesData] gives each row exactly one outcome,
    in order: a record and no error entry when the row passes the checks and
    its date converts, or no record and one error entry numbered by the data
    index plus 2.  The entry carries the messages of the checks, which name
    every missing required field, an invalid quantity and an invalid amount;
    the date is converted only when these checks pass, and a date that does
    not convert then gives the entry ['Date invalide'] or the message of the
    processing error. *)
Theorem validateSalesData_rows :
  forall (rt : JsRuntime) (draws : nat) (first : row) (rest : list row),
    let data := first :: rest in
    let headerMapping := normalizeHeaders (Object_keys first) in
    covers headerMapping ->
    (exists outcomes,
        List.length outcomes = List.length data
        /\ sales (validateSalesData draws data) = records outcomes
        /\ row_errs (validateSalesData draws data) = error_entries outcomes
        /\ forall j r o,
            nth_error data j = Some r -> nth_error outcomes j = Some o ->
            row_result headerMapping j r o)
    /\ forall mapped : mappedRow,
        (forall f, In f requiredFields -> truthy (mr_get mapped f) = false ->
                   In (missing_message f) (row_errors mapped))
        /\ (invalid_quantity (mr_get mapped f_quantity) = true ->
            In (js "Quantité invalide") (row_errors mapped))
        /\ (invalid_amount (mr_get mapped f_amount) = true ->
            In (js "Montant invalide") (row_errors mapped))
        /\ ((forall f, In f requiredFields ->
                       truthy (mr_get mapped f) = true) ->
            invalid_quantity (mr_get mapped f_quantity) = false ->
            invalid_amount (mr_get mapped f_amount) = false ->
            row_errors mapped = []).
Proof.
  intros rt draws first rest data headerMapping Hcovers.
  split; [|apply row_errors_content].
  subst data. unfold validateSalesData. cbv zeta. fold headerMapping.
  rewrite (covers_no_missing headerMapping Hcovers).
  destruct (validate_rows_outcomes headerMapping (first :: rest) 0
              (mkValidation [] [] draws))
    as (outcomes & Hlen & Hs & He & Hrows).
  exists outcomes. split; [exact Hlen|]. split; [exact Hs|].
  split; [exact He|]. exact Hrows.
Qed.

(** Two rows of a French sheet: the first gives a record, the second, whose
    quantity is not a number, an error entry for row 3. *)
Lemma validateSalesData_rows_witness :
  let first : row :=
    [(js "Date", VStr (js "15/03/2024")); (js "Produit", VStr (js "Coca-Cola"));
     (js "Quantité", VNum (Fin 5)); (js "Montant", VStr (js "7,50 €"))] in
  let second : row :=
    [(js "Date", VStr (js "16/03/2024")); (js "Produit", VStr (js "Fanta"));
     (js "Quantité", VStr (js "deux")); (js "Montant", VStr (js "3,00 €"))] in
  let v := @validateSalesData Reference.utc_host 0 [first; second] in
  exists outcomes,
    List.length outcomes = 2%nat
    /\ sales v = records outcomes
    /\ row_errs v = error_entries outcomes
    /\ row_errs v = [mkRowError 3 [js "Quantité invalide"]]
    /\ map sale_date (sales v) = [js "2024-03-15"].
Proof.
  intros first second v.
  destruct (proj1 (validateSalesData_rows Reference.utc_host 0 first [second]
                     ltac:(intros f [<- | [<- | [<- | [<- | []]]]];
                           vm_compute; reflexivity)))
    as (outcomes & Hlen & Hs & He & _).
  exists outcomes. split; [exact Hlen|]. split; [exact Hs|].
  split; [exact He|]. split; vm_compute; reflexivity.
Defined.

(** C5, as it is stated, fails on a row whose quantity is missing and whose
    date is not a date: the date is never looked at, and the entry of the
    row names the quantity only. *)
Lemma validateSalesData_invalid_date_unnamed :
  let r : row :=
    [(js "Date", VStr (js "31/02/abcd")); (js "Produit", VStr (js "Coca-Cola"));
     (js "Quantité", VStr []); (js "Montant", VStr (js "7,50 €"))] in
  let headerMapping := normalizeHeaders (Object_keys r) in
  let v := @validateSalesData Reference.utc_host 0 [r] in
  covers headerMapping
  /\ v = mkValidation [] [mkRowError 2 [js "Quantité manquante"]] 0
  /\ @format_date Reference.utc_host
       (mr_get (detectAndMapColumns r headerMapping) f_date) = DateInvalid
  /\ ~ @names_every_unusable_field Reference.utc_host v
         (detectAndMapColumns r headerMapping).
Proof.
  intros r headerMapping v.
  assert (v = mkValidation [] [mkRowError 2 [js "Quantité manquante"]] 0)
    as Hv by (vm_compute; reflexivity).
  split; [intros f [<- | [<- | [<- | [<- | []]]]]; vm_compute; reflexivity|].
  split; [exact Hv|]. split; [vm_compute; reflexivity|].
  intros H. destruct (H f_date) as (e & s & He & Hs & Hinc).
  - do 3 right. left. reflexivity.
  - right. left. vm_compute. reflexivity.
  - rewrite Hv in He. cbn [row_errs In] in He. destruct He as [<- | []].
    cbn [errors In] in Hs. destruct Hs as [<- | []].
    vm_compute in Hinc. discriminate Hinc.
Qed.

(* ================================================================== *)
(** * Part III. Further properties of the code                         *)
(* ================================================================== *)

Import Storage SupabaseStorage StorageInit Effects.

(** ** What an operation leaves alone *)

Section FrameFacts.
Context {rt : JsRuntime} {R : Type} {sb : Supabase R}.

Lemma keeps_ret {A X} (proj : LocalStorage -> X) (a : A) :
  keeps proj (ret a : M R A).
Proof. intros w. reflexivity. Qed.

Lemma keeps_throw {A X} (proj : LocalStorage -> X) (e : thrown) :
  keeps proj (throw e : M R A).
Proof. intros w. reflexivity. Qed.

Lemma keeps_bind {A B X} (proj : LocalStorage -> X) (m : M R A)
  (k : A -> M R B) :
  keeps proj m -> (forall a, keeps proj (k a)) -> keeps proj (bind m k).
Proof.
  intros Hm Hk w. unfold bind. specialize (Hm w).
  destruct (m w) as [[a|e] w1]; cbn [snd] in *.
  - rewrite Hk. exact Hm.
  - exact Hm.
Qed.

Lemma keeps_try {A X} (proj : LocalStorage -> X) (m : M R A)
  (h : thrown -> M R A) :
  keeps proj m -> (forall e, keeps proj (h e)) -> keeps proj (try_catch m h).
Proof.
  intros Hm Hh w. unfold try_catch. specialize (Hm w).
  destruct (m w) as [[a|e] w1]; cbn [snd] in *.
  - exact Hm.
  - rewrite Hh. exact Hm.
Qed.

Lemma keeps_remote_read {A X} (proj : LocalStorage -> X) (f : R -> outcome A) :
  keeps proj (remote_read f).
Proof. intros w. reflexivity. Qed.

Lemma keeps_remote_write {A X} (proj : LocalStorage -> X)
  (f : R -> R * outcome A) :
  keeps proj (remote_write f).
Proof. intros w. unfold remote_write. destruct (f (remote w)). reflexivity. Qed.

Lemma keeps_get_local {X} (proj : LocalStorage -> X) :
  keeps proj (get_local : M R LocalStorage).
Proof. intros w. reflexivity. Qed.

Lemma keeps_setItem {X} (proj : LocalStorage -> X)
  (update : LocalStorage -> LocalStorage) :
  (forall l, proj (update l) = proj l) -> keeps proj (setItem update : M R unit).
Proof.
  intros H w. unfold setItem, bind, get_local, throw, put_local.
  destruct (ls_full (local w)); cbn [snd local]; auto.
Qed.

Lemma keeps_randomUUID {X} (proj : LocalStorage -> X) :
  keeps proj (randomUUID : M R jsstring).
Proof. intros w. reflexivity. Qed.

Lemma keeps_now_iso {X} (proj : LocalStorage -> X) :
  keeps proj (now_iso : M R jsstring).
Proof. intros w. reflexivity. Qed.

Lemma keeps_for_each {A X} (proj : LocalStorage -> X) (f : A -> M R unit)
  (l : list A) :
  (forall a, keeps proj (f a)) -> keeps proj (for_each l f).
Proof.
  intros Hf. induction l as [|a l IH]; cbn [for_each].
  - apply keeps_ret.
  - apply keeps_bind; [apply Hf | intros _; exact IH].
Qed.

Lemma keeps_weaken {A X Y} (proj : LocalStorage -> X) (g : X -> Y)
  (m : M R A) :
  keeps proj m -> keeps (fun l => g (proj l)) m.
Proof. intros H w. rewrite H. reflexivity. Qed.

End FrameFacts.

(** One step of a proof that an operation keeps a part of local storage. *)
Ltac frame_step :=
  match goal with
  | |- keeps _ (bind _ _) => apply keeps_bind; [|intros ?]
  | |- keeps _ (try_catch _ _) => apply keeps_try; [|intros ?]
  | |- keeps _ (ret _) => apply keeps_ret
  | |- keeps _ (throw _) => apply keeps_throw
  | |- keeps _ (remote_read _) => apply keeps_remote_read
  | |- keeps _ (remote_write _) => apply keeps_remote_write
  | |- keeps _ get_local => apply keeps_get_local
  | |- keeps _ randomUUID => apply keeps_randomUUID
  | |- keeps _ now_iso => apply keeps_now_iso
  | |- keeps _ (setItem _) => apply keeps_setItem; intros ?; reflexivity
  | |- keeps _ (for_each _ _) => apply keeps_for_each; intros ?
  | |- keeps _ (match ?x with _ => _ end) => destruct x
  end.

Ltac frame := repeat frame_step.

Section RemoteFrame.
Context {rt : JsRuntime} {R : Type} {sb : Supabase R}.
Context {X : Type} (proj : LocalStorage -> X).

(** The functions of [supabaseStorage] do not write to local storage. *)
Lemma keeps_supabaseStorage :
  keeps proj getSalesFromSupabase
  /\ (forall sale, keeps proj (addSaleToSupabase sale))
  /\ (forall sale, keeps proj (updateSaleInSupabase sale))
  /\ (forall id, keeps proj (deleteSaleFromSupabase id))
  /\ keeps proj getStockFromSupabase
  /\ (forall item, keeps proj (addStockItemToSupabase item))
  /\ (forall item, keeps proj (updateStockItemInSupabase item))
  /\ (forall id, keeps proj (deleteStockItemFromSupabase id))
  /\ keeps proj getStockMovementsFromSupabase
  /\ (forall movement, keeps proj (addStockMovementToSupabase movement))
  /\ (forall sales, keeps proj (addMultipleSalesToSupabase sales))
  /\ (forall items, keeps proj (addMultipleStockItemsToSupabase items))
  /\ keeps proj migrateLocalStorageToSupabase
  /\ (forall sales, keeps proj (SupabaseStorage.importSalesToSupabase sales)).
Proof.
  unfold migrateLocalStorageToSupabase, getSalesFromSupabase,
    addSaleToSupabase, updateSaleInSupabase, deleteSaleFromSupabase,
    getStockFromSupabase, addStockItemToSupabase, updateStockItemInSupabase,
    deleteStockItemFromSupabase, getStockMovementsFromSupabase,
    addStockMovementToSupabase, addMultipleSalesToSupabase,
    addMultipleStockItemsToSupabase, SupabaseStorage.importSalesToSupabase,
    require_user, throw_if_error, data_or_throw, rethrow, JSON_parse.
  repeat split; intros; frame.
Qed.

Lemma keeps_shouldUseSupabase : keeps proj shouldUseSupabase.
Proof. unfold shouldUseSupabase, isAuthenticated, getCurrentUser. frame. Qed.

Lemma keeps_via_supabase {A} (m : M R A) :
  keeps proj m -> keeps proj (via_supabase m).
Proof.
  intros Hm. unfold via_supabase. frame; try exact Hm.
  apply keeps_shouldUseSupabase.
Qed.

Lemma keeps_isReadOnlyMode : keeps proj (isReadOnlyMode : M R bool).
Proof. unfold isReadOnlyMode. frame. Qed.

Lemma keeps_read_local {A} (c : cell (list A)) :
  keeps proj (read_local c : M R (list A)).
Proof. unfold read_local, JSON_parse. frame. Qed.

Lemma keeps_getSales : keeps proj getSales.
Proof.
  unfold getSales. frame; try apply keeps_read_local.
  apply keeps_via_supabase, keeps_supabaseStorage.
Qed.

Lemma keeps_getStock : keeps proj getStock.
Proof.
  unfold getStock. frame; try apply keeps_read_local.
  apply keeps_via_supabase, keeps_supabaseStorage.
Qed.

Lemma keeps_getStockMovements : keeps proj getStockMovements.
Proof.
  unfold getStockMovements. frame; try apply keeps_read_local.
  apply keeps_via_supabase, keeps_supabaseStorage.
Qed.

(** The writers of the facade touch the key they are about, and no
    other. *)
Lemma keeps_saveSales (sales : list Sale) :
  (forall v l, proj (set_STORAGE_KEY v l) = proj l) ->
  keeps proj (saveSales sales).
Proof.
  intros H. unfold saveSales. frame; try apply keeps_isReadOnlyMode;
    try apply keeps_via_supabase; apply keeps_setItem; intros l; apply H.
Qed.

Lemma keeps_saveStock (stock : list StockItem) :
  (forall v l, proj (set_STOCK_KEY v l) = proj l) ->
  keeps proj (saveStock stock).
Proof.
  intros H. unfold saveStock. frame; try apply keeps_isReadOnlyMode;
    try apply keeps_via_supabase; apply keeps_setItem; intros l; apply H.
Qed.

Lemma keeps_addStockMovement (movement : StockMovement) :
  (forall v l, proj (set_STOCK_MOVEMENTS_KEY v l) = proj l) ->
  keeps proj (addStockMovement movement).
Proof.
  intros H. unfold addStockMovement. frame; try apply keeps_isReadOnlyMode;
    try (apply keeps_via_supabase, keeps_supabaseStorage);
    try apply keeps_getStockMovements.
  apply keeps_setItem; intros l; apply H.
Qed.

Lemma keeps_updateStockFromSale (sale : Sale) :
  (forall v l, proj (set_STOCK_KEY v l) = proj l) ->
  (forall v l, proj (set_STOCK_MOVEMENTS_KEY v l) = proj l) ->
  keeps proj (updateStockFromSale sale).
Proof.
  intros Hs Hm. unfold updateStockFromSale. frame.
  - apply keeps_getStock.
  - apply keeps_saveStock, Hs.
  - apply keeps_addStockMovement, Hm.
Qed.

Lemma keeps_reconcile_entries (entries : list (jsstring * stockUpdate)) :
  forall acc,
    keeps proj (reconcile_entries entries acc
                : M R (list StockItem * list StockMovement)).
Proof.
  induction entries as [|entry rest IH]; intros acc; cbn [reconcile_entries].
  - apply keeps_ret.
  - apply keeps_bind; [|intros acc'; apply IH].
    unfold reconcile_entry. destruct acc, entry. frame.
Qed.

Lemma keeps_updateStockFromSales (sales : list Sale) :
  (forall v l, proj (set_STOCK_KEY v l) = proj l) ->
  (forall v l, proj (set_STOCK_MOVEMENTS_KEY v l) = proj l) ->
  keeps proj (updateStockFromSales sales).
Proof.
  intros Hs Hm. unfold updateStockFromSales. frame.
  - apply keeps_getStock.
  - apply keeps_reconcile_entries.
  - apply keeps_saveStock, Hs.
  - apply keeps_addStockMovement, Hm.
Qed.

Lemma keeps_sales_writers (sale : Sale) (id : jsstring) :
  (forall v l, proj (set_STORAGE_KEY v l) = proj l) ->
  keeps proj (updateSale sale) /\ keeps proj (deleteSale id).
Proof.
  intros H. unfold updateSale, deleteSale.
  split; frame; try apply keeps_isReadOnlyMode;
    try (apply keeps_via_supabase, keeps_supabaseStorage);
    try apply keeps_getSales; apply keeps_saveSales, H.
Qed.

Lemma keeps_stock_writers (item : StockItem) (id : jsstring) :
  (forall v l, proj (set_STOCK_KEY v l) = proj l) ->
  keeps proj (addStockItem item) /\ keeps proj (updateStockItem item)
  /\ keeps proj (deleteStockItem id).
Proof.
  intros H. unfold addStockItem, updateStockItem, deleteStockItem.
  repeat split; frame; try apply keeps_isReadOnlyMode;
    try (apply keeps_via_supabase, keeps_supabaseStorage);
    try apply keeps_getStock; apply keeps_saveStock, H.
Qed.

Lemma keeps_migrateDataToSupabase :
  (forall v l, proj (set_MIGRATION_KEY v l) = proj l) ->
  keeps proj migrateDataToSupabase.
Proof.
  intros H. unfold migrateDataToSupabase. frame.
  - apply keeps_shouldUseSupabase.
  - apply keeps_supabaseStorage.
  - apply keeps_setItem. intros l. apply H.
Qed.

End RemoteFrame.

(** ** The facade when the read-only flag is off *)

Section Writable.
Context {rt : JsRuntime} {R : Type} {sb : Supabase R}.

Lemma flag_kept {A} (m : M R A) (w : World R) :
  keeps READ_ONLY_KEY m ->
  read_only (local (snd (m w))) = read_only (local w).
Proof. intros H. unfold read_only. rewrite H. reflexivity. Qed.

Lemma quiet_ret {A} (a : A) : returns_when_writable (ret a : M R A).
Proof. intros w Hw. exists a, w. auto. Qed.

Lemma quiet_bind {A B} (m : M R A) (k : A -> M R B) :
  returns_when_writable m -> (forall a, returns_when_writable (k a)) ->
  returns_when_writable (bind m k).
Proof.
  intros Hm Hk w Hw. destruct (Hm w Hw) as (a & w1 & Hrun & Hw1).
  destruct (Hk a w1 Hw1) as (b & w2 & Hrun2 & Hw2).
  exists b, w2. unfold bind. rewrite Hrun. auto.
Qed.

Lemma quiet_via_supabase {A} (m : M R A) :
  keeps READ_ONLY_KEY m -> returns_when_writable (via_supabase m).
Proof.
  intros Hm w Hw. destruct (via_supabase_returns m w) as (r & w' & Hrun).
  exists r, w'. split; [exact Hrun|].
  pose proof (flag_kept (via_supabase m) w
                (keeps_via_supabase READ_ONLY_KEY m Hm)) as Hk.
  rewrite Hrun in Hk. cbn [snd] in Hk. congruence.
Qed.

Lemma quiet_try_ignore (m : M R unit) :
  keeps READ_ONLY_KEY m ->
  returns_when_writable (try m catch (fun _ => ret tt)).
Proof.
  intros Hm w Hw. pose proof (flag_kept m w Hm) as Hk.
  unfold try_catch, ret. destruct (m w) as [[[]|e] w1]; cbn [snd] in Hk;
    exists tt, w1; split; congruence.
Qed.

Lemma quiet_guard (k : M R unit) :
  returns_when_writable k ->
  returns_when_writable
    (ro <- isReadOnlyMode ;;
     if ro then throw (Error read_only_message) else k).
Proof.
  intros Hk w Hw. unfold bind. rewrite isReadOnlyMode_run, Hw.
  apply Hk, Hw.
Qed.

Lemma quiet_getSales : returns_when_writable getSales.
Proof. intros w Hw. destruct (getSales_run w) as (l & H & _). eauto. Qed.

Lemma quiet_getStock : returns_when_writable getStock.
Proof. intros w Hw. destruct (getStock_run w) as (l & H & _). eauto. Qed.

Lemma quiet_getStockMovements : returns_when_writable getStockMovements.
Proof.
  intros w Hw. destruct (getStockMovements_run w) as (l & H & _). eauto.
Qed.

Lemma quiet_randomUUID : returns_when_writable (randomUUID : M R jsstring).
Proof. intros w Hw. eexists _, _. split; [reflexivity | exact Hw]. Qed.


Lemma quiet_for_each {A} (f : A -> M R unit) (l : list A) :
  (forall a, returns_when_writable (f a)) ->
  returns_when_writable (for_each l f).
Proof.
  intros Hf. induction l as [|a l IH]; cbn [for_each].
  - apply quiet_ret.
  - apply quiet_bind; [apply Hf | intros _; exact IH].
Qed.

End Writable.

Ltac quiet_step :=
  match goal with
  | |- returns_when_writable (bind isReadOnlyMode _) => apply quiet_guard
  | |- returns_when_writable (bind _ _) => apply quiet_bind; [|intros ?]
  | |- returns_when_writable (ret _) => apply quiet_ret
  | |- returns_when_writable (via_supabase _) => apply quiet_via_supabase
  | |- returns_when_writable (try_catch _ _) => apply quiet_try_ignore
  | |- returns_when_writable getSales => apply quiet_getSales
  | |- returns_when_writable getStock => apply quiet_getStock
  | |- returns_when_writable getStockMovements => apply quiet_getStockMovements
  | |- returns_when_writable randomUUID => apply quiet_randomUUID
  | |- returns_when_writable (for_each _ _) => apply quiet_for_each; intros ?
  | |- returns_when_writable (match ?x with _ => _ end) => destruct x
  | |- keeps _ _ => first [ apply keeps_supabaseStorage | frame_step ]
  end.

Ltac quiet := repeat quiet_step.

Section WritableFacade.
Context {rt : JsRuntime} {R : Type} {sb : Supabase R}.


Lemma quiet_saveStock (stock : list StockItem) :
  returns_when_writable (saveStock stock).
Proof. unfold saveStock. quiet. Qed.

Lemma quiet_addStockMovement (movement : StockMovement) :
  returns_when_writable (addStockMovement movement).
Proof. unfold addStockMovement. quiet. Qed.

Lemma quiet_updateStockFromSale (sale : Sale) :
  returns_when_writable (updateStockFromSale sale).
Proof.
  unfold updateStockFromSale. quiet.
  - apply quiet_saveStock.
  - apply quiet_addStockMovement.
Qed.


End WritableFacade.



(** ** The facade on local storage and with a session *)

Section FacadeRuns.
Context {rt : JsRuntime} {R : Type} {sb : Supabase R}.

(** The opening shared by the writing operations, once the read-only test
    is passed. *)
Lemma guarded_run (remote_branch fallback : M R unit) (w : World R) :
  read_only (local w) = false ->
  (ro <- isReadOnlyMode ;;
   if ro then throw (Error read_only_message)
   else r <- via_supabase remote_branch ;;
        match r with
        | Some _ => ret tt
        | None => fallback
        end) w
  = if authenticated (remote w)
    then match remote_branch w with
         | (Return _, w1) => (Return tt, w1)
         | (Throw _, w1) => fallback w1
         end
    else fallback w.
Proof.
  intros Hw. unfold bind at 1. rewrite isReadOnlyMode_run, Hw.
  unfold via_supabase, try_catch, bind, ret. rewrite shouldUseSupabase_run.
  destruct (authenticated (remote w)); [|reflexivity].
  destruct (remote_branch w) as [[a|e] w1]; reflexivity.
Qed.

Lemma local_path_set (w : World R) (l : LocalStorage) (d : nat) :
  local_path w -> READ_ONLY_KEY l = READ_ONLY_KEY (local w) ->
  ls_full l = ls_full (local w) ->
  local_path (mkWorld l (remote w) d).
Proof.
  intros (Ha & Hro & Hfull) Hk Hf. unfold local_path, read_only in *.
  cbn [local remote]. rewrite Hk, Hf. auto.
Qed.

Lemma saveSales_local (sales : list Sale) (w : World R) :
  local_path w ->
  saveSales sales w
  = (Return tt,
     mkWorld (set_STORAGE_KEY (Json sales) (local w)) (remote w) (draws w)).
Proof.
  intros (Ha & Hro & Hfull). rewrite saveSales_run, Hro. unfold after_save.
  rewrite Hfull. reflexivity.
Qed.

Lemma saveStock_local (stock : list StockItem) (w : World R) :
  local_path w ->
  saveStock stock w
  = (Return tt,
     mkWorld (set_STOCK_KEY (Json stock) (local w)) (remote w) (draws w)).
Proof.
  intros (Ha & Hro & Hfull). rewrite saveStock_run, Hro. unfold after_save.
  rewrite Hfull. reflexivity.
Qed.

Lemma getSales_local (w : World R) :
  local_path w -> getSales w = (Return (stored (STORAGE_KEY (local w))), w).
Proof.
  intros (Ha & _). destruct (getSales_run w) as (l & H & Hl).
  rewrite H, (Hl Ha). reflexivity.
Qed.

Lemma getStock_local (w : World R) :
  local_path w -> getStock w = (Return (stored (STOCK_KEY (local w))), w).
Proof.
  intros (Ha & _). destruct (getStock_run w) as (l & H & Hl).
  rewrite H, (Hl Ha). reflexivity.
Qed.


End FacadeRuns.



(** X3. With a session and the flag off, a sale whose remote insertion
    succeeds is not written to local storage at all: the local sales, the
    local stock and the local log are as before.  When the insertion fails,
    [addSale] still returns: the error is dropped and, if local storage has
    room, the sales key is rewritten with the list [getSales] returns
    followed by the sale. *)
Theorem addSale_with_session :
  forall (rt : JsRuntime) (R : Type) (sb : Supabase R) (w : World R)
         (sale : Sale),
    authenticated (remote w) = true ->
    read_only (local w) = false ->
    (forall w1, addSaleToSupabase sale w = (Return tt, w1) ->
                addSale sale w = (Return tt, w1) /\ local w1 = local w)
    /\ (forall e w1, addSaleToSupabase sale w = (Throw e, w1) ->
                     exists l w',
                       getSales w1 = (Return l, w1)
                       /\ addSale sale w = (Return tt, w')
                       /\ (ls_full (local w) = false ->
                           STORAGE_KEY (local w') = Json (l ++ [sale]))).
Proof.
  intros rt R sb w sale Ha Hro.
  pose proof (proj1 (proj2 (keeps_supabaseStorage (fun l => l))) sale w)
    as Hlocal.
  split.
  - intros w1 Hrun. unfold addSale. rewrite guarded_run by exact Hro.
    rewrite Ha, Hrun. rewrite Hrun in Hlocal. auto.
  - intros e w1 Hrun. rewrite Hrun in Hlocal. cbn [snd] in Hlocal.
    destruct (getSales_run w1) as (l & Hget & _).
    unfold addSale. rewrite guarded_run by exact Hro. rewrite Ha, Hrun.
    unfold bind at 1. rewrite Hget.
    unfold bind at 1. rewrite saveSales_run, Hlocal, Hro.
    set (w2 := after_save _ w1).
    assert (read_only (local w2) = false) as Hro2.
    { subst w2. unfold after_save, read_only in *. cbn [local].
      rewrite Hlocal. destruct (ls_full (local w)); exact Hro. }
    destruct (quiet_updateStockFromSale sale w2 Hro2)
      as ([] & w' & Hrun' & _).
    exists l, w'. split; [reflexivity|]. split; [exact Hrun'|].
    intros Hfull.
    pose proof (keeps_updateStockFromSale STORAGE_KEY sale
                  ltac:(reflexivity) ltac:(reflexivity)) as Hkeeps.
    specialize (Hkeeps w2). rewrite Hrun' in Hkeeps. cbn [snd] in Hkeeps.
    rewrite Hkeeps. subst w2. unfold after_save. cbn [local].
    rewrite Hlocal, Hfull. reflexivity.
Qed.

(** A signed-in user whose insertion succeeds, on the reference backend. *)
Lemma addSale_with_session_witness :
  let sale :=
    mkSale (js "s1") (js "2024-03-15") (js "Client") (js "Coca-Cola") (Fin 5)
      (Fin 1.5) (Fin 7.5) (js "Carte") Missing Missing Missing Missing in
  let w :=
    mkWorld (mkLocalStorage Absent Absent Absent None None false)
      (Reference.mkMemoryDb (Some (mkUser (js "u1"))) true [] [] [])
      0%nat in
  let w1 :=
    mkWorld (local w)
      (Reference.mkMemoryDb (Some (mkUser (js "u1"))) true [sale] [] [])
      0%nat in
  @addSale Reference.utc_host _ Reference.memory_backend sale w
  = (Return tt, w1)
  /\ local w1 = local w.
Proof.
  intros sale w w1.
  exact (proj1 (addSale_with_session Reference.utc_host _
                  Reference.memory_backend w sale eq_refl eq_refl)
           w1 eq_refl).
Defined.

(** ** Updating a sale, stock items, flags and first start *)

Section ItemRuns.
Context {rt : JsRuntime} {R : Type} {sb : Supabase R}.

Lemma updateSale_local (updatedSale : Sale) (w : World R) :
  local_path w ->
  updateSale updatedSale w
  = (Return tt,
     mkWorld
       (set_STORAGE_KEY
          (Json (map (fun sale =>
                        if str_eqb (sale_id sale) (sale_id updatedSale)
                        then updatedSale else sale)
                   (stored (STORAGE_KEY (local w))))) (local w))
       (remote w) (draws w)).
Proof.
  intros Hw. pose proof Hw as (Ha & Hro & Hfull).
  unfold updateSale. rewrite guarded_run by exact Hro. rewrite Ha.
  unfold bind at 1. rewrite getSales_local by exact Hw.
  apply saveSales_local, Hw.
Qed.

Lemma addStockItem_local (item : StockItem) (w : World R) :
  local_path w ->
  addStockItem item w
  = (Return tt,
     mkWorld
       (set_STOCK_KEY (Json (stored (STOCK_KEY (local w)) ++ [item]))
          (local w))
       (remote w) (draws w)).
Proof.
  intros Hw. pose proof Hw as (Ha & Hro & Hfull).
  unfold addStockItem. rewrite guarded_run by exact Hro. rewrite Ha.
  unfold bind at 1. rewrite getStock_local by exact Hw.
  apply saveStock_local, Hw.
Qed.

Lemma deleteStockItem_local (id : jsstring) (w : World R) :
  local_path w ->
  deleteStockItem id w
  = (Return tt,
     mkWorld
       (set_STOCK_KEY
          (Json (filter (fun item => negb (str_eqb (item_id item) id))
                   (stored (STOCK_KEY (local w))))) (local w))
       (remote w) (draws w)).
Proof.
  intros Hw. pose proof Hw as (Ha & Hro & Hfull).
  unfold deleteStockItem. rewrite guarded_run by exact Hro. rewrite Ha.
  unfold bind at 1. rewrite getStock_local by exact Hw.
  apply saveStock_local, Hw.
Qed.

Lemma updateStockItem_local (updatedItem : StockItem) (w : World R) :
  local_path w ->
  updateStockItem updatedItem w
  = (Return tt,
     mkWorld
       (set_STOCK_KEY
          (Json (map (fun item =>
                        if str_eqb (item_id item) (item_id updatedItem)
                        then updatedItem else item)
                   (stored (STOCK_KEY (local w))))) (local w))
       (remote w) (draws w)).
Proof.
  intros Hw. pose proof Hw as (Ha & Hro & Hfull).
  unfold updateStockItem. rewrite guarded_run by exact Hro. rewrite Ha.
  unfold bind at 1. rewrite getStock_local by exact Hw.
  apply saveStock_local, Hw.
Qed.

End ItemRuns.

Lemma map_replace_absent {A} (same : A -> bool) (new : A) (l : list A) :
  (forall x, In x l -> same x = false) ->
  map (fun x => if same x then new else x) l = l.
Proof.
  induction l as [|a l IH]; intros H; cbn [map]; [reflexivity|].
  rewrite (H a) by (left; reflexivity).
  rewrite IH by (intros x Hx; apply H; right; exact Hx). reflexivity.
Qed.

Lemma filter_keep_all {A} (p : A -> bool) (l : list A) :
  (forall x, In x l -> p x = true) -> filter p l = l.
Proof.
  induction l as [|a l IH]; intros H; cbn [filter]; [reflexivity|].
  rewrite (H a) by (left; reflexivity).
  rewrite IH by (intros x Hx; apply H; right; exact Hx). reflexivity.
Qed.

Lemma filter_twice {A} (p : A -> bool) (l : list A) :
  filter p (filter p l) = filter p l.
Proof.
  apply filter_keep_all. intros x Hx. apply filter_In in Hx. apply Hx.
Qed.

Lemma str_eqb_neq (a b : jsstring) : a <> b -> str_eqb a b = false.
Proof.
  intros H. destruct (str_eqb a b) eqn:E; [|reflexivity].
  apply str_eqb_eq in E. contradiction.
Qed.

(** X4. [updateSale] never touches the stock key nor the movement key of
    local storage, whatever the state: changing the quantity or the product
    of a sale adjusts no stock.  Without a session it replaces, in place,
    every stored sale that has the identifier of the new one; the number of
    stored sales is unchanged, and when no stored sale has that identifier
    the list is rewritten as it was: nothing is added. *)
Theorem updateSale_replaces_in_place :
  forall (R : Type) (sb : Supabase R) (w : World R) (updatedSale : Sale),
    (forall o w', updateSale updatedSale w = (o, w') ->
                  STOCK_KEY (local w') = STOCK_KEY (local w)
                  /\ STOCK_MOVEMENTS_KEY (local w')
                     = STOCK_MOVEMENTS_KEY (local w))
    /\ (authenticated (remote w) = false ->
        read_only (local w) = false ->
        ls_full (local w) = false ->
        let old := stored (STORAGE_KEY (local w)) in
        exists w',
          updateSale updatedSale w = (Return tt, w')
          /\ remote w' = remote w
          /\ STORAGE_KEY (local w')
             = Json (map (fun sale =>
                            if str_eqb (sale_id sale) (sale_id updatedSale)
                            then updatedSale else sale) old)
          /\ List.length (stored (STORAGE_KEY (local w'))) = List.length old
          /\ ((forall sale, In sale old ->
                            sale_id sale <> sale_id updatedSale) ->
              stored (STORAGE_KEY (local w')) = old)).
Proof.
  intros R sb w updatedSale. split.
  - intros o w' Hrun.
    pose proof (proj1 (keeps_sales_writers STOCK_KEY updatedSale []
                         ltac:(reflexivity)) w) as H1.
    pose proof (proj1 (keeps_sales_writers STOCK_MOVEMENTS_KEY updatedSale
                         [] ltac:(reflexivity)) w) as H2.
    rewrite Hrun in H1, H2. auto.
  - intros Ha Hro Hfull old.
    rewrite updateSale_local by (repeat split; assumption).
    eexists. split; [reflexivity|].
    cbn [local remote set_STORAGE_KEY STORAGE_KEY stored]. fold old.
    split; [reflexivity|]. split; [reflexivity|].
    split; [apply length_map|].
    intros Hnone. apply map_replace_absent. intros sale Hin.
    apply str_eqb_neq, Hnone, Hin.
Qed.

(** Two stored sales; the first is updated. *)
Lemma updateSale_replaces_in_place_witness :
  let s1 :=
    mkSale (js "s1") (js "2024-03-15") (js "Client") (js "Coca-Cola") (Fin 5)
      (Fin 1.5) (Fin 7.5) (js "Carte") Missing Missing Missing Missing in
  let s2 :=
    mkSale (js "s2") (js "2024-03-16") (js "Client") (js "Fanta") (Fin 1)
      (Fin 1.5) (Fin 1.5) (js "Carte") Missing Missing Missing Missing in
  let s1' :=
    mkSale (js "s1") (js "2024-03-15") (js "Client") (js "Coca-Cola") (Fin 9)
      (Fin 1.5) (Fin 13.5) (js "Carte") Missing Missing Missing Missing in
  let w :=
    mkWorld (mkLocalStorage (Json [s1; s2]) Absent Absent None None false)
      Reference.signed_out 0%nat in
  exists w',
    @updateSale _ Reference.memory_backend s1' w = (Return tt, w')
    /\ STORAGE_KEY (local w') = Json [s1'; s2].
Proof.
  intros s1 s2 s1' w.
  destruct (proj2 (updateSale_replaces_in_place _ Reference.memory_backend w
                     s1') eq_refl eq_refl eq_refl)
    as (w' & Hrun & _ & Hkey & _).
  exists w'. split; [exact Hrun | exact Hkey].
Defined.

(** X5. Stock items in local storage (no session, flag off, room in
    storage).  After [addStockItem], [getStock] returns the former list
    followed by the item.  [deleteStockItem] with the item's identifier
    then leaves the former items that have another identifier, which is the
    former list when the identifier was new; a second deletion changes
    nothing.  The sales key and the movement key are untouched throughout,
    so the movements that refer to a deleted item stay in the log. *)
Theorem stock_items_add_then_delete :
  forall (R : Type) (sb : Supabase R) (w : World R) (item : StockItem),
    authenticated (remote w) = false ->
    read_only (local w) = false ->
    ls_full (local w) = false ->
    let stock := stored (STOCK_KEY (local w)) in
    let id := item_id item in
    let others := filter (fun i => negb (str_eqb (item_id i) id)) stock in
    exists w1 w2,
      addStockItem item w = (Return tt, w1)
      /\ getStock w1 = (Return (stock ++ [item]), w1)
      /\ deleteStockItem id w1 = (Return tt, w2)
      /\ getStock w2 = (Return others, w2)
      /\ deleteStockItem id w2 = (Return tt, w2)
      /\ ((forall i, In i stock -> item_id i <> id) -> others = stock)
      /\ STORAGE_KEY (local w2) = STORAGE_KEY (local w)
      /\ STOCK_MOVEMENTS_KEY (local w2) = STOCK_MOVEMENTS_KEY (local w)
      /\ remote w2 = remote w.
Proof.
  intros R sb w item Ha Hro Hfull stock id others.
  assert (local_path w) as Hw by (repeat split; assumption).
  set (w1 := mkWorld (set_STOCK_KEY (Json (stock ++ [item])) (local w))
               (remote w) (draws w)).
  set (w2 := mkWorld (set_STOCK_KEY (Json others) (local w1)) (remote w)
               (draws w)).
  assert (local_path w1) as Hw1
      by (apply (local_path_set w); [exact Hw | reflexivity | reflexivity]).
  assert (local_path w2) as Hw2
      by (apply (local_path_set w); [exact Hw | reflexivity | reflexivity]).
  assert (filter (fun i => negb (str_eqb (item_id i) id)) (stock ++ [item])
          = others) as Hfilter.
  { rewrite filter_app. cbn [filter]. unfold id at 2.
    rewrite str_eqb_refl. cbn [negb]. apply app_nil_r. }
  exists w1, w2.
  split; [apply addStockItem_local, Hw|].
  split; [rewrite getStock_local by exact Hw1; reflexivity|].
  split.
  { rewrite (deleteStockItem_local id w1 Hw1).
    cbn [local w1 set_STOCK_KEY STOCK_KEY stored]. rewrite Hfilter.
    reflexivity. }
  split; [rewrite getStock_local by exact Hw2; reflexivity|].
  split.
  { rewrite (deleteStockItem_local id w2 Hw2).
    cbn [local w2 set_STOCK_KEY STOCK_KEY stored]. unfold others.
    rewrite filter_twice. reflexivity. }
  split.
  { intros Hnew. apply filter_keep_all. intros i Hi.
    rewrite str_eqb_neq by (apply Hnew, Hi). reflexivity. }
  repeat split.
Qed.

(** The sample item 2 is added to a store that holds item 1, then
    deleted. *)
Lemma stock_items_add_then_delete_witness :
  let fanta :=
    mkStockItem (js "1") (js "Fanta Orange") (js "Boissons") (js "Sodas")
      (Fin 48) (Fin 5) (Fin 100) (Fin 1.5) in
  let cola :=
    mkStockItem (js "2") (js "Coca-Cola") (js "Boissons") (js "Sodas")
      (Fin 77) (Fin 5) (Fin 150) (Fin 1.5) in
  let w :=
    mkWorld (mkLocalStorage Absent (Json [fanta]) Absent None None false)
      Reference.signed_out 0%nat in
  exists w1 w2,
    @addStockItem _ Reference.memory_backend cola w = (Return tt, w1)
    /\ @getStock _ Reference.memory_backend w1 = (Return [fanta; cola], w1)
    /\ @deleteStockItem _ Reference.memory_backend (js "2") w1
       = (Return tt, w2)
    /\ @getStock _ Reference.memory_backend w2 = (Return [fanta], w2).
Proof.
  intros fanta cola w.
  destruct (stock_items_add_then_delete _ Reference.memory_backend w cola
              eq_refl eq_refl eq_refl)
    as (w1 & w2 & Hadd & Hget1 & Hdel & Hget2 & _).
  exists w1, w2. split; [exact Hadd|]. split; [exact Hget1|].
  split; [exact Hdel | exact Hget2].
Defined.

(** X6. [setReadOnlyMode] is not subject to the read-only test.  When local
    storage is full it throws and changes nothing; otherwise it returns,
    [isReadOnlyMode] then answers the value that was set, the data keys, the
    migration flag and the remote state are as before, and once the mode is
    on [addSale] is refused. *)
Theorem setReadOnlyMode_then_isReadOnlyMode :
  forall (rt : JsRuntime) (R : Type) (sb : Supabase R) (w : World R)
         (enabled : bool),
    (ls_full (local w) = true ->
     setReadOnlyMode enabled w = (Throw QuotaExceededError, w))
    /\ (ls_full (local w) = false ->
        exists w',
          setReadOnlyMode enabled w = (Return tt, w')
          /\ isReadOnlyMode w' = (Return enabled, w')
          /\ data_keys (local w') = data_keys (local w)
          /\ MIGRATION_KEY (local w') = MIGRATION_KEY (local w)
          /\ remote w' = remote w
          /\ (enabled = true ->
              forall sale,
                addSale sale w' = (Throw (Error read_only_message), w'))).
Proof.
  intros rt R sb w enabled. unfold setReadOnlyMode. rewrite setItem_run.
  split; intros Hfull; rewrite Hfull; [reflexivity|].
  eexists. split; [reflexivity|].
  split; [destruct enabled; reflexivity|].
  repeat split. intros -> sale. apply read_only_throws. reflexivity.
Qed.

(** The mode is switched on in an empty store, then off again. *)
Lemma setReadOnlyMode_then_isReadOnlyMode_witness :
  let w := mkWorld Reference.empty_storage Reference.signed_out 0%nat in
  exists w1 w2,
    setReadOnlyMode true w = (Return tt, w1)
    /\ isReadOnlyMode w1 = (Return true, w1)
    /\ setReadOnlyMode false w1 = (Return tt, w2)
    /\ isReadOnlyMode w2 = (Return false, w2).
Proof.
  intros w.
  destruct (proj2 (setReadOnlyMode_then_isReadOnlyMode Reference.utc_host _
                     Reference.memory_backend w true) eq_refl)
    as (w1 & Hset & Hget & _).
  exists w1.
  assert (ls_full (local w1) = false) as Hfull
      by (unfold setReadOnlyMode in Hset; rewrite setItem_run in Hset;
          inversion Hset; reflexivity).
  destruct (proj2 (setReadOnlyMode_then_isReadOnlyMode Reference.utc_host _
                     Reference.memory_backend w1 false) Hfull)
    as (w2 & Hset2 & Hget2 & _).
  exists w2. auto.
Defined.

(** X7. With the read-only flag off, [clearAllData] returns, whether or
    not local storage is full.  It removes the three data keys and the
    migration flag, keeps the read-only flag and sends nothing to the
    backend: without a session the three readers then return the empty
    list, and with a session whose request succeeds [getSales] returns the
    remote rows as before. *)
Theorem clearAllData_clears_local_storage_only :
  forall (R : Type) (sb : Supabase R) (w : World R),
    read_only (local w) = false ->
    exists w',
      clearAllData w = (Return tt, w')
      /\ remote w' = remote w
      /\ data_keys (local w') = (Absent, Absent, Absent)
      /\ MIGRATION_KEY (local w') = None
      /\ READ_ONLY_KEY (local w') = READ_ONLY_KEY (local w)
      /\ (authenticated (remote w) = false ->
          getSales w' = (Return [], w')
          /\ getStock w' = (Return [], w')
          /\ getStockMovements w' = (Return [], w'))
      /\ (forall data,
             authenticated (remote w) = true ->
             sales_select (remote w) = Return (inl data) ->
             getSales w' = (Return data, w')).
Proof.
  intros R sb w Hro. unfold clearAllData. unfold bind at 1.
  rewrite isReadOnlyMode_run, Hro. unfold bind, get_local, put_local.
  eexists. split; [reflexivity|]. cbn [local remote].
  repeat split.
  - destruct (getSales_run
                (mkWorld (mkLocalStorage Absent Absent Absent
                            (READ_ONLY_KEY (local w)) None (ls_full (local w)))
                   (remote w) (draws w))) as (l & Hrun & Hl).
    rewrite Hrun, (Hl H). reflexivity.
  - destruct (getStock_run
                (mkWorld (mkLocalStorage Absent Absent Absent
                            (READ_ONLY_KEY (local w)) None (ls_full (local w)))
                   (remote w) (draws w))) as (l & Hrun & Hl).
    rewrite Hrun, (Hl H). reflexivity.
  - destruct (getStockMovements_run
                (mkWorld (mkLocalStorage Absent Absent Absent
                            (READ_ONLY_KEY (local w)) None (ls_full (local w)))
                   (remote w) (draws w))) as (l & Hrun & Hl).
    rewrite Hrun, (Hl H). reflexivity.
  - intros data Ha Hsel. unfold getSales, via_supabase.
    unfold bind at 1. unfold try_catch at 1. unfold bind at 1.
    rewrite shouldUseSupabase_run. cbn [remote]. rewrite Ha.
    unfold getSalesFromSupabase, try_catch, bind, remote_read, data_or_throw,
      ret. cbn [remote]. rewrite Hsel. reflexivity.
Qed.

(** A local store with one sale is cleared. *)
Lemma clearAllData_clears_local_storage_only_witness :
  let s1 :=
    mkSale (js "s1") (js "2024-03-15") (js "Client") (js "Coca-Cola") (Fin 5)
      (Fin 1.5) (Fin 7.5) (js "Carte") Missing Missing Missing Missing in
  let w :=
    mkWorld (mkLocalStorage (Json [s1]) Absent Absent None (Some (js "true"))
               false) Reference.signed_out 0%nat in
  exists w',
    @clearAllData _ w = (Return tt, w')
    /\ @getSales _ Reference.memory_backend w' = (Return [], w')
    /\ MIGRATION_KEY (local w') = None.
Proof.
  intros s1 w.
  destruct (clearAllData_clears_local_storage_only _ Reference.memory_backend
              w eq_refl)
    as (w' & Hrun & _ & _ & Hflag & _ & Hread & _).
  exists w'. split; [exact Hrun|]. split; [apply Hread; reflexivity|].
  exact Hflag.
Defined.

(** ** First start and migration *)

Section Start.
Context {R : Type} {sb : Supabase R}.

Lemma initializeStorage_runs (w : World R) :
  exists sales : list Sale,
    getSales w = (Return sales, w)
    /\ (authenticated (remote w) = false ->
        sales = stored (STORAGE_KEY (local w)))
    /\ initializeStorage w =
       if read_only (local w) then (Return tt, w)
       else
         let w1 :=
           if is_empty sales then after_save (set_STORAGE_KEY (Json [])) w
           else w in
         match getStock w1 with
         | (Return stock, _) =>
             (Return tt,
              if is_empty stock
              then after_save (set_STOCK_KEY (Json generateSampleStock)) w1
              else w1)
         | (Throw _, w2) => (Return tt, w2)
         end.
Proof.
  destruct (getSales_run w) as (sales & Hsales & Hlocal).
  destruct (getStock_run w) as (stock & Hstock & _).
  exists sales. split; [exact Hsales|]. split; [exact Hlocal|].
  unfold initializeStorage, try_catch. unfold bind at 1. rewrite Hsales.
  unfold bind at 1.
  destruct (read_only (local w)) eqn:Hro.
  - destruct (is_empty sales).
    + rewrite saveSales_run, Hro. reflexivity.
    + unfold ret at 1. unfold bind at 1. rewrite Hstock.
      destruct (is_empty stock); [|reflexivity].
      rewrite saveStock_run, Hro. reflexivity.
  - assert (forall w1 : World R,
              read_only (local w1) = false ->
              (stock0 <- getStock ;;
               (if is_empty stock0 then saveStock generateSampleStock
                else ret tt)) w1
              = match getStock w1 with
                | (Return stock0, _) =>
                    (Return tt,
                     if is_empty stock0
                     then after_save
                            (set_STOCK_KEY (Json generateSampleStock)) w1
                     else w1)
                | (Throw e, w2) => (Throw e, w2)
                end) as Hrest.
    { intros w1 Hro1. unfold bind.
      destruct (getStock_run w1) as (stock1 & -> & _).
      destruct (is_empty stock1); [|reflexivity].
      rewrite saveStock_run, Hro1. reflexivity. }
    destruct (is_empty sales).
    + rewrite saveSales_run, Hro.
      assert (read_only (local (after_save (set_STORAGE_KEY (Json [])) w))
              = false) as Hro1.
      { unfold after_save, read_only in *. cbn [local].
        destruct (ls_full (local w)); exact Hro. }
      rewrite Hrest by exact Hro1.
      destruct (getStock (after_save (set_STORAGE_KEY (Json [])) w))
        as [[stock1|e] w2]; reflexivity.
    + unfold ret at 1. rewrite Hrest by exact Hro.
      destruct (getStock w) as [[stock1|e] w2]; reflexivity.
Qed.

End Start.

(** X8. [initializeStorage] never throws.  With the read-only flag on it
    changes nothing.  Without a session (flag off, room in local storage)
    it writes the empty list under the sales key when no sale is stored,
    writes the four sample items under the stock key when no stock item is
    stored, and otherwise leaves each key as it is; the movement key and the
    remote state are untouched. *)
Theorem initializeStorage_seeds_an_empty_store :
  forall (R : Type) (sb : Supabase R) (w : World R),
    (exists w', initializeStorage w = (Return tt, w'))
    /\ (read_only (local w) = true -> initializeStorage w = (Return tt, w))
    /\ (authenticated (remote w) = false ->
        read_only (local w) = false ->
        ls_full (local w) = false ->
        exists w',
          initializeStorage w = (Return tt, w')
          /\ remote w' = remote w
          /\ STORAGE_KEY (local w')
             = (if is_empty (stored (STORAGE_KEY (local w))) then Json []
                else STORAGE_KEY (local w))
          /\ STOCK_KEY (local w')
             = (if is_empty (stored (STOCK_KEY (local w)))
                then Json generateSampleStock
                else STOCK_KEY (local w))
          /\ STOCK_MOVEMENTS_KEY (local w') = STOCK_MOVEMENTS_KEY (local w)).
Proof.
  intros R sb w.
  destruct (initializeStorage_runs w) as (sales & Hsales & Hlocal & Hrun).
  split; [|split].
  - rewrite Hrun. destruct (read_only (local w)); [eauto|]. cbv zeta.
    match goal with
    | |- context [getStock ?w1] => destruct (getStock w1) as [[s|e] w2]
    end; eauto.
  - intros Hro. rewrite Hrun, Hro. reflexivity.
  - intros Ha Hro Hfull. rewrite Hrun, Hro. cbv zeta.
    rewrite (Hlocal Ha).
    assert (forall w1 : World R,
              authenticated (remote w1) = false ->
              getStock w1 = (Return (stored (STOCK_KEY (local w1))), w1))
      as Hget.
    { intros w1 Ha1. destruct (getStock_run w1) as (l & H & Hl).
      rewrite H, (Hl Ha1). reflexivity. }
    unfold after_save. rewrite Hfull.
    destruct (is_empty (stored (STORAGE_KEY (local w)))).
    + rewrite Hget by exact Ha.
      cbn [local remote draws set_STORAGE_KEY STOCK_KEY ls_full].
      rewrite Hfull.
      destruct (is_empty (stored (STOCK_KEY (local w))));
        eexists; split; try reflexivity; cbn; auto.
    + rewrite Hget by exact Ha. rewrite Hfull.
      destruct (is_empty (stored (STOCK_KEY (local w))));
        eexists; split; try reflexivity; cbn; auto.
Qed.

(** An empty local store is seeded; a second run changes nothing more. *)
Lemma initializeStorage_seeds_an_empty_store_witness :
  let w := mkWorld Reference.empty_storage Reference.signed_out 0%nat in
  exists w',
    @initializeStorage _ Reference.memory_backend w = (Return tt, w')
    /\ STORAGE_KEY (local w') = Json []
    /\ STOCK_KEY (local w') = Json generateSampleStock
    /\ @initializeStorage _ Reference.memory_backend w' = (Return tt, w').
Proof.
  intros w.
  destruct (proj2 (proj2 (initializeStorage_seeds_an_empty_store _
                            Reference.memory_backend w))
              eq_refl eq_refl eq_refl)
    as (w' & Hrun & _ & Hsales & Hstock & _).
  exists w'. split; [exact Hrun|]. split; [exact Hsales|].
  split; [exact Hstock|].
  vm_compute in Hrun. inversion Hrun. vm_compute. reflexivity.
Defined.

(** X9. With a session whose sales table is empty (flag off, room in local
    storage), [initializeStorage] replaces whatever local storage held under
    the sales key by the empty list; when the stock table is empty as well
    it replaces the local stock by the four sample items.  Nothing is sent
    to the backend. *)
Theorem initializeStorage_overwrites_local_data :
  forall (R : Type) (sb : Supabase R) (w : World R),
    authenticated (remote w) = true ->
    read_only (local w) = false ->
    ls_full (local w) = false ->
    sales_select (remote w) = Return (inl []) ->
    exists w',
      initializeStorage w = (Return tt, w')
      /\ remote w' = remote w
      /\ STORAGE_KEY (local w') = Json []
      /\ (stock_select (remote w) = Return (inl []) ->
          STOCK_KEY (local w') = Json generateSampleStock).
Proof.
  intros R sb w Ha Hro Hfull Hsel.
  destruct (initializeStorage_runs w) as (sales & Hsales & _ & Hrun).
  assert (sales = []) as ->.
  { unfold getSales, via_supabase in Hsales.
    unfold bind at 1 in Hsales. unfold try_catch at 1 in Hsales.
    unfold bind at 1 in Hsales. rewrite shouldUseSupabase_run, Ha in Hsales.
    unfold getSalesFromSupabase, try_catch, bind, remote_read, data_or_throw,
      ret in Hsales. rewrite Hsel in Hsales. inversion Hsales. reflexivity. }
  rewrite Hrun, Hro. cbv zeta. cbn [is_empty]. unfold after_save.
  rewrite Hfull. set (w1 := mkWorld _ _ _).
  destruct (getStock_run w1) as (stock1 & Hstock & _). rewrite Hstock.
  change (ls_full (local w1)) with (ls_full (local w)). rewrite Hfull.
  eexists. split; [reflexivity|].
  split; [destruct (is_empty stock1); reflexivity|].
  split; [destruct (is_empty stock1); reflexivity|].
  intros Hsel2.
  assert (stock1 = []) as ->.
  { unfold getStock, via_supabase in Hstock.
    unfold bind at 1 in Hstock. unfold try_catch at 1 in Hstock.
    unfold bind at 1 in Hstock.
    rewrite shouldUseSupabase_run in Hstock. cbn [remote w1] in Hstock.
    rewrite Ha in Hstock.
    unfold getStockFromSupabase, try_catch, bind, remote_read, data_or_throw,
      ret in Hstock. cbn [remote w1] in Hstock. rewrite Hsel2 in Hstock.
    inversion Hstock. reflexivity. }
  reflexivity.
Qed.

(** A signed-in user with an empty account and one sale in local storage:
    the sale is gone after the start. *)
Lemma initializeStorage_overwrites_local_data_witness :
  let s1 :=
    mkSale (js "s1") (js "2024-03-15") (js "Client") (js "Coca-Cola") (Fin 5)
      (Fin 1.5) (Fin 7.5) (js "Carte") Missing Missing Missing Missing in
  let w :=
    mkWorld (mkLocalStorage (Json [s1]) Absent Absent None None false)
      (Reference.mkMemoryDb (Some (mkUser (js "u1"))) true [] [] [])
      0%nat in
  exists w',
    @initializeStorage _ Reference.memory_backend w = (Return tt, w')
    /\ remote w' = remote w
    /\ STORAGE_KEY (local w') = Json []
    /\ STOCK_KEY (local w') = Json generateSampleStock.
Proof.
  intros s1 w.
  destruct (initializeStorage_overwrites_local_data _ Reference.memory_backend
              w eq_refl eq_refl eq_refl eq_refl)
    as (w' & Hrun & Hremote & Hsales & Hstock).
  exists w'. split; [exact Hrun|]. split; [exact Hremote|].
  split; [exact Hsales|]. apply Hstock. reflexivity.
Defined.

(** X10. [migrateDataToSupabase] copies and never moves: however it ends,
    the three data keys and the read-only flag of local storage are as
    before.  When it throws, local storage is entirely as before, so the
    migration flag is not set and the next start tries again.  A sales key
    that holds a text [JSON.parse] rejects makes it throw before any request
    that writes. *)
Theorem migrateDataToSupabase_keeps_local_data :
  forall (R : Type) (sb : Supabase R) (w : World R),
    (forall o w',
        migrateDataToSupabase w = (o, w') ->
        data_keys (local w') = data_keys (local w)
        /\ READ_ONLY_KEY (local w') = READ_ONLY_KEY (local w)
        /\ (forall e, o = Throw e -> local w' = local w))
    /\ (forall c text,
           STORAGE_KEY (local w) = Unparseable (c :: text) ->
           authenticated (remote w) = true ->
           migrated (local w) = false ->
           exists e, migrateDataToSupabase w = (Throw e, w)).
Proof.
  intros R sb w. split.
  - intros o w' Hrun.
    pose proof (keeps_migrateDataToSupabase data_keys ltac:(reflexivity) w)
      as H1.
    pose proof (keeps_migrateDataToSupabase READ_ONLY_KEY ltac:(reflexivity) w)
      as H2.
    rewrite Hrun in H1, H2. cbn [snd] in H1, H2.
    split; [exact H1|]. split; [exact H2|].
    intros e ->. revert Hrun. unfold migrateDataToSupabase.
    unfold bind at 1. unfold get_local.
    destruct (match MIGRATION_KEY (local w) with
              | Some v => str_eqb v (js "true")
              | None => false
              end); [discriminate|].
    unfold try_catch. unfold bind at 1. rewrite shouldUseSupabase_run.
    destruct (authenticated (remote w)); [|discriminate].
    unfold bind at 1.
    pose proof (proj1 (proj2 (proj2 (proj2 (proj2 (proj2 (proj2 (proj2
                  (proj2 (proj2 (proj2 (proj2 (proj2
                     (keeps_supabaseStorage (fun l => l)))))))))))))) w)
      as Hlocal.
    destruct (migrateLocalStorageToSupabase w) as [[[]|e1] w1];
      cbn [snd] in Hlocal.
    + rewrite setItem_run. destruct (ls_full (local w1)); [|discriminate].
      unfold throw. intros H. inversion H. subst. exact Hlocal.
    + unfold throw. intros H. inversion H. subst. exact Hlocal.
  - intros c text Hkey Ha Hm. unfold migrateDataToSupabase.
    unfold bind at 1. unfold get_local. unfold migrated in Hm. rewrite Hm.
    unfold try_catch at 1. unfold bind at 1.
    rewrite shouldUseSupabase_run, Ha. unfold bind at 1.
    unfold migrateLocalStorageToSupabase. unfold try_catch at 1.
    unfold bind at 1. unfold get_local. rewrite Hkey. cbn [no_item].
    unfold bind at 1. unfold bind at 1. cbn [JSON_parse]. unfold throw at 1.
    unfold rethrow, throw. eexists. reflexivity.
Qed.

(** A signed-in user whose local sales key is damaged. *)
Lemma migrateDataToSupabase_keeps_local_data_witness :
  let w :=
    mkWorld (mkLocalStorage (Unparseable (js "{oops")) Absent Absent None None
               false)
      (Reference.mkMemoryDb (Some (mkUser (js "u1"))) true [] [] [])
      0%nat in
  exists e, @migrateDataToSupabase _ Reference.memory_backend w = (Throw e, w).
Proof.
  intros w.
  exact (proj2 (migrateDataToSupabase_keeps_local_data _
                  Reference.memory_backend w)
           123%N (js "oops") eq_refl eq_refl eq_refl).
Defined.

(** ** The reconciler of an import, beyond one product *)

Lemma item_card_decrement (q : number) (i : StockItem) :
  item_card (decrement q i) = item_card i.
Proof. reflexivity. Qed.






Section Catalogue.
Context {rt : JsRuntime}.


End Catalogue.

Section BatchRuns.
Context {rt : JsRuntime} {R : Type} {sb : Supabase R}.


End BatchRuns.





(** ** [lib/supabase] and [supabaseStorage] *)

Lemma handleSupabaseError_nonempty (error : thrown) :
  handleSupabaseError error <> [].
Proof.
  destruct error as [[[|c m]|]]; cbn [handleSupabaseError];
    try discriminate.
  repeat match goal with
         | |- context [if ?b then _ else _] => destruct b
         end; discriminate.
Qed.

Lemma handleSupabaseError_again (error : thrown) :
  handleSupabaseError (Error (handleSupabaseError error))
  = handleSupabaseError error.
Proof.
  destruct error as [[[|c m]|]]; try (vm_compute; reflexivity).
  cbn [handleSupabaseError].
  destruct (includes (c :: m) (js "JWT")) eqn:E1;
    [vm_compute; reflexivity|].
  destruct (includes (c :: m) (js "Row Level Security")) eqn:E2;
    [vm_compute; reflexivity|].
  destruct (includes (c :: m) (js "duplicate key")) eqn:E3;
    [vm_compute; reflexivity|].
  destruct (includes (c :: m) (js "foreign key")) eqn:E4;
    [vm_compute; reflexivity|].
  unfold Error. cbn [handleSupabaseError]. rewrite E1, E2, E3, E4.
  reflexivity.
Qed.

(** X13. [handleSupabaseError] never returns the empty string, and applying
    it to an error that carries its own result gives that result again, so
    a message that went through one [catch] block of [supabaseStorage] is
    not altered by the next.  A message that mentions JWT is reported as an
    expired session whatever else it mentions; a non-empty message with none
    of the four keywords is returned as it is; an error without message gets
    the generic text. *)
Theorem handleSupabaseError_is_idempotent :
  forall error : thrown,
    handleSupabaseError error <> []
    /\ handleSupabaseError (Error (handleSupabaseError error))
       = handleSupabaseError error
    /\ (forall message,
           error = Error message ->
           includes message (js "JWT") = true ->
           handleSupabaseError error
           = js "Session expired. Please log in again.")
    /\ (forall message,
           error = Error message -> message <> [] ->
           includes message (js "JWT") = false ->
           includes message (js "Row Level Security") = false ->
           includes message (js "duplicate key") = false ->
           includes message (js "foreign key") = false ->
           handleSupabaseError error = message)
    /\ (error = Thrown None \/ error = Error [] ->
        handleSupabaseError error
        = js "An unexpected error occurred. Please try again.").
Proof.
  intros error. split; [apply handleSupabaseError_nonempty|].
  split; [apply handleSupabaseError_again|]. split; [|split].
  - intros message -> H. destruct message as [|c m]; [discriminate H|].
    unfold Error. cbn [handleSupabaseError]. rewrite H. reflexivity.
  - intros message -> Hne H1 H2 H3 H4.
    destruct message as [|c m]; [contradiction|].
    unfold Error. cbn [handleSupabaseError]. rewrite H1, H2, H3, H4.
    reflexivity.
  - intros [-> | ->]; reflexivity.
Qed.

(** An expired token reported by the backend together with a key
    violation. *)
Lemma handleSupabaseError_is_idempotent_witness :
  handleSupabaseError (Error (js "JWT expired; duplicate key"))
  = js "Session expired. Please log in again.".
Proof.
  exact (proj1 (proj2 (proj2 (handleSupabaseError_is_idempotent
                                (Error (js "JWT expired; duplicate key")))))
           (js "JWT expired; duplicate key") eq_refl eq_refl).
Defined.

Section SupabaseStorageFacts.
Context {R : Type} {sb : Supabase R}.

(** What the [catch] block shared by the functions of [supabaseStorage]
    lets out. *)
Lemma rethrow_reports {A} (body : M R A) :
  keeps (fun l => l) body ->
  reports_by_message (try body catch rethrow).
Proof.
  intros Hk w. specialize (Hk w). unfold try_catch, rethrow, throw.
  destruct (body w) as [[a|e0] w1]; cbn [fst snd] in *.
  - split; [exact Hk | discriminate].
  - split; [exact Hk|]. intros e He. inversion He.
    exists (handleSupabaseError e0). split; [reflexivity|].
    split; [apply handleSupabaseError_nonempty|].
    apply handleSupabaseError_again.
Qed.

Lemma insert_without_user (rows : User -> R -> R * outcome (option thrown))
  (w : World R) (resp : authResponse) :
  auth_getUser (remote w) = Return resp -> auth_user resp = None ->
  (try (user <- require_user ;;
        error <- remote_write (rows user) ;;
        throw_if_error error)
   catch rethrow) w
  = (Throw (Error (js "User not authenticated")), w).
Proof.
  intros Hresp Huser.
  unfold require_user, try_catch, bind, remote_read, rethrow, throw.
  rewrite Hresp, Huser. reflexivity.
Qed.

End SupabaseStorageFacts.

(** X14. The inserting functions of [supabaseStorage] send nothing when the
    session answers without a user: each throws ['User not authenticated']
    and leaves the local and the remote state as they are.  The updating and
    deleting functions do not ask who is signed in: their request is sent
    in every state. *)
Theorem inserts_require_a_user :
  forall (R : Type) (sb : Supabase R) (w : World R) (resp : authResponse),
    auth_getUser (remote w) = Return resp ->
    auth_user resp = None ->
    forall (sale : Sale) (item : StockItem) (movement : StockMovement)
           (sales : list Sale) (items : list StockItem) (id : jsstring),
      let refused (m : M R unit) :=
        m w = (Throw (Error (js "User not authenticated")), w) in
      refused (addSaleToSupabase sale)
      /\ refused (addStockItemToSupabase item)
      /\ refused (addStockMovementToSupabase movement)
      /\ refused (addMultipleSalesToSupabase sales)
      /\ refused (addMultipleStockItemsToSupabase items)
      /\ refused (SupabaseStorage.importSalesToSupabase sales)
      /\ remote (snd (updateSaleInSupabase sale w))
         = fst (sales_update sale (remote w))
      /\ remote (snd (deleteSaleFromSupabase id w))
         = fst (sales_delete id (remote w))
      /\ remote (snd (updateStockItemInSupabase item w))
         = fst (stock_update item (remote w))
      /\ remote (snd (deleteStockItemFromSupabase id w))
         = fst (stock_delete id (remote w)).
Proof.
  intros R sb w resp Hresp Huser sale item movement sales items id refused.
  subst refused. cbv beta.
  repeat (split; [eapply insert_without_user; eassumption|]).
  unfold updateSaleInSupabase, deleteSaleFromSupabase,
    updateStockItemInSupabase, deleteStockItemFromSupabase, try_catch, bind,
    remote_write, throw_if_error, rethrow, throw, ret.
  repeat split.
  - destruct (sales_update sale (remote w)) as [r [[e|]|e]]; reflexivity.
  - destruct (sales_delete id (remote w)) as [r [[e|]|e]]; reflexivity.
  - destruct (stock_update item (remote w)) as [r [[e|]|e]]; reflexivity.
  - destruct (stock_delete id (remote w)) as [r [[e|]|e]]; reflexivity.
Qed.

(** Nobody is signed in on the reference backend. *)
Lemma inserts_require_a_user_witness :
  let sale :=
    mkSale (js "s1") (js "2024-03-15") (js "Client") (js "Coca-Cola") (Fin 5)
      (Fin 1.5) (Fin 7.5) (js "Carte") Missing Missing Missing Missing in
  let w := mkWorld Reference.empty_storage Reference.signed_out 0%nat in
  @addMultipleSalesToSupabase _ Reference.memory_backend [sale] w
  = (Throw (Error (js "User not authenticated")), w).
Proof.
  intros sale w.
  exact (proj1 (proj2 (proj2 (proj2
           (inserts_require_a_user _ Reference.memory_backend w
              (mkAuthResponse None None) eq_refl eq_refl sale
              (mkStockItem [] [] [] [] NaN NaN NaN NaN)
              (mkStockMovement [] [] [] Out NaN [] Missing Missing)
              [sale] [] []))))).
Defined.

(** X15. Every function of [supabaseStorage] leaves local storage as it is,
    and whatever it throws is an [Error] with a non-empty message that
    [handleSupabaseError] would return unchanged: callers never see the raw
    error of the backend. *)
Theorem supabaseStorage_reports_by_message :
  forall (R : Type) (sb : Supabase R),
    reports_by_message getSalesFromSupabase
    /\ (forall sale, reports_by_message (addSaleToSupabase sale))
    /\ (forall sale, reports_by_message (updateSaleInSupabase sale))
    /\ (forall id, reports_by_message (deleteSaleFromSupabase id))
    /\ reports_by_message getStockFromSupabase
    /\ (forall item, reports_by_message (addStockItemToSupabase item))
    /\ (forall item, reports_by_message (updateStockItemInSupabase item))
    /\ (forall id, reports_by_message (deleteStockItemFromSupabase id))
    /\ reports_by_message getStockMovementsFromSupabase
    /\ (forall movement,
           reports_by_message (addStockMovementToSupabase movement))
    /\ (forall sales, reports_by_message (addMultipleSalesToSupabase sales))
    /\ (forall items,
           reports_by_message (addMultipleStockItemsToSupabase items))
    /\ reports_by_message migrateLocalStorageToSupabase
    /\ (forall sales,
           reports_by_message (SupabaseStorage.importSalesToSupabase sales)).
Proof.
  intros R sb.
  pose proof (keeps_supabaseStorage (R := R) (fun l => l))
    as (_ & _ & _ & _ & _ & _ & _ & _ & _ & _ & Hsales & Hitems & _).
  unfold getSalesFromSupabase, addSaleToSupabase, updateSaleInSupabase,
    deleteSaleFromSupabase, getStockFromSupabase, addStockItemToSupabase,
    updateStockItemInSupabase, deleteStockItemFromSupabase,
    getStockMovementsFromSupabase, addStockMovementToSupabase,
    migrateLocalStorageToSupabase, SupabaseStorage.importSalesToSupabase.
  repeat match goal with |- _ /\ _ => split end;
    try match goal with |- forall _, reports_by_message _ => intro end;
    apply rethrow_reports;
    unfold require_user, throw_if_error, data_or_throw, JSON_parse;
    frame; first [apply Hsales | apply Hitems].
Qed.

(** ** More on the amount parser *)

Import Words.

Lemma trimEnd_inner (p r : jsstring) (c : N) :
  is_space c = false -> trimEnd (p ++ c :: r) = p ++ c :: trimEnd r.
Proof.
  intros Hc. induction p as [|x p IH]; cbn [app].
  - apply trimEnd_cons, Hc.
  - cbn [trimEnd]. rewrite IH. destruct p; reflexivity.
Qed.

Lemma replace_class_cons (p : N -> bool) (to : jsstring) (c : N)
  (s : jsstring) :
  replace_class p to (c :: s)
  = (if p c then to else [c]) ++ replace_class p to s.
Proof. reflexivity. Qed.

Lemma strip_amount_app (a b : jsstring) :
  strip_amount (a ++ b) = strip_amount a ++ strip_amount b.
Proof. unfold strip_amount. rewrite !replace_class_app. reflexivity. Qed.

Lemma strip_amount_cons (c : N) (s : jsstring) :
  strip_amount (c :: s) = strip_amount [c] ++ strip_amount s.
Proof. apply (strip_amount_app [c] s). Qed.

Lemma digit_plain (c : N) :
  is_digit c = true ->
  is_space c = false /\ cu_eqb en_dash c = false
  /\ cu_eqb euro_sign c = false /\ cu_eqb c comma = false
  /\ cu_eqb c 45 = false /\ cu_eqb c 43 = false.
Proof.
  intros H.
  pose proof (digit_property
                (fun d => negb (is_space d) && negb (cu_eqb en_dash d)
                          && negb (cu_eqb euro_sign d)
                          && negb (cu_eqb d comma) && negb (cu_eqb d 45)
                          && negb (cu_eqb d 43)) eq_refl c H) as P.
  cbv beta in P. rewrite !andb_true_iff, !negb_true_iff in P. tauto.
Qed.

Lemma strip_amount_digit (c : N) : is_digit c = true -> strip_amount [c] = [c].
Proof.
  intros H. destruct (digit_plain c H) as (Hs & Hd & He & _).
  unfold strip_amount, replace_class. cbn [flat_map app].
  rewrite Hd. cbn [flat_map app]. rewrite He. cbn [flat_map app].
  rewrite Hs. reflexivity.
Qed.

Lemma strip_amount_space (c : N) : is_space c = true -> strip_amount [c] = [].
Proof.
  intros H.
  assert (cu_eqb en_dash c = false) as Hd.
  { destruct (cu_eqb en_dash c) eqn:E; [|reflexivity].
    apply cu_eqb_eq in E. subst c. discriminate H. }
  assert (cu_eqb euro_sign c = false) as He.
  { destruct (cu_eqb euro_sign c) eqn:E; [|reflexivity].
    apply cu_eqb_eq in E. subst c. discriminate H. }
  unfold strip_amount, replace_class. cbn [flat_map app].
  rewrite Hd. cbn [flat_map app]. rewrite He. cbn [flat_map app].
  rewrite H. reflexivity.
Qed.

Lemma strip_amount_digits (ds : jsstring) :
  Forall (fun c => is_digit c = true) ds -> strip_amount ds = ds.
Proof.
  induction 1 as [|c ds Hc _ IH]; [reflexivity|].
  rewrite strip_amount_cons, strip_amount_digit, IH by exact Hc. reflexivity.
Qed.

Lemma space_not_digit (c : N) : is_space c = true -> is_digit c = false.
Proof.
  intros H. destruct (is_digit c) eqn:E; [|reflexivity].
  destruct (digit_plain c E) as (Hs & _). congruence.
Qed.

Lemma strip_amount_grouped (g : jsstring) :
  Forall (fun c => is_digit c = true \/ is_space c = true) g ->
  strip_amount g = filter is_digit g.
Proof.
  induction 1 as [|c g Hc _ IH]; [reflexivity|].
  rewrite strip_amount_cons, IH. cbn [filter]. destruct Hc as [Hd | Hs].
  - rewrite strip_amount_digit, Hd by exact Hd. reflexivity.
  - rewrite strip_amount_space, (space_not_digit c Hs) by exact Hs.
    reflexivity.
Qed.

Lemma strip_amount_tail (d1 d2 sep : N) :
  is_digit d1 = true -> is_digit d2 = true -> is_space sep = true ->
  strip_amount [comma; d1; d2; sep; euro_sign] = [comma; d1; d2].
Proof.
  intros H1 H2 Hs.
  change [comma; d1; d2; sep; euro_sign]
    with ([comma] ++ [d1] ++ [d2] ++ [sep] ++ [euro_sign]).
  rewrite !strip_amount_app, (strip_amount_digit d1 H1),
    (strip_amount_digit d2 H2), (strip_amount_space sep Hs).
  reflexivity.
Qed.

Lemma filter_digits (g : jsstring) :
  Forall (fun c => is_digit c = true) (filter is_digit g).
Proof. apply Forall_forall. intros c Hc. apply filter_In in Hc. apply Hc. Qed.

Lemma digits_no_comma (ds : jsstring) :
  Forall (fun c => is_digit c = true) ds ->
  Forall (fun d => cu_eqb d comma = false) ds.
Proof.
  intros H. eapply Forall_impl; [|exact H]. intros c Hc.
  apply (digit_plain c Hc).
Qed.

Section Amounts.
Context {rt : JsRuntime}.

Lemma clean_amount_grouped neg grouped d1 d2 sep :
  grouped_digits grouped ->
  is_digit d1 = true -> is_digit d2 = true -> is_space sep = true ->
  clean_amount (euro_amount neg grouped d1 d2 sep) =
  (if neg then [45%N] else []) ++ filter is_digit grouped ++ [46%N; d1; d2].
Proof.
  intros [(c & rest & -> & Hc) Hall] H1 H2 Hsep.
  destruct (digit_plain c Hc) as (Hcs & _).
  set (g := c :: rest) in *.
  set (tail := [comma; d1; d2; sep; euro_sign]).
  assert (forall prefix : jsstring,
             trimEnd (prefix ++ g ++ tail) = prefix ++ g ++ tail) as Hend.
  { intros prefix.
    replace (prefix ++ g ++ tail)
      with ((prefix ++ g ++ [comma; d1; d2; sep]) ++ [euro_sign])
      by (rewrite <- !app_assoc; reflexivity).
    apply trimEnd_last. reflexivity. }
  assert (Forall (fun d => cu_eqb d comma = false) (filter is_digit g))
    as Hnc by apply digits_no_comma, filter_digits.
  change (clean_amount (euro_amount neg g d1 d2 sep))
    with (replace_first comma (js ".")
            (strip_amount (trim (euro_amount neg g d1 d2 sep)))).
  unfold trim, euro_amount. fold tail. destruct neg.
  - change ([en_dash] ++ g ++ tail) with (en_dash :: (g ++ tail)).
    rewrite trimStart_not_space by reflexivity.
    change (en_dash :: (g ++ tail)) with ([en_dash] ++ g ++ tail).
    rewrite Hend, !strip_amount_app, (strip_amount_grouped g Hall).
    unfold tail. rewrite (strip_amount_tail d1 d2 sep H1 H2 Hsep).
    change (strip_amount [en_dash]) with [45%N].
    rewrite app_assoc.
    rewrite (replace_first_skip comma (js ".") ([45%N] ++ filter is_digit g)
               [d1; d2]).
    + rewrite <- app_assoc. reflexivity.
    + constructor; [reflexivity | exact Hnc].
  - cbn [app].
    assert (trimStart (g ++ tail) = g ++ tail) as ->
        by (subst g; apply trimStart_not_space, Hcs).
    pose proof (Hend []) as Hend0. cbn [app] in Hend0.
    rewrite Hend0, strip_amount_app, (strip_amount_grouped g Hall).
    unfold tail. rewrite (strip_amount_tail d1 d2 sep H1 H2 Hsep).
    apply (replace_first_skip comma (js ".") (filter is_digit g) [d1; d2] Hnc).
Qed.

End Amounts.

(** X16. [parseAmount] accepts an amount whose integer part is written in
    groups of digits separated by white space (ordinary, no-break or narrow
    no-break), as French sheets write thousands: with two decimals, a white
    space and the euro sign, and with or without a leading long dash, the
    result is the signed decimal number whose integer part is made of the
    digits alone. *)
Theorem parseAmount_grouped_thousands :
  forall (rt : JsRuntime) (neg : bool) (grouped : jsstring) (d1 d2 sep : N),
    grouped_digits grouped ->
    is_digit d1 = true -> is_digit d2 = true -> is_space sep = true ->
    num_equiv (parseAmount (VStr (euro_amount neg grouped d1 d2 sep)))
              (Fin (euro_value neg (filter is_digit grouped) d1 d2)).
Proof.
  intros rt neg grouped d1 d2 sep Hg H1 H2 Hsep.
  pose proof Hg as [(c & rest & Heq & Hc) Hall].
  unfold parseAmount.
  assert (truthy (VStr (euro_amount neg grouped d1 d2 sep)) = true) as ->.
  { unfold euro_amount. destruct neg; [reflexivity|]. subst grouped.
    reflexivity. }
  cbn [negb toString]. cbv iota.
  rewrite clean_amount_grouped by assumption.
  rewrite parseFloat_fixed.
  - cbn [isNaN]. cbv iota. cbn [num_equiv]. apply euro_value_correct.
  - subst grouped. cbn [filter]. rewrite Hc. discriminate.
  - apply filter_digits.
  - exact H1.
  - exact H2.
Qed.

(** "1 234,50 €" with a no-break space between the groups and "–12 000,00 €"
    with narrow no-break spaces. *)
Lemma parseAmount_grouped_thousands_witness :
  num_equiv (@parseAmount Reference.utc_host
               (VStr (euro_amount false [49; 160; 50; 51; 52]%N 53 48 32)))
            (Fin (euro_value false (js "1234") 53 48))
  /\ num_equiv (@parseAmount Reference.utc_host
                  (VStr (euro_amount true [49; 50; 8239; 48; 48; 48]%N 48 48
                           8239)))
               (Fin (euro_value true (js "12000") 48 48)).
Proof.
  split.
  - apply (parseAmount_grouped_thousands Reference.utc_host false
             [49; 160; 50; 51; 52]%N 53%N 48%N 32%N);
      [split; [exists 49%N, [160; 50; 51; 52]%N; split; reflexivity
              | repeat (apply Forall_cons; [vm_compute; auto|]);
                apply Forall_nil]
      | reflexivity | reflexivity | reflexivity].
  - apply (parseAmount_grouped_thousands Reference.utc_host true
             [49; 50; 8239; 48; 48; 48]%N 48%N 48%N 8239%N);
      [split; [exists 49%N, [50; 8239; 48; 48; 48]%N; split; reflexivity
              | repeat (apply Forall_cons; [vm_compute; auto|]);
                apply Forall_nil]
      | reflexivity | reflexivity | reflexivity].
Defined.

Lemma replace_first_none (c : N) (to s : jsstring) :
  Forall (fun d => cu_eqb d c = false) s -> replace_first c to s = s.
Proof.
  induction 1 as [|d s Hd _ IH]; simpl; [reflexivity|].
  rewrite Hd, IH. reflexivity.
Qed.

Lemma trimEnd_plain (s : jsstring) :
  Forall (fun c => is_space c = false) s -> trimEnd s = s.
Proof.
  induction 1 as [|c s Hc _ IH]; [reflexivity|].
  rewrite trimEnd_cons, IH by exact Hc. reflexivity.
Qed.

Section Separators.
Context {rt : JsRuntime}.

Lemma scan_decimal_dotted (a b r : jsstring) :
  a <> [] ->
  Forall (fun c => is_digit c = true) a ->
  Forall (fun c => is_digit c = true) b ->
  (r = [] \/ exists r', r = 46%N :: r') ->
  exists r3,
    scan_decimal (a ++ 46%N :: b ++ r)
    = Some ((inject_Z (digits_val (a ++ b))
             * Qpower 10 (0 - Z.of_nat (List.length b)))%Q, r3).
Proof.
  intros Hne Ha Hb Hr. unfold scan_decimal.
  rewrite (span_stop is_digit a (b ++ r) 46%N Ha eq_refl).
  change (cu_eqb 46 46) with true. cbv iota.
  assert (span is_digit (b ++ r) = (b, r)) as ->.
  { destruct Hr as [-> | (r' & ->)].
    - rewrite app_nil_r. apply span_all, Hb.
    - apply span_stop; [exact Hb | reflexivity]. }
  destruct (a ++ b) as [|x l] eqn:E.
  { destruct a; [contradiction | discriminate E]. }
  assert (scan_exponent r = (0, r)) as ->
      by (destruct Hr as [-> | (r' & ->)]; reflexivity).
  eexists. reflexivity.
Qed.

Lemma parseFloat_dotted (a b r : jsstring) :
  a <> [] ->
  Forall (fun c => is_digit c = true) a ->
  Forall (fun c => is_digit c = true) b ->
  (r = [] \/ exists r', r = 46%N :: r') ->
  parseFloat (a ++ 46%N :: b ++ r)
  = Fin (inject_Z (digits_val (a ++ b))
         * Qpower 10 (0 - Z.of_nat (List.length b))).
Proof.
  intros Hne Ha Hb Hr. unfold parseFloat.
  destruct a as [|c a'] eqn:E; [contradiction|]. rewrite <- E in *.
  assert (is_digit c = true) as Hc by (subst a; inversion Ha; assumption).
  destruct (digit_plain c Hc) as (Hs & _).
  assert (trimStart (a ++ 46%N :: b ++ r) = a ++ 46%N :: b ++ r) as ->
      by (subst a; apply trimStart_not_space, Hs).
  assert (scan_sign (a ++ 46%N :: b ++ r) = (false, a ++ 46%N :: b ++ r))
    as -> by (subst a; apply scan_sign_digit, Hc).
  destruct (scan_decimal_dotted a b r Hne Ha Hb Hr) as [r3 ->].
  reflexivity.
Qed.

End Separators.

(** X17. [parseAmount] replaces the first comma only and [parseFloat] stops
    at the second separator: in a text that starts with digits, a point and
    digits, everything from the first comma on is ignored.  An amount
    written with a point between the thousands and a comma before the
    decimals is therefore read as its integer part divided by a
    thousand. *)
Theorem parseAmount_ignores_what_follows_the_comma :
  forall (rt : JsRuntime) (a b rest : jsstring),
    digit_string a ->
    Forall (fun c => is_digit c = true) b ->
    parseAmount (VStr (a ++ 46%N :: b ++ comma :: rest))
    = parseAmount (VStr (a ++ 46%N :: b))
    /\ parseAmount (VStr (a ++ 46%N :: b))
       = Fin (inject_Z (digits_val (a ++ b))
              * Qpower 10 (- Z.of_nat (List.length b))).
Proof.
  intros rt a b rest [Hne Ha] Hb.
  destruct a as [|c a'] eqn:E; [contradiction|]. rewrite <- E in *.
  assert (is_digit c = true) as Hc by (subst a; inversion Ha; assumption).
  destruct (digit_plain c Hc) as (Hs & _).
  assert (Forall (fun d => cu_eqb d comma = false) (a ++ 46%N :: b)) as Hnc.
  { apply Forall_app. split; [apply digits_no_comma, Ha|].
    constructor; [reflexivity | apply digits_no_comma, Hb]. }
  assert (strip_amount (a ++ 46%N :: b) = a ++ 46%N :: b) as Hstrip.
  { rewrite strip_amount_app, (strip_amount_digits a Ha), strip_amount_cons,
      (strip_amount_digits b Hb). reflexivity. }
  assert (clean_amount (a ++ 46%N :: b ++ comma :: rest)
          = a ++ 46%N :: b ++ 46%N :: strip_amount (trimEnd rest)) as Hlong.
  { change (clean_amount (a ++ 46%N :: b ++ comma :: rest))
      with (replace_first comma (js ".")
              (strip_amount (trim (a ++ 46%N :: b ++ comma :: rest)))).
    unfold trim.
    assert (trimStart (a ++ 46%N :: b ++ comma :: rest)
            = a ++ 46%N :: b ++ comma :: rest) as ->
        by (subst a; apply trimStart_not_space, Hs).
    replace (a ++ 46%N :: b ++ comma :: rest)
      with ((a ++ 46%N :: b) ++ comma :: rest)
      by (rewrite <- app_assoc; reflexivity).
    rewrite trimEnd_inner by reflexivity.
    rewrite strip_amount_app, Hstrip, strip_amount_cons.
    change (strip_amount [comma]) with [comma]. cbn [app].
    rewrite (replace_first_skip comma (js ".") (a ++ 46%N :: b)
               (strip_amount (trimEnd rest)) Hnc).
    rewrite <- app_assoc. reflexivity. }
  assert (clean_amount (a ++ 46%N :: b) = a ++ 46%N :: b) as Hshort.
  { change (clean_amount (a ++ 46%N :: b))
      with (replace_first comma (js ".")
              (strip_amount (trim (a ++ 46%N :: b)))).
    unfold trim.
    assert (trimStart (a ++ 46%N :: b) = a ++ 46%N :: b) as ->
        by (subst a; apply trimStart_not_space, Hs).
    rewrite trimEnd_plain.
    - rewrite Hstrip. apply replace_first_none, Hnc.
    - apply Forall_app. split.
      + eapply Forall_impl; [|exact Ha]. intros d Hd.
        apply (digit_plain d Hd).
      + constructor; [reflexivity|].
        eapply Forall_impl; [|exact Hb]. intros d Hd.
        apply (digit_plain d Hd). }
  assert (forall s, s <> [] -> truthy (VStr s) = true) as Htruthy
      by (intros [|x s] H; [contradiction | reflexivity]).
  unfold parseAmount.
  rewrite !Htruthy by (subst a; discriminate).
  cbn [negb toString]. cbv iota. rewrite Hlong, Hshort.
  pose proof (parseFloat_dotted a b (46%N :: strip_amount (trimEnd rest)) Hne
                Ha Hb ltac:(right; eexists; reflexivity)) as H1.
  pose proof (parseFloat_dotted a b [] Hne Ha Hb ltac:(left; reflexivity))
    as H2.
  rewrite app_nil_r in H2. rewrite H1, H2. split; reflexivity.
Qed.

(** "1.234,56 €" is read as 1.234. *)
Lemma parseAmount_ignores_what_follows_the_comma_witness :
  @parseAmount Reference.utc_host (VStr (js "1.234,56 €"))
  = @parseAmount Reference.utc_host (VStr (js "1.234"))
  /\ num_equiv (@parseAmount Reference.utc_host (VStr (js "1.234,56 €")))
               (Fin (1234 # 1000)).
Proof.
  destruct (parseAmount_ignores_what_follows_the_comma Reference.utc_host
              (js "1") (js "234") (js "56 €"))
    as [H1 H2].
  - split; [discriminate | repeat constructor].
  - repeat constructor.
  - split; [exact H1|].
    pose proof (eq_trans H1 H2) as H.
    change (js "1" ++ 46%N :: js "234" ++ comma :: js "56 €")
      with (js "1.234,56 €") in H.
    rewrite H. vm_compute. reflexivity.
Defined.

(** ** More on the header normaliser and the row validator *)

Lemma hm_set_keys (m : headerMap) (f x : field) (h : jsstring) :
  In x (map fst (hm_set m f h)) -> x = f \/ In x (map fst m).
Proof.
  induction m as [|[g h'] m IH]; cbn [hm_set map fst In].
  - intros [<- | []]. left. reflexivity.
  - destruct (field_eqb g f); cbn [map fst In]; intros [<- | Hin]; auto.
    destruct (IH Hin); auto.
Qed.

Lemma hm_set_fields (m : headerMap) (f : field) (h : jsstring) :
  NoDup (map fst m) -> NoDup (map fst (hm_set m f h)).
Proof.
  induction m as [|[g h'] m IH]; intros Hnd; cbn [hm_set map fst].
  - constructor; [intros [] | constructor].
  - cbn [map fst] in Hnd. inversion Hnd as [|? ? Hnot Hnd']. subst.
    destruct (field_eqb g f) eqn:E; cbn [map fst].
    + constructor; assumption.
    + constructor; [|apply IH, Hnd'].
      intros Hin. apply hm_set_keys in Hin. destruct Hin as [-> | Hin].
      * rewrite field_eqb_refl in E. discriminate.
      * apply Hnot, Hin.
Qed.

Lemma normalizeHeaders_fields (headers : list jsstring) :
  NoDup (map fst (normalizeHeaders headers)).
Proof.
  unfold normalizeHeaders.
  assert (forall hs m, NoDup (map fst m) ->
                       NoDup (map fst (fold_left normalize_header hs m)))
    as H.
  { induction hs as [|h hs IH]; intros m Hm; cbn [fold_left]; [exact Hm|].
    apply IH.
    destruct (normalize_header_cases m h)
      as [-> | (g & vs & _ & _ & _ & _ & ->)]; [exact Hm|].
    apply hm_set_fields, Hm. }
  apply H. constructor.
Qed.

Lemma hm_get_absent (m : headerMap) (f : field) :
  ~ In f (map fst m) -> hm_get m f = None.
Proof.
  induction m as [|[g h] m IH]; cbn [hm_get map fst]; [reflexivity|].
  intros Hnot. rewrite field_eqb_neq by (intros ->; apply Hnot; left;
                                          reflexivity).
  apply IH. intros Hin. apply Hnot. right. exact Hin.
Qed.

Lemma mr_get_set_same (m : mappedRow) (f : field) (v : jsval) :
  mr_get (mr_set m f v) f = v.
Proof.
  induction m as [|[g v'] m IH]; simpl.
  - rewrite field_eqb_refl. reflexivity.
  - destruct (field_eqb g f) eqn:E; simpl; rewrite E; auto.
Qed.

Lemma mr_get_set_other (m : mappedRow) (f g : field) (v : jsval) :
  f <> g -> mr_get (mr_set m f v) g = mr_get m g.
Proof.
  intros Hne. induction m as [|[k v'] m IH]; simpl.
  - rewrite field_eqb_neq by exact Hne. reflexivity.
  - destruct (field_eqb k f) eqn:E; simpl.
    + apply field_eqb_eq in E. subst k.
      rewrite field_eqb_neq by exact Hne. reflexivity.
    + destruct (field_eqb k g); auto.
Qed.

Lemma hm_set_values (m : headerMap) (f : field) (h x : jsstring) :
  In x (map snd (hm_set m f h)) -> x = h \/ In x (map snd m).
Proof.
  induction m as [|[g h'] m IH]; cbn [hm_set map snd In].
  - intros [<- | []]. left. reflexivity.
  - destruct (field_eqb g f); cbn [map snd In]; intros [<- | Hin]; auto.
    destruct (IH Hin); auto.
Qed.

Lemma hm_set_values_NoDup (m : headerMap) (f : field) (h : jsstring) :
  NoDup (map snd m) -> ~ In h (map snd m) ->
  NoDup (map snd (hm_set m f h)).
Proof.
  induction m as [|[g h'] m IH]; intros Hnd Hnew; cbn [hm_set map snd].
  - constructor; [intros [] | constructor].
  - cbn [map snd] in Hnd, Hnew. inversion Hnd as [|? ? Hnot Hnd']. subst.
    destruct (field_eqb g f); cbn [map snd].
    + constructor; [|exact Hnd']. intros Hin. apply Hnew. right. exact Hin.
    + constructor.
      * intros Hin. apply hm_set_values in Hin. destruct Hin as [-> | Hin].
        -- apply Hnew. left. reflexivity.
        -- apply Hnot, Hin.
      * apply IH; [exact Hnd'|]. intros Hin. apply Hnew. right. exact Hin.
Qed.

Lemma hm_get_In (m : headerMap) (f : field) (h : jsstring) :
  hm_get m f = Some h -> In (f, h) m.
Proof.
  induction m as [|[g h'] m IH]; cbn [hm_get]; [discriminate|].
  destruct (field_eqb g f) eqn:E.
  - intros H. inversion H. apply field_eqb_eq in E. subst. left. reflexivity.
  - intros H. right. apply IH, H.
Qed.

Lemma values_NoDup_inj {A B} (l : list (A * B)) (a1 a2 : A) (b : B) :
  NoDup (map snd l) -> In (a1, b) l -> In (a2, b) l -> a1 = a2.
Proof.
  induction l as [|[a b'] l IH]; intros Hnd H1 H2; [contradiction|].
  cbn [map snd] in Hnd. inversion Hnd as [|? ? Hnot Hnd']. subst.
  destruct H1 as [E1 | H1], H2 as [E2 | H2].
  - congruence.
  - inversion E1. subst. exfalso. apply Hnot.
    apply in_map_iff. exists (a2, b). auto.
  - inversion E2. subst. exfalso. apply Hnot.
    apply in_map_iff. exists (a1, b). auto.
  - apply IH; assumption.
Qed.

(** X18. When the headers of a sheet are pairwise distinct, as the keys of
    a row are, the headers [normalizeHeaders] hands out are pairwise
    distinct too: no header is given to two fields, so a column is read for
    one field at most. *)
Theorem normalizeHeaders_gives_a_header_once :
  forall headers : list jsstring,
    NoDup headers ->
    NoDup (map snd (normalizeHeaders headers))
    /\ forall f g h,
        hm_get (normalizeHeaders headers) f = Some h ->
        hm_get (normalizeHeaders headers) g = Some h ->
        f = g.
Proof.
  intros headers Hnd.
  assert (forall hs seen m,
             NoDup (seen ++ hs) ->
             (forall h, In h (map snd m) -> In h seen) ->
             NoDup (map snd m) ->
             NoDup (map snd (fold_left normalize_header hs m))) as H.
  { induction hs as [|h0 hs IH]; intros seen m Hnd' Hseen Hm;
      cbn [fold_left]; [exact Hm|].
    assert (~ In h0 seen) as Hnew.
    { apply NoDup_remove_2 in Hnd'. intros Hin. apply Hnd'.
      apply in_or_app. left. exact Hin. }
    apply (IH (seen ++ [h0])).
    - rewrite <- app_assoc. exact Hnd'.
    - intros h Hin.
      destruct (normalize_header_cases m h0)
        as [E | (k & vs & _ & _ & _ & _ & E)]; rewrite E in Hin.
      + apply in_or_app. left. apply Hseen, Hin.
      + apply hm_set_values in Hin. apply in_or_app.
        destruct Hin as [-> | Hin]; [right; left; reflexivity|].
        left. apply Hseen, Hin.
    - destruct (normalize_header_cases m h0)
        as [-> | (k & vs & _ & _ & _ & _ & ->)]; [exact Hm|].
      apply hm_set_values_NoDup; [exact Hm|].
      intros Hin. apply Hnew, Hseen, Hin. }
  assert (NoDup (map snd (normalizeHeaders headers))) as Hvalues.
  { apply (H headers [] []); [exact Hnd | intros h [] | constructor]. }
  split; [exact Hvalues|].
  intros f g h Hf Hg.
  apply (values_NoDup_inj (normalizeHeaders headers) f g h Hvalues);
    apply hm_get_In; assumption.
Qed.

(** "Prix article" matches the product and the amount; it is given to the
    product only. *)
Lemma normalizeHeaders_gives_a_header_once_witness :
  let headers := map js ["Prix article"; "Date"; "Prix"]%string in
  NoDup (map snd (normalizeHeaders headers))
  /\ hm_get (normalizeHeaders headers) f_product = Some (js "Prix article")
  /\ hm_get (normalizeHeaders headers) f_amount = Some (js "Prix").
Proof.
  intros headers. split.
  - apply (normalizeHeaders_gives_a_header_once headers).
    repeat (apply NoDup_cons; [vm_compute; intuition discriminate|]).
    apply NoDup_nil.
  - split; vm_compute; reflexivity.
Defined.

(** ** Blank headers, cells and missing columns *)
Import Words.

Lemma is_noise_cases (c : N) : is_noise c = true -> In c noise_units.
Proof.
  unfold is_noise, is_space, cu_eqb. cbn [existsb].
  rewrite !orb_true_iff, andb_true_iff, !N.eqb_eq, !N.leb_le.
  intros H. unfold noise_units. cbn [In].
  assert (c = 95 \/ c = 45 \/ c = 9 \/ c = 10 \/ c = 11 \/ c = 12 \/ c = 13
          \/ c = 32 \/ c = 160 \/ c = 5760 \/ c = 8232 \/ c = 8233
          \/ c = 8239 \/ c = 8287 \/ c = 12288 \/ c = 65279 \/ c = 8192
          \/ c = 8193 \/ c = 8194 \/ c = 8195 \/ c = 8196 \/ c = 8197
          \/ c = 8198 \/ c = 8199 \/ c = 8200 \/ c = 8201 \/ c = 8202)%N
    as Hc by lia.
  intuition auto.
Qed.

(** Whatever holds of the code units of the noise class holds of every one
    of them. *)
Lemma noise_property (P : N -> bool) :
  forallb P noise_units = true -> forall c, is_noise c = true -> P c = true.
Proof.
  intros H c Hc. rewrite forallb_forall in H. apply H, is_noise_cases, Hc.
Qed.

Lemma Forall_trimStart (P : N -> Prop) (s : jsstring) :
  Forall P s -> Forall P (trimStart s).
Proof.
  induction 1 as [|c s Hc Hs IH]; cbn [trimStart]; [constructor|].
  destruct (is_space c); [exact IH | constructor; assumption].
Qed.

Lemma Forall_trimEnd (P : N -> Prop) (s : jsstring) :
  Forall P s -> Forall P (trimEnd s).
Proof.
  induction 1 as [|c s Hc Hs IH]; cbn [trimEnd]; [constructor|].
  destruct (trimEnd s) as [|x t].
  - destruct (is_space c); constructor; [assumption | constructor].
  - constructor; assumption.
Qed.

Lemma lower_clean_blank (s : jsstring) : blank_header s -> lower_clean s = [].
Proof.
  induction 1 as [|c s Hc _ IH]; [reflexivity|].
  change (c :: s) with ([c] ++ s). rewrite lower_clean_app, IH, app_nil_r.
  apply str_eqb_eq.
  apply (noise_property (fun d => str_eqb (lower_clean [d]) []) eq_refl c Hc).
Qed.

Lemma blank_header_not_skipped (header : jsstring) :
  blank_header header -> skipped_header header = false.
Proof.
  intros H. unfold skipped_header.
  assert (forall c, is_noise c = true ->
                    cu_eqb 85 c = false /\ cu_eqb 69 c = false) as Hn.
  { intros c Hc.
    pose proof (noise_property
                  (fun d => negb (cu_eqb 85 d) && negb (cu_eqb 69 d))
                  eq_refl c Hc) as P.
    cbv beta in P. rewrite andb_true_iff, !negb_true_iff in P. exact P. }
  destruct header as [|c1 header]; [reflexivity|].
  inversion H as [|? ? H1 H']. subst.
  change (startsWith (c1 :: header) (js "Unnamed:"))
    with (cu_eqb 85 c1 && startsWith header (js "nnamed:")).
  rewrite (proj1 (Hn c1 H1)). cbn [andb orb].
  destruct header as [|c2 header]; [cbn; rewrite andb_false_r; reflexivity|].
  destruct header as [|c3 header];
    [cbn; rewrite !andb_false_r; reflexivity|].
  inversion H' as [|? ? H2 H'']. subst. inversion H'' as [|? ? H3 _]. subst.
  change (startsWith (c1 :: c2 :: c3 :: header) (js "__EMPTY"))
    with (cu_eqb 95 c1
          && (cu_eqb 95 c2
              && (cu_eqb 69 c3 && startsWith header (js "MPTY")))).
  rewrite (proj2 (Hn c3 H3)). cbn [andb]. rewrite !andb_false_r.
  reflexivity.
Qed.

(** X19. A header made only of white space, underscores and hyphens (the
    empty header included) cleans to the empty string, which every
    variation contains: [normalizeHeaders] gives such a header to the first
    field, in the order of declaration, that has no header yet.  Alone or
    first in a sheet it becomes the header of the register; when it is not
    empty, a column titled Caisse that follows is then read for no field. *)
Theorem blank_header_takes_the_first_free_field :
  forall (m : headerMap) (header : jsstring),
    blank_header header ->
    normalize_header m header
    = match find (fun f => negb (mapped_field m f))
              [f_register; f_product; f_type; f_quantity; f_amount;
               f_seller; f_date] with
      | Some f => hm_set m f header
      | None => m
      end
    /\ normalizeHeaders [header] = [(f_register, header)]
    /\ (header <> [] ->
        normalizeHeaders [header; js "Caisse"] = [(f_register, header)]).
Proof.
  intros m header Hb.
  assert (forall m0,
             normalize_header m0 header
             = match find (fun f => negb (mapped_field m0 f))
                       [f_register; f_product; f_type; f_quantity; f_amount;
                        f_seller; f_date] with
               | Some f => hm_set m0 f header
               | None => m0
               end) as Hstep.
  { intros m0. unfold normalize_header.
    rewrite (blank_header_not_skipped header Hb).
    rewrite (lower_clean_blank (trim header))
      by (apply Forall_trimEnd, Forall_trimStart, Hb).
    rewrite assign_header_first. reflexivity. }
  split; [apply Hstep|]. split.
  - unfold normalizeHeaders. cbn [fold_left]. rewrite Hstep. reflexivity.
  - intros Hne. unfold normalizeHeaders. cbn [fold_left]. rewrite Hstep.
    cbn [find mapped_field hm_get negb hm_set].
    unfold normalize_header.
    change (skipped_header (js "Caisse")) with false. cbv iota.
    rewrite assign_header_first.
    change (matching fieldMappings (lower_clean (trim (js "Caisse"))))
      with [f_register].
    cbn [find mapped_field hm_get field_eqb].
    destruct header; [contradiction | reflexivity].
Qed.

(** A sheet whose first column is titled with one space. *)
Lemma blank_header_takes_the_first_free_field_witness :
  normalizeHeaders [js " "; js "Caisse"] = [(f_register, js " ")].
Proof.
  apply (proj2 (proj2 (blank_header_takes_the_first_free_field [] (js " ")
                         ltac:(repeat constructor)))).
  discriminate.
Defined.

Section Cells.
Context (r : row).

Lemma detectAndMapColumns_fold (m : headerMap) :
  forall (acc : mappedRow) (f : field),
    NoDup (map fst m) ->
    mr_get
      (fold_left
         (fun mapped '(internalName, originalHeader) =>
            match obj_get r originalHeader with
            | Some value =>
                if is_blank value then mapped
                else mr_set mapped internalName value
            | None => mapped
            end) m acc) f
    = match hm_get m f with
      | Some header =>
          match obj_get r header with
          | Some value => if is_blank value then mr_get acc f else value
          | None => mr_get acc f
          end
      | None => mr_get acc f
      end.
Proof.
  induction m as [|[g h] m IH]; intros acc f Hnd; cbn [fold_left hm_get];
    [reflexivity|].
  cbn [map fst] in Hnd. inversion Hnd as [|? ? Hnot Hnd']. subst.
  rewrite IH by exact Hnd'.
  destruct (field_eqb g f) eqn:E.
  - apply field_eqb_eq in E. subst g.
    rewrite (hm_get_absent m f Hnot).
    destruct (obj_get r h) as [v|]; [|reflexivity].
    destruct (is_blank v); [reflexivity | apply mr_get_set_same].
  - assert (g <> f) as Hne
        by (intros ->; rewrite field_eqb_refl in E; discriminate).
    assert (mr_get
              match obj_get r h with
              | Some value =>
                  if is_blank value then acc else mr_set acc g value
              | None => acc
              end f = mr_get acc f) as ->.
    { destruct (obj_get r h) as [v|]; [|reflexivity].
      destruct (is_blank v); [reflexivity|].
      apply mr_get_set_other, Hne. }
    reflexivity.
Qed.

End Cells.

Lemma detectAndMapColumns_cell (headers : list jsstring) (r : row)
      (f : field) :
  mr_get (detectAndMapColumns r (normalizeHeaders headers)) f
  = cell_of r (normalizeHeaders headers) f.
Proof.
  unfold detectAndMapColumns, cell_of.
  rewrite detectAndMapColumns_fold by apply normalizeHeaders_fields.
  destruct (hm_get (normalizeHeaders headers) f) as [h|]; [|reflexivity].
  destruct (obj_get r h) as [v|]; [|reflexivity].
  destruct (is_blank v); reflexivity.
Qed.

(** X20. Through the mapping of [normalizeHeaders], [detectAndMapColumns]
    gives each field the cell the row holds under the header of the field;
    a field without header, a header the row does not have and a cell that
    is null, undefined or the empty string all give [undefined].  A cell
    that holds the number 0 is kept as it is. *)
Theorem detectAndMapColumns_reads_the_mapped_cell :
  forall (headers : list jsstring) (r : row) (f : field),
    let headerMapping := normalizeHeaders headers in
    let value := mr_get (detectAndMapColumns r headerMapping) f in
    value = cell_of r headerMapping f
    /\ (is_blank value = true -> value = VUndefined)
    /\ (forall header,
           hm_get headerMapping f = Some header ->
           obj_get r header = Some (VNum (Fin 0)) ->
           value = VNum (Fin 0)).
Proof.
  intros headers r f headerMapping value.
  assert (value = cell_of r headerMapping f) as Hv.
  { apply detectAndMapColumns_cell. }
  split; [exact Hv|]. split.
  - rewrite Hv. unfold cell_of.
    destruct (hm_get headerMapping f) as [h|]; [|reflexivity].
    destruct (obj_get r h) as [v|]; [|reflexivity].
    destruct (is_blank v) eqn:E; [reflexivity|]. congruence.
  - intros header Hh Hcell. rewrite Hv. unfold cell_of.
    rewrite Hh, Hcell. reflexivity.
Qed.

(** A row whose amount is the number 0 and whose seller is the empty
    string. *)
Lemma detectAndMapColumns_reads_the_mapped_cell_witness :
  let headers := map js ["Montant"; "Vendeur"]%string in
  let r : row := [(js "Montant", VNum (Fin 0)); (js "Vendeur", VStr [])] in
  mr_get (detectAndMapColumns r (normalizeHeaders headers)) f_amount
  = VNum (Fin 0)
  /\ mr_get (detectAndMapColumns r (normalizeHeaders headers)) f_seller
     = VUndefined.
Proof.
  intros headers r. split.
  - apply (proj2 (proj2 (detectAndMapColumns_reads_the_mapped_cell headers r
                           f_amount)) (js "Montant")); reflexivity.
  - apply (proj1 (proj2 (detectAndMapColumns_reads_the_mapped_cell headers r
                           f_seller))). reflexivity.
Defined.

Lemma includes_inner (a p b : jsstring) : includes (a ++ p ++ b) p = true.
Proof.
  induction a as [|x a IH]; cbn [app].
  - destruct (p ++ b) as [|y t] eqn:E.
    + destruct p; [reflexivity | discriminate E].
    + cbn [includes]. rewrite <- E, startsWith_app. reflexivity.
  - cbn [includes]. rewrite IH. apply orb_true_r.
Qed.

Lemma join_In (sep x : jsstring) (l : list jsstring) :
  In x l -> exists a b, join sep l = a ++ x ++ b.
Proof.
  induction l as [|y l IH]; intros Hin; [contradiction|].
  destruct Hin as [-> | Hin].
  - destruct l as [|z l].
    + exists [], []. cbn. rewrite app_nil_r. reflexivity.
    + exists [], (sep ++ join sep (z :: l)). reflexivity.
  - destruct (IH Hin) as (a & b & E). destruct l as [|z l]; [contradiction|].
    exists (y ++ sep ++ a), b. cbn [join] in *. rewrite E.
    rewrite <- !app_assoc. reflexivity.
Qed.

(** X21. When the headers of the first row leave a required field without
    header, [validateSalesData] examines no row: it returns no record and
    exactly one error entry, numbered 1, whose single message starts with
    ['Colonnes manquantes dans le fichier: '] and contains the French name
    of every required field that has no header; no identifier is drawn. *)
Theorem validateSalesData_reports_missing_columns :
  forall (rt : JsRuntime) (draws : nat) (first : row) (rest : list row)
         (f : field),
    let headerMapping := normalizeHeaders (Object_keys first) in
    In f requiredFields ->
    mapped_field headerMapping f = false ->
    exists message,
      validateSalesData draws (first :: rest)
      = mkValidation [] [mkRowError 1 [message]] draws
      /\ startsWith message (js "Colonnes manquantes dans le fichier: ")
         = true
      /\ forall g, In g requiredFields ->
                   mapped_field headerMapping g = false ->
                   includes message (frenchFieldNames g) = true.
Proof.
  intros rt draws first rest f headerMapping Hf Hmiss.
  unfold validateSalesData. fold headerMapping.
  set (missing := filter (fun f0 => negb (mapped_field headerMapping f0))
                    requiredFields).
  assert (forall g, In g requiredFields ->
                    mapped_field headerMapping g = false -> In g missing)
    as Hin.
  { intros g Hg Hm. apply filter_In. split; [exact Hg|]. rewrite Hm.
    reflexivity. }
  destruct missing as [|x missing'] eqn:E.
  { destruct (Hin f Hf Hmiss). }
  rewrite <- E in *. clear E x missing'.
  eexists. split; [reflexivity|]. split; [apply startsWith_app|].
  intros g Hg Hm.
  destruct (join_In (js ", ") (frenchFieldNames g)
              (map frenchFieldNames missing)
              (in_map frenchFieldNames missing g (Hin g Hg Hm)))
    as (a & b & ->).
  rewrite app_assoc. apply includes_inner.
Qed.

(** A sheet without quantity nor amount column. *)
Lemma validateSalesData_reports_missing_columns_witness :
  let first : row :=
    [(js "Date", VStr (js "15/03/2024")); (js "Produit", VStr (js "Fanta"))] in
  @validateSalesData Reference.utc_host 0 [first; first]
  = mkValidation []
      [mkRowError 1
         [js "Colonnes manquantes dans le fichier: Quantité, Montant"]] 0.
Proof.
  intros first.
  destruct (validateSalesData_reports_missing_columns Reference.utc_host 0
              first [first] f_quantity)
    as (message & Hrun & _).
  - simpl. auto.
  - reflexivity.
  - vm_compute. reflexivity.
Defined.

(** ** What the row validator returns *)
Import Words.

Section Records.
Context {rt : JsRuntime}.

Lemma parseAmount_truthy (v : jsval) :
  truthy v = true -> isNaN (parseAmount v) = false.
Proof.
  intros Hv. destruct v as [| |b|n|s|t]; try discriminate Hv.
  - unfold parseAmount. rewrite Hv. cbn [negb].
    destruct (isNaN (parseFloat _)) eqn:E; [reflexivity | exact E].
  - destruct n; [discriminate Hv | reflexivity].
  - unfold parseAmount. rewrite Hv. cbn [negb].
    destruct (isNaN (parseFloat _)) eqn:E; [reflexivity | exact E].
  - unfold parseAmount. rewrite Hv. cbn [negb].
    destruct (isNaN (parseFloat _)) eqn:E; [reflexivity | exact E].
Qed.

Lemma text_or_default_filled (v : jsval) : filled (Str (text_or_default v)).
Proof.
  exists (text_or_default v). split; [reflexivity|].
  assert (non_specifie <> []) as Hd by (vm_compute; discriminate).
  unfold text_or_default.
  destruct v; try exact Hd; destruct (toString _); try exact Hd; discriminate.
Qed.

Lemma row_errors_none (mapped : mappedRow) :
  row_errors mapped = [] ->
  truthy (mr_get mapped f_quantity) = true
  /\ truthy (mr_get mapped f_amount) = true
  /\ isNaN (Number (mr_get mapped f_quantity)) = false.
Proof.
  unfold row_errors. intros H.
  apply app_eq_nil in H. destruct H as [_ H].
  apply app_eq_nil in H. destruct H as [_ H].
  apply app_eq_nil in H. destruct H as [Hq H].
  apply app_eq_nil in H. destruct H as [Ha H].
  apply app_eq_nil in H. destruct H as [Hn _].
  destruct (truthy (mr_get mapped f_quantity)); [|discriminate Hq].
  destruct (truthy (mr_get mapped f_amount)); [|discriminate Ha].
  cbn [andb] in Hn.
  destruct (isNaN (Number (mr_get mapped f_quantity))); [discriminate Hn|].
  auto.
Qed.

(** One row gives one error entry, numbered as in the sheet, or one record
    that takes the next identifier. *)
Lemma validate_row_cases (headerMapping : headerMap) (acc : validation)
      (index : nat) (r : row) :
  let v := validate_row headerMapping acc index r in
  (exists messages,
      messages <> []
      /\ sales v = sales acc
      /\ row_errs v = row_errs acc ++ [mkRowError (index + 2) messages]
      /\ drawn v = drawn acc)
  \/ (exists sale,
         sales v = sales acc ++ [sale]
         /\ row_errs v = row_errs acc
         /\ drawn v = S (drawn acc)
         /\ sale_id sale = uuid_of (drawn acc)
         /\ imported_record sale).
Proof.
  unfold validate_row.
  set (mapped := detectAndMapColumns r headerMapping).
  destruct (row_errors mapped) as [|m ms] eqn:E.
  - destruct (row_errors_none mapped E) as (Hq & Ha & Hn).
    destruct (format_date (mr_get mapped f_date)).
    + right. eexists. repeat split; cbn [sales row_errs drawn sale_id quantity
                                          totalAmount unitPrice seller
                                          register category].
      * exact Hn.
      * apply parseAmount_truthy, Ha.
      * apply text_or_default_filled.
      * apply text_or_default_filled.
      * apply text_or_default_filled.
    + left. eexists. split; [|repeat split]. discriminate.
    + left. eexists. split; [|repeat split]. discriminate.
  - left. exists (m :: ms). split; [discriminate | repeat split].
Qed.

Lemma collected_step (headerMapping : headerMap) (draws index : nat)
      (acc : validation) (r : row) :
  collected draws index acc ->
  collected draws (S index) (validate_row headerMapping acc index r).
Proof.
  intros (Hlen & Hd & Hids & Hrec & Herr).
  assert (Forall (fun e => 2 <= row_number e < S index + 2
                           /\ errors e <> [])%nat (row_errs acc)) as Herr'.
  { eapply Forall_impl; [|exact Herr]. cbv beta. intros e [He ?].
    split; [lia | assumption]. }
  destruct (validate_row_cases headerMapping acc index r)
    as [(messages & Hne & Hs & He & Hdr) | (sale & Hs & He & Hdr & Hid & Hok)];
    unfold collected; rewrite Hs, He, Hdr.
  - rewrite length_app. cbn [List.length]. repeat split; try assumption; try lia.
    apply Forall_app. split; [exact Herr'|].
    constructor; [|constructor]. cbn [row_number errors].
    split; [lia | exact Hne].
  - rewrite length_app. cbn [List.length]. repeat split; try assumption; try lia.
    + rewrite Nat.add_1_r, seq_S, !map_app, Hids. cbn [map].
      rewrite Hid, Hd. reflexivity.
    + apply Forall_app. split; [exact Hrec | constructor; [exact Hok|]].
      constructor.
Qed.

Lemma collected_rows (headerMapping : headerMap) (draws : nat) :
  forall (data : list row) (index : nat) (acc : validation),
    collected draws index acc ->
    collected draws (index + List.length data)
      (validate_rows headerMapping data index acc).
Proof.
  induction data as [|r data IH]; intros index acc H; cbn [validate_rows List.length].
  - rewrite Nat.add_0_r. exact H.
  - replace (index + S (List.length data))%nat with (S index + List.length data)%nat
      by lia.
    apply IH, collected_step, H.
Qed.

End Records.

(** X22. Whatever the sheet, the records [validateSalesData] returns carry
    the identifiers drawn during the call, in order, and each is built the
    same way: its quantity and its total amount are numbers (never NaN), its
    unit price is their quotient when the quantity is above 0 and 0
    otherwise, the client is ['Client Import'], the payment method
    ['Non spécifié'], the notes empty, and the seller, the register and the
    category are never the empty string. *)
Theorem validateSalesData_builds_complete_records :
  forall (rt : JsRuntime) (draws : nat) (data : list row),
    let v := validateSalesData draws data in
    drawn v = (draws + List.length (sales v))%nat
    /\ map sale_id (sales v) = map uuid_of (seq draws (List.length (sales v)))
    /\ Forall imported_record (sales v).
Proof.
  intros rt draws data. unfold validateSalesData.
  destruct data as [|first rest].
  - cbn. rewrite Nat.add_0_r. repeat split. constructor.
  - cbv zeta.
    destruct (filter _ requiredFields).
    + pose proof (collected_rows (normalizeHeaders (Object_keys first)) draws
                    (first :: rest) 0 (mkValidation [] [] draws)) as H.
      destruct H as (_ & Hd & Hids & Hrec & _).
      { unfold collected. cbn. rewrite Nat.add_0_r.
        repeat split; constructor. }
      auto.
    + cbn. rewrite Nat.add_0_r. repeat split. constructor.
Qed.

(** X23. When the headers of the first row cover the four required fields,
    every row of the sheet gives exactly one outcome: a record or an error
    entry, so the two lists together are as long as the sheet.  An error
    entry carries the number of its row in the sheet, counted from 2 for the
    first data row, and at least one message. *)
Theorem validateSalesData_one_outcome_per_row :
  forall (rt : JsRuntime) (draws : nat) (data : list row) (first : row),
    hd_error data = Some first ->
    (forall f, In f requiredFields ->
               mapped_field (normalizeHeaders (Object_keys first)) f = true) ->
    let v := validateSalesData draws data in
    (List.length (sales v) + List.length (row_errs v) = List.length data)%nat
    /\ Forall (fun e => 2 <= row_number e <= List.length data + 1
                        /\ errors e <> [])%nat (row_errs v).
Proof.
  intros rt draws data first Hfirst Hall.
  destruct data as [|r rest]; [discriminate Hfirst|].
  cbn [hd_error] in Hfirst. injection Hfirst as ->.
  unfold validateSalesData. cbv zeta.
  destruct (filter _ requiredFields) as [|f missing] eqn:E.
  - pose proof (collected_rows (normalizeHeaders (Object_keys first)) draws
                  (first :: rest) 0 (mkValidation [] [] draws)) as H.
    destruct H as (Hlen & _ & _ & _ & Herr).
    { unfold collected. cbn. rewrite Nat.add_0_r.
      repeat split; constructor. }
    split; [exact Hlen|].
    eapply Forall_impl; [|exact Herr]. cbv beta. intros e [He ?].
    split; [|assumption]. cbn [Nat.add] in He. lia.
  - assert (In f (f :: missing)) as Hin by (left; reflexivity).
    rewrite <- E in Hin. apply filter_In in Hin. destruct Hin as [Hf Hm].
    rewrite (Hall f Hf) in Hm. discriminate Hm.
Qed.

(** A sheet of two rows, the second without quantity. *)
Lemma validateSalesData_one_outcome_per_row_witness :
  let first : row :=
    [(js "Date", VStr (js "15/03/2024")); (js "Produit", VStr (js "Fanta"));
     (js "Quantité", VNum (Fin 2)); (js "Montant", VStr (js "3,00 €"))] in
  let second : row :=
    [(js "Date", VStr (js "16/03/2024")); (js "Produit", VStr (js "Fanta"));
     (js "Quantité", VStr []); (js "Montant", VNum (Fin 3))] in
  let v := @validateSalesData Reference.utc_host 0 [first; second] in
  (List.length (sales v) + List.length (row_errs v) = 2)%nat
  /\ row_errs v = [mkRowError 3 [js "Quantité manquante"]].
Proof.
  intros first second v. split.
  - apply (proj1 (validateSalesData_one_outcome_per_row Reference.utc_host 0
                    [first; second] first eq_refl
                    ltac:(intros f Hf; cbn in Hf;
                          repeat (destruct Hf as [<- | Hf];
                                  [vm_compute; reflexivity|]);
                          destruct Hf))).
  - vm_compute. reflexivity.
Defined.

(** ** The validator and the duplicate detector of a stock sheet *)
Import Words ImportStock.

Section StockSheet.
Context {rt : JsRuntime}.

Lemma num_or_truthy (n d : number) :
  truthy (VNum d) = true -> truthy (VNum (num_or n d)) = true.
Proof.
  intros Hd. unfold num_or. destruct (truthy (VNum n)) eqn:E; assumption.
Qed.

Lemma num_or_number (n d : number) :
  isNaN d = false -> isNaN (num_or n d) = false.
Proof.
  intros Hd. unfold num_or. destruct n as [|q]; [exact Hd|].
  cbn [truthy]. destruct (negb (Qeq_bool q 0)); [reflexivity | exact Hd].
Qed.

Lemma stock_row_errors_none (mapped : mappedRow) :
  stock_row_errors mapped = [] ->
  truthy (mr_get mapped f_quantity) = true
  /\ isNaN (Number (mr_get mapped f_quantity)) = false.
Proof.
  unfold stock_row_errors. intros H.
  apply app_eq_nil in H. destruct H as [_ H].
  apply app_eq_nil in H. destruct H as [_ H].
  destruct (truthy (mr_get mapped f_quantity)); [|discriminate H].
  destruct (isNaN (Number (mr_get mapped f_quantity))); [discriminate H|].
  auto.
Qed.

Lemma validate_stock_row_cases (headerMapping : headerMap)
      (acc : stockValidation) (index : nat) (r : row) :
  let v := validate_stock_row headerMapping acc index r in
  (stock_row_errors (detectAndMapColumns r headerMapping) <> []
   /\ stock v = stock acc
   /\ stock_errs v
      = stock_errs acc
        ++ [mkRowError (index + 2)
              (stock_row_errors (detectAndMapColumns r headerMapping))]
   /\ stock_drawn v = stock_drawn acc)
  \/ (exists item,
         stock v = stock acc ++ [item]
         /\ stock_errs v = stock_errs acc
         /\ stock_drawn v = S (stock_drawn acc)
         /\ item_id item = uuid_of (stock_drawn acc)
         /\ imported_item item).
Proof.
  unfold validate_stock_row.
  set (mapped := detectAndMapColumns r headerMapping).
  destruct (stock_row_errors mapped) as [|m ms] eqn:E.
  - destruct (stock_row_errors_none mapped E) as (Hq & Hn).
    right. eexists.
    repeat split; cbn [stock stock_errs stock_drawn item_id initialStock
                         currentStock alertThreshold item_unitPrice].
    + exact Hn.
    + apply num_or_truthy. reflexivity.
    + apply num_or_number. reflexivity.
  - left. split; [discriminate | repeat split].
Qed.

Lemma collected_stock_step (headerMapping : headerMap) (draws index : nat)
      (acc : stockValidation) (r : row) :
  collected_stock draws index acc ->
  collected_stock draws (S index)
    (validate_stock_row headerMapping acc index r).
Proof.
  intros (Hlen & Hd & Hids & Hrec).
  destruct (validate_stock_row_cases headerMapping acc index r)
    as [(Hne & Hs & He & Hdr) | (item & Hs & He & Hdr & Hid & Hok)];
    unfold collected_stock; rewrite Hs, He, Hdr.
  - rewrite length_app. cbn [List.length].
    repeat split; try assumption; lia.
  - rewrite length_app. cbn [List.length].
    repeat split; try assumption; try lia.
    + rewrite Nat.add_1_r, seq_S, !map_app, Hids. cbn [map].
      rewrite Hid, Hd. reflexivity.
    + apply Forall_app. split; [exact Hrec | constructor; [exact Hok|]].
      constructor.
Qed.

Lemma collected_stock_rows (headerMapping : headerMap) (draws : nat) :
  forall (data : list row) (index : nat) (acc : stockValidation),
    collected_stock draws index acc ->
    collected_stock draws (index + List.length data)
      (validate_stock_rows headerMapping data index acc).
Proof.
  induction data as [|r data IH]; intros index acc H;
    cbn [validate_stock_rows List.length].
  - rewrite Nat.add_0_r. exact H.
  - replace (index + S (List.length data))%nat
      with (S index + List.length data)%nat by lia.
    apply IH, collected_stock_step, H.
Qed.

(** The error entries already collected stay, and a row without a usable
    quantity adds its own. *)
Lemma stock_errors_rows (headerMapping : headerMap) :
  forall (data : list row) (index : nat) (acc : stockValidation),
    let v := validate_stock_rows headerMapping data index acc in
    (forall e, In e (stock_errs acc) -> In e (stock_errs v))
    /\ (forall e, In e (stock_errs v) ->
                  In e (stock_errs acc) \/ (index + 2 <= row_number e)%nat)
    /\ forall (j : nat) (r : row),
        nth_error data j = Some r ->
        truthy (cell_of r headerMapping f_quantity) = false ->
        mr_get (detectAndMapColumns r headerMapping) f_quantity
        = cell_of r headerMapping f_quantity ->
        exists messages,
          In (mkRowError (index + j + 2) messages) (stock_errs v)
          /\ In (js "Quantité invalide") messages.
Proof.
  induction data as [|r0 data IH]; intros index acc; cbn [validate_stock_rows].
  - split; [auto|]. split; [auto|]. intros [|j] r H; discriminate H.
  - destruct (IH (S index) (validate_stock_row headerMapping acc index r0))
      as (Hkeep & Hnew & Hbad).
    assert (forall e, In e (stock_errs acc) ->
                      In e (stock_errs
                              (validate_stock_row headerMapping acc index r0)))
      as Hstep.
    { intros e He.
      destruct (validate_stock_row_cases headerMapping acc index r0)
        as [(_ & _ & -> & _) | (item & _ & -> & _)];
        [apply in_or_app; auto | exact He]. }
    split; [auto|]. split.
    + intros e He. destruct (Hnew e He) as [Hin | Hle]; [|right; lia].
      destruct (validate_stock_row_cases headerMapping acc index r0)
        as [(_ & _ & Herr & _) | (item & _ & Herr & _)];
        rewrite Herr in Hin; [|auto].
      apply in_app_or in Hin. destruct Hin as [Hin | [<- | []]]; [auto|].
      right. cbn [row_number]. lia.
    + intros [|j] r Hnth Hq Hcell.
      * cbn [nth_error] in Hnth. injection Hnth as ->.
        exists (stock_row_errors (detectAndMapColumns r headerMapping)).
        assert (In (js "Quantité invalide")
                  (stock_row_errors (detectAndMapColumns r headerMapping)))
          as Hmsg.
        { unfold stock_row_errors. rewrite Hcell, Hq. cbn [negb orb].
          apply in_or_app. right. apply in_or_app. right. left.
          reflexivity. }
        split; [|exact Hmsg]. apply Hkeep.
        unfold validate_stock_row.
        destruct (stock_row_errors (detectAndMapColumns r headerMapping))
          as [|m ms]; [destruct Hmsg|].
        cbn [stock_errs]. apply in_or_app. right. left.
        rewrite Nat.add_0_r. reflexivity.
      * cbn [nth_error] in Hnth.
        destruct (Hbad j r Hnth Hq Hcell) as (messages & Hin & Hmsg).
        exists messages. split; [|exact Hmsg].
        replace (index + S j + 2)%nat with (S index + j + 2)%nat by lia.
        exact Hin.
Qed.

End StockSheet.

(** X24. Whatever the sheet, [validateStockData] gives every row exactly one
    outcome, an item or an error entry (it never reports a missing column
    for the whole sheet), and the items carry the identifiers drawn during
    the call, in order.  In every item the initial stock is the current
    stock and is a number, the alert threshold is neither 0 nor NaN (5
    stands in for them) and the unit price is a number. *)
Theorem validateStockData_builds_complete_items :
  forall (rt : JsRuntime) (draws : nat) (data : list row),
    let v := validateStockData draws data in
    (List.length (stock v) + List.length (stock_errs v)
     = List.length data)%nat
    /\ stock_drawn v = (draws + List.length (stock v))%nat
    /\ map item_id (stock v)
       = map uuid_of (seq draws (List.length (stock v)))
    /\ Forall imported_item (stock v).
Proof.
  intros rt draws data. unfold validateStockData.
  destruct data as [|first rest].
  - cbn. rewrite Nat.add_0_r. repeat split. constructor.
  - cbv zeta.
    apply (collected_stock_rows (normalizeHeaders (Object_keys first)) draws
             (first :: rest) 0 (mkStockValidation [] [] draws)).
    unfold collected_stock. cbn. rewrite Nat.add_0_r.
    repeat split; constructor.
Qed.

(** X25. A row of a stock sheet whose quantity cell is missing, empty, NaN
    or the number 0 gives no item: the errors hold an entry with the number
    of the row in the sheet whose messages include ['Quantité invalide'].
    A product that is out of stock can therefore not be imported with a
    numeric quantity of 0. *)
Theorem validateStockData_rejects_a_zero_quantity :
  forall (rt : JsRuntime) (draws : nat) (data : list row) (first : row)
         (index : nat) (r : row),
    hd_error data = Some first ->
    nth_error data index = Some r ->
    truthy (cell_of r (normalizeHeaders (Object_keys first)) f_quantity)
    = false ->
    exists messages,
      In (mkRowError (index + 2) messages)
        (stock_errs (validateStockData draws data))
      /\ In (js "Quantité invalide") messages.
Proof.
  intros rt draws data first index r Hfirst Hnth Hq.
  destruct data as [|r0 rest]; [discriminate Hfirst|].
  cbn [hd_error] in Hfirst. injection Hfirst as ->.
  unfold validateStockData. cbv zeta.
  destruct (stock_errors_rows (normalizeHeaders (Object_keys first))
              (first :: rest) 0 (mkStockValidation [] [] draws))
    as (_ & _ & Hbad).
  apply (Hbad index r Hnth Hq).
  apply (detectAndMapColumns_cell (Object_keys first) r f_quantity).
Qed.

(** A sheet of one product whose stock is the number 0. *)
Lemma validateStockData_rejects_a_zero_quantity_witness :
  let first : row :=
    [(js "Produit", VStr (js "Fanta")); (js "Type", VStr (js "Boissons"));
     (js "Quantité", VNum (Fin 0))] in
  exists messages,
    In (mkRowError 2 messages)
      (stock_errs (@validateStockData Reference.utc_host 0 [first]))
    /\ In (js "Quantité invalide") messages.
Proof.
  intros first.
  exact (validateStockData_rejects_a_zero_quantity Reference.utc_host 0
           [first] first 0 first eq_refl eq_refl eq_refl).
Defined.

(** X26. [findStockDuplicates] compares names and categories code unit by
    code unit.  Without a session (flag off, room in local storage), an item
    that [addStockItem] has stored is flagged as a duplicate that should not
    be kept, whatever its other fields; an item whose name is not, exactly,
    the name of a stored item is not flagged and is kept. *)
Theorem findStockDuplicates_compares_exactly :
  forall (rt : JsRuntime) (R : Type) (sb : Supabase R) (w : World R)
         (item other : StockItem),
    authenticated (remote w) = false ->
    read_only (local w) = false ->
    ls_full (local w) = false ->
    ~ In (name other) (map name (stored (STOCK_KEY (local w)) ++ [item])) ->
    exists w',
      addStockItem item w = (Return tt, w')
      /\ findStockDuplicates [item; other] w'
         = (Return [mkStockDuplicateInfo item true false;
                    mkStockDuplicateInfo other false true], w').
Proof.
  intros rt R sb w item other Ha Hro Hfull Hother.
  assert (local_path w) as Hw by (repeat split; assumption).
  rewrite (addStockItem_local item w Hw). eexists. split; [reflexivity|].
  set (w1 := mkWorld _ _ _).
  assert (local_path w1) as Hw1
      by (apply (local_path_set w); [exact Hw | reflexivity | reflexivity]).
  unfold findStockDuplicates, bind, ret.
  rewrite getStock_local by exact Hw1.
  cbn [w1 local STOCK_KEY set_STOCK_KEY stored map].
  set (existing := stored (STOCK_KEY (local w)) ++ [item]) in *.
  unfold flag_stock_duplicate.
  assert (existsb (fun e => same_item e item) existing = true) as ->.
  { apply existsb_exists. exists item. split;
      [apply in_or_app; right; left; reflexivity|].
    unfold same_item. rewrite !str_eqb_refl. reflexivity. }
  assert (existsb (fun e => same_item e other) existing = false) as ->.
  { destruct (existsb _ existing) eqn:E; [|reflexivity].
    apply existsb_exists in E. destruct E as (e & He & Hsame).
    unfold same_item in Hsame. apply andb_true_iff in Hsame.
    destruct Hsame as [Hname _]. apply str_eqb_eq in Hname.
    exfalso. apply Hother. rewrite <- Hname. apply in_map, He. }
  reflexivity.
Qed.

(** Coca-Cola stored, then a sheet that holds Coca-Cola again and
    coca-cola in lower case. *)
Lemma findStockDuplicates_compares_exactly_witness :
  let cola :=
    mkStockItem (js "2") (js "Coca-Cola") (js "Boissons") (js "Sodas")
      (Fin 100) (Fin 5) (Fin 150) (Fin 1.5) in
  let lower :=
    mkStockItem (js "9") (js "coca-cola") (js "Boissons") (js "Sodas")
      (Fin 10) (Fin 5) (Fin 10) (Fin 1.5) in
  let w :=
    mkWorld (mkLocalStorage Absent Absent Absent None None false)
      Reference.signed_out 0%nat in
  let w' :=
    mkWorld (mkLocalStorage Absent (Json [cola]) Absent None None false)
      Reference.signed_out 0%nat in
  @findStockDuplicates Reference.utc_host _ Reference.memory_backend
    [cola; lower] w'
  = (Return [mkStockDuplicateInfo cola true false;
             mkStockDuplicateInfo lower false true], w')
  /\ find (named (toLowerCase (name lower))) (stored (STOCK_KEY (local w')))
     = Some cola.
Proof.
  intros cola lower w w'. split; [|reflexivity].
  destruct (findStockDuplicates_compares_exactly Reference.utc_host _
              Reference.memory_backend w cola lower eq_refl eq_refl eq_refl)
    as (w1 & Hadd & Hfind).
  - vm_compute. intros [H | []]. discriminate H.
  - vm_compute in Hadd. inversion Hadd. subst w1. exact Hfind.
Defined.

(** ** The facade when local storage is full *)

Section Full.
Context {rt : JsRuntime} {R : Type} {sb : Supabase R}.







End Full.



Section FullFacade.
Context {rt : JsRuntime} {R : Type} {sb : Supabase R}.






End FullFacade.


